(** * CiteMigrate: a shallow embedding of the conversion engine

    This development models the core of [citemigrate.py] (the Citavi to
    Zotero field-code converter) as executable Rocq definitions and proves
    properties of it.  The file has two parts: the embedding (definitions,
    in the order of the source file) and the theorems.

    Conventions of the embedding.
    - A Python [str] is a list of characters.  A character is an [ascii],
      read as a code point below 256 (Latin-1); code points above that are
      outside the model.
    - A Python [dict] with a fixed set of optional keys is a record whose
      fields hold the value the code obtains with [d.get(key, default)];
      the matcher's memoisation dictionary is a [gmap].
    - An lxml element is a node of a rose tree that carries a unique
      identifier standing for the identity of the Python object.
    - A function that may raise returns a [py_result]. *)

From Stdlib Require Import List Ascii String ZArith QArith Lia Lqa Bool Arith DecimalString.
From stdpp Require Import base list strings gmap.
Import ListNotations.

Set Warnings "-register-all".
Set Warnings "-notation-overridden".
Set Warnings "-ambiguous-paths".


(** ** Python strings *)

Module PyStr.

Definition str := list ascii.

(** A string literal of the source. *)
Definition lit (s : string) : str := list_ascii_of_string s.
Arguments lit s%_string.

Definition chr (n : nat) : ascii := ascii_of_nat n.

Definition code (c : ascii) : nat := nat_of_ascii c.

(** [c.isspace()] for a code point below 256: the ASCII blanks and
    separators, NEL and the no-break space. *)
Definition is_space (c : ascii) : bool :=
  let n := code c in
  ((9 <=? n) && (n <=? 13)) || ((28 <=? n) && (n <=? 32))
  || (n =? 133) || (n =? 160).

Definition is_digit (c : ascii) : bool :=
  let n := code c in (48 <=? n) && (n <=? 57).

Definition is_upper_ascii (c : ascii) : bool :=
  let n := code c in (65 <=? n) && (n <=? 90).

(** [c.lower()] on Latin-1: A-Z and the accented capitals except the
    multiplication sign. *)
Definition lower_char (c : ascii) : ascii :=
  let n := code c in
  if ((65 <=? n) && (n <=? 90))
     || ((192 <=? n) && (n <=? 222) && negb (n =? 215))
  then chr (n + 32) else c.

Definition lower (s : str) : str := map lower_char s.

Definition eqb_char (a b : ascii) : bool := Ascii.eqb a b.

Fixpoint eqb_str (a b : str) : bool :=
  match a, b with
  | [], [] => true
  | x :: a', y :: b' => eqb_char x y && eqb_str a' b'
  | _, _ => false
  end.

(** [s.startswith(p)] *)
Fixpoint startswith (p s : str) : bool :=
  match p, s with
  | [], _ => true
  | x :: p', y :: s' => eqb_char x y && startswith p' s'
  | _ :: _, [] => false
  end.

(** [sub in s] *)
Fixpoint str_in (sub s : str) : bool :=
  startswith sub s ||
  match s with
  | [] => false
  | _ :: s' => str_in sub s'
  end.

(** [c in s] for a single character. *)
Definition char_in (c : ascii) (s : str) : bool := existsb (eqb_char c) s.

Fixpoint lstrip_by (p : ascii -> bool) (s : str) : str :=
  match s with
  | [] => []
  | c :: s' => if p c then lstrip_by p s' else s
  end.

Definition rstrip_by (p : ascii -> bool) (s : str) : str :=
  rev (lstrip_by p (rev s)).

Definition strip_by (p : ascii -> bool) (s : str) : str :=
  rstrip_by p (lstrip_by p s).

(** [s.strip()], [s.strip(chars)], [s.rstrip(chars)] *)
Definition strip (s : str) : str := strip_by is_space s.

Definition strip_chars (chars s : str) : str :=
  strip_by (fun c => char_in c chars) s.

Definition rstrip_chars (chars s : str) : str :=
  rstrip_by (fun c => char_in c chars) s.

(** [s.split(sep)] for a separator of one character: never empty. *)
Fixpoint split_on (sep : ascii) (s : str) : list str :=
  match s with
  | [] => [[]]
  | c :: s' =>
      if eqb_char c sep then [] :: split_on sep s'
      else match split_on sep s' with
           | h :: r => (c :: h) :: r
           | [] => [[c]]
           end
  end.

(** [s.split()]: the maximal runs of non-blank characters. [cur] is the
    current word, reversed. *)
Fixpoint split_ws_from (cur : str) (s : str) : list str :=
  match s with
  | [] => match cur with [] => [] | _ => [rev cur] end
  | c :: s' =>
      if is_space c
      then match cur with
           | [] => split_ws_from [] s'
           | _ => rev cur :: split_ws_from [] s'
           end
      else split_ws_from (c :: cur) s'
  end.

Definition split_ws (s : str) : list str := split_ws_from [] s.

(** The longest prefix of non-blank characters and what follows it. *)
Fixpoint span_word (s : str) : str * str :=
  match s with
  | [] => ([], [])
  | c :: s' =>
      if is_space c then ([], s)
      else let '(w, r) := span_word s' in (c :: w, r)
  end.

(** [s.split(None, 1)]: the first word and, when something other than
    blanks follows it, the rest from its first non-blank character on. *)
Definition split_ws_once (s : str) : list str :=
  match lstrip_by is_space s with
  | [] => []
  | s1 =>
      let '(w, r) := span_word s1 in
      match lstrip_by is_space r with
      | [] => [w]
      | r1 => [w; r1]
      end
  end.

(** [s.replace(old, new)] for a non-empty [old], scanning left to right
    over non-overlapping occurrences. [skip] counts the characters of the
    occurrence just replaced that are still to be dropped. *)
Fixpoint replace_from (old new : str) (skip : nat) (s : str) : str :=
  match s with
  | [] => []
  | c :: s' =>
      match skip with
      | S k => replace_from old new k s'
      | O =>
          if startswith old s
          then new ++ replace_from old new (length old - 1) s'
          else c :: replace_from old new 0 s'
      end
  end.

(** [s.replace(old, new)]; for an empty [old] Python puts [new] before
    every character and at the end. *)
Definition replace (old new s : str) : str :=
  match old with
  | [] => flat_map (fun c => new ++ [c]) s ++ new
  | _ => replace_from old new 0 s
  end.

(** [s[:n]] and [s[i:j]] for non-negative indices. *)
Definition slice_to (n : nat) (s : str) : str := take n s.

Definition slice (i j : nat) (s : str) : str := take (j - i) (drop i s).

(** No blank character in the string. *)
Definition no_blank (s : str) : bool :=
  forallb (fun c => negb (is_space c)) s.

(** [l[-1]] *)
Definition last_item {A} (l : list A) : option A := last l.

End PyStr.
Export PyStr.

(** ** Exceptions *)

Module PyExc.

(** The exception classes the engine raises or catches.  In Python
    [json.JSONDecodeError], [UnicodeDecodeError] and [binascii.Error] are
    subclasses of [ValueError]; [OtherError] stands for any class outside
    that family. *)
Inductive exc_class : Type :=
| ValueError
| JSONDecodeError
| UnicodeDecodeError
| BinasciiError
| IndexError
| OtherError.

(** [isinstance(e, cls)] for these classes. *)
Definition is_subclass (c cls : exc_class) : bool :=
  match cls, c with
  | ValueError, (ValueError | JSONDecodeError | UnicodeDecodeError | BinasciiError) => true
  | JSONDecodeError, JSONDecodeError => true
  | UnicodeDecodeError, UnicodeDecodeError => true
  | BinasciiError, BinasciiError => true
  | IndexError, IndexError => true
  | OtherError, OtherError => true
  | _, _ => false
  end.

(** The outcome of a call: a value, or an exception with its message. *)
Inductive py_result (A : Type) : Type :=
| Return (a : A)
| Raise (cls : exc_class) (msg : str).
Arguments Return {A} a.
Arguments Raise {A} cls msg.

(** Is the exception caught by [except (handlers)]? *)
Definition caught (cls : exc_class) (handlers : list exc_class) : bool :=
  existsb (is_subclass cls) handlers.

Definition raised {A} (r : py_result A) : bool :=
  match r with Return _ => false | Raise _ _ => true end.

End PyExc.
Export PyExc.

(** ** Markup trees (the part of the lxml API the engine uses) *)

Module Xml.

(** An element: [uid] stands for the identity of the Python object,
    [tag] is the qualified name in Clark notation, [attrib] the attributes
    in order, [text] the text before the first child.  A comment or a
    processing instruction (whose [tag] is not a string in lxml) is a
    childless node with the empty tag.  Tail text is left out: the engine
    never reads it. *)
Inductive element : Type :=
  Element (uid : nat) (tag : str) (attrib : list (str * str))
          (text : option str) (children : list element).

Definition e_uid (e : element) : nat := let 'Element u _ _ _ _ := e in u.
Definition e_tag (e : element) : str := let 'Element _ t _ _ _ := e in t.
Definition e_attrib (e : element) : list (str * str) :=
  let 'Element _ _ a _ _ := e in a.
Definition e_text (e : element) : option str := let 'Element _ _ _ x _ := e in x.
Definition e_children (e : element) : list element :=
  let 'Element _ _ _ _ cs := e in cs.

Definition set_children (cs : list element) (e : element) : element :=
  Element (e_uid e) (e_tag e) (e_attrib e) (e_text e) cs.

(** [NAMESPACES["w"]] and the prefix [W = "{" + NAMESPACES["w"] + "}"]. *)
Definition W_NS : str :=
  lit "http://schemas.openxmlformats.org/wordprocessingml/2006/main".

Definition W : str := lit "{" ++ W_NS ++ lit "}".

Definition w (name : string) : str := W ++ lit name.
Arguments w name%_string.

Definition XML_SPACE : str :=
  lit "{http://www.w3.org/XML/1998/namespace}space".

(** [elem.get(key, default)] *)
Fixpoint assoc_get (key : str) (a : list (str * str)) : option str :=
  match a with
  | [] => None
  | (k, v) :: a' => if eqb_str k key then Some v else assoc_get key a'
  end.

Definition get (e : element) (key default : str) : str :=
  match assoc_get key (e_attrib e) with
  | Some v => v
  | None => default
  end.

(** [elem.iter()]: the element and its descendants in document order. *)
Fixpoint iter (e : element) : list element :=
  let 'Element _ _ _ _ cs := e in e :: flat_map iter cs.

(** [elem.iter(tag)] *)
Definition iter_tag (tag : str) (e : element) : list element :=
  List.filter (fun x => eqb_str (e_tag x) tag) (iter e).

(** [elem.find(tag)] for a plain tag: the first child with that tag. *)
Definition find (tag : str) (e : element) : option element :=
  List.find (fun c => eqb_str (e_tag c) tag) (e_children e).

(** [etree.QName(tag).localname] *)
Fixpoint after_brace (s : str) : str :=
  match s with
  | [] => []
  | c :: s' => if eqb_char c "}"%char then s' else after_brace s'
  end.

Definition localname (tag : str) : str :=
  match tag with
  | c :: _ => if eqb_char c "{"%char then after_brace tag else tag
  | [] => []
  end.

(** Python truthiness of [elem.text]: neither [None] nor empty. *)
Definition text_nonempty (e : element) : option str :=
  match e_text e with
  | Some (c :: s) => Some (c :: s)
  | _ => None
  end.

(** [list(parent).index(child)]: elements compare by identity. *)
Fixpoint index_of (u : nat) (l : list element) : option nat :=
  match l with
  | [] => None
  | c :: l' => if e_uid c =? u then Some 0
               else option_map S (index_of u l')
  end.

(** [parent.insert(i, x)] on the list of children (for [0 <= i]; an index
    past the end appends, as in Python). *)
Definition insert_at {A} (i : nat) (x : A) (l : list A) : list A :=
  take i l ++ x :: drop i l.

(** [parent.remove(child)]: the first child that is [child]. *)
Fixpoint remove_uid (u : nat) (l : list element) : list element :=
  match l with
  | [] => []
  | c :: l' => if e_uid c =? u then l' else c :: remove_uid u l'
  end.

(** [child.getparent()] inside the tree [e]: the first element, in
    document order, that has [u] among its children. *)
Fixpoint getparent_in (u : nat) (e : element) : option element :=
  let 'Element _ _ _ _ cs := e in
  if existsb (fun c => e_uid c =? u) cs then Some e
  else (fix first (l : list element) : option element :=
          match l with
          | [] => None
          | c :: l' => match getparent_in u c with
                       | Some p => Some p
                       | None => first l'
                       end
          end) cs.

(** The element with identity [u] inside the tree [e]. *)
Definition lookup_uid (u : nat) (e : element) : option element :=
  List.find (fun x => e_uid x =? u) (iter e).

(** In-place change of the children of the element with identity [u]. *)
Fixpoint update_children (u : nat) (f : list element -> list element)
    (e : element) : element :=
  let 'Element eu t a x cs := e in
  if eu =? u then Element eu t a x (f cs)
  else Element eu t a x (map (update_children u f) cs).

(** Element construction: [etree.Element(tag)] with attributes and text
    set afterwards, and [etree.SubElement] for its children. *)
Definition new_element (u : nat) (tag : str) (attrib : list (str * str))
    (text : option str) (children : list element) : element :=
  Element u tag attrib text children.

End Xml.
Export Xml.

(** ** JSON values and [json.dumps] *)

Module Json.

(** Structured values, as [json.loads] returns them: [JNull] is Python's
    [None].  A float is kept as the text of its literal; the engine never
    computes with one. *)
Inductive json : Type :=
| JNull
| JBool (b : bool)
| JInt (z : Z)
| JFloat (literal : str)
| JStr (s : str)
| JList (l : list json)
| JDict (members : list (str * json)).

Definition hex_digit (n : nat) : ascii :=
  if n <? 10 then chr (48 + n) else chr (87 + n).

(** One character inside a JSON string, with [ensure_ascii=True]. *)
Definition json_escape_char (c : ascii) : str :=
  let n := code c in
  if n =? 34 then lit "\" ++ [chr 34]
  else if n =? 92 then lit "\\"
  else if n =? 10 then lit "\n"
  else if n =? 13 then lit "\r"
  else if n =? 9 then lit "\t"
  else if n =? 8 then lit "\b"
  else if n =? 12 then lit "\f"
  else if (n <? 32) || (126 <? n)
       then lit "\u00" ++ [hex_digit (n / 16); hex_digit (n mod 16)]
       else [c].

Definition json_string (s : str) : str :=
  [chr 34] ++ flat_map json_escape_char s ++ [chr 34].

Definition json_member (k : string) (v : str) : str :=
  json_string (lit k) ++ lit ": " ++ v.
Arguments json_member k%_string v.

(** [", ".join(l)] *)
Fixpoint comma_join (l : list str) : str :=
  match l with
  | [] => []
  | [x] => x
  | x :: l' => x ++ lit ", " ++ comma_join l'
  end.

(** The decimal text of an integer. *)
Definition decimal_Z (z : Z) : str :=
  lit (NilEmpty.string_of_int (Z.to_int z)).

(** [json.dumps(v)] with the default separators and [ensure_ascii]. *)
Fixpoint json_dumps (v : json) : str :=
  match v with
  | JNull => lit "null"
  | JBool true => lit "true"
  | JBool false => lit "false"
  | JInt z => decimal_Z z
  | JFloat literal => literal
  | JStr s => json_string s
  | JList l => lit "[" ++ comma_join (map json_dumps l) ++ lit "]"
  | JDict members =>
      lit "{"
      ++ comma_join (map (fun kv => json_string (fst kv) ++ lit ": "
                                    ++ json_dumps (snd kv)) members)
      ++ lit "}"
  end.

(** Python truthiness of a value ([if payload]).  A float is taken as
    non-zero: the engine treats a float payload the same way whether it
    is truthy or not. *)
Definition truthy (v : json) : bool :=
  match v with
  | JNull => false
  | JBool b => b
  | JInt z => negb (z =? 0)%Z
  | JFloat _ => true
  | JStr s => negb (eqb_str s [])
  | JList l => match l with [] => false | _ => true end
  | JDict m => match m with [] => false | _ => true end
  end.

End Json.
Export Json.

(** ** Regular expressions (the part of Python's [re] the engine uses) *)

Module Re.

(** Patterns.  [Chr p] is one character satisfying [p] (a literal, a class
    such as [\s], [\d], [[A-Z]]); [Star] is the greedy star; [Bol], [Eol]
    and [WordB] are the assertions [^], [$] and [\b]. *)
Inductive regex : Type :=
| Eps
| Chr (p : ascii -> bool)
| Seq (a b : regex)
| Alt (a b : regex)
| Star (a : regex)
| Bol
| Eol
| WordB.

Definition Plus (a : regex) : regex := Seq a (Star a).
Definition Opt (a : regex) : regex := Alt a Eps.

(** A literal text; with [icase] (the flag [re.IGNORECASE]) a character
    matches when it agrees with the pattern's up to case. *)
Definition lit_char (icase : bool) (c : ascii) : regex :=
  Chr (fun x => if icase then eqb_char (lower_char x) (lower_char c)
                else eqb_char x c).

Fixpoint lit_re (icase : bool) (s : str) : regex :=
  match s with
  | [] => Eps
  | [c] => lit_char icase c
  | c :: s' => Seq (lit_char icase c) (lit_re icase s')
  end.

Definition text_re (icase : bool) (s : string) : regex := lit_re icase (lit s).
Arguments text_re icase s%_string.

Fixpoint seq_re (l : list regex) : regex :=
  match l with
  | [] => Eps
  | [a] => a
  | a :: l' => Seq a (seq_re l')
  end.

Fixpoint alt_re (l : list regex) : regex :=
  match l with
  | [] => Chr (fun _ => false)
  | [a] => a
  | a :: l' => Alt a (alt_re l')
  end.

(** [\w] on Latin-1: letters, digits, the underscore and the characters
    [str.isalnum] accepts. *)
Definition is_word (c : ascii) : bool :=
  let n := code c in
  ((48 <=? n) && (n <=? 57)) || ((65 <=? n) && (n <=? 90))
  || ((97 <=? n) && (n <=? 122)) || (n =? 95)
  || (n =? 170) || (n =? 178) || (n =? 179) || (n =? 181)
  || (n =? 185) || (n =? 186) || ((188 <=? n) && (n <=? 190))
  || ((192 <=? n) && (n <=? 255) && negb (n =? 215) && negb (n =? 247)).

Definition is_word_opt (c : option ascii) : bool :=
  match c with Some c => is_word c | None => false end.

(** Backtracking matcher in continuation-passing style: [prev] is the
    character before the current position (for [^] and [\b]), [s] what is
    left of the subject, [k] the rest of the match.  Alternatives are
    tried in order and the star takes as many iterations as it can before
    giving one back, as in Python; an iteration that consumes nothing
    ends the star. *)
Fixpoint match_k {X : Type} (r : regex) (prev : option ascii) (s : str)
    (k : option ascii -> str -> option X) : option X :=
  match r with
  | Eps => k prev s
  | Chr p =>
      match s with
      | c :: s' => if p c then k (Some c) s' else None
      | [] => None
      end
  | Seq a b => match_k a prev s (fun prev' s' => match_k b prev' s' k)
  | Alt a b =>
      match match_k a prev s k with
      | Some x => Some x
      | None => match_k b prev s k
      end
  | Star a =>
      (fix loop (n : nat) (prev : option ascii) (s : str) : option X :=
         match n with
         | O => k prev s
         | S n' =>
             match match_k a prev s
                     (fun prev' s' =>
                        if length s' <? length s then loop n' prev' s'
                        else None) with
             | Some x => Some x
             | None => k prev s
             end
         end) (length s) prev s
  | Bol => match prev with None => k prev s | Some _ => None end
  | Eol =>
      match s with
      | [] => k prev s
      | [c] => if eqb_char c (chr 10) then k prev s else None
      | _ => None
      end
  | WordB =>
      if xorb (is_word_opt prev) (is_word_opt (head s)) then k prev s
      else None
  end.

(** A match of [r] at the current position: what is left behind it. *)
Definition match_at (r : regex) (prev : option ascii) (s : str) : option str :=
  match_k r prev s (fun _ s' => Some s').

(** [re.search(r, s)]: start and end of the leftmost match. *)
Fixpoint search_from (r : regex) (prev : option ascii) (s : str) (i : nat)
    : option (nat * nat) :=
  match match_at r prev s with
  | Some rest => Some (i, i + (length s - length rest))
  | None =>
      match s with
      | [] => None
      | c :: s' => search_from r (Some c) s' (S i)
      end
  end.

Definition search (r : regex) (s : str) : option (nat * nat) :=
  search_from r None s 0.

(** [re.sub(r, "", s)]: every non-overlapping match is dropped; [skip]
    counts the characters of the current match still to be dropped. *)
Fixpoint sub_from (r : regex) (prev : option ascii) (skip : nat) (s : str) : str :=
  match s with
  | [] => []
  | c :: s' =>
      match skip with
      | S n => sub_from r (Some c) n s'
      | O =>
          match match_at r prev s with
          | Some rest =>
              match length s - length rest with
              | O => c :: sub_from r (Some c) 0 s'
              | S n => sub_from r (Some c) n s'
              end
          | None => c :: sub_from r (Some c) 0 s'
          end
      end
  end.

Definition sub_empty (r : regex) (s : str) : str := sub_from r None 0 s.

(** [re.split(r, s)[0]] for a pattern that matches no empty text: the
    text before the leftmost match, the whole text when there is none;
    and whether [re.split] returns more than one part. *)
Definition split_first (r : regex) (s : str) : str * bool :=
  match search r s with
  | Some (i, _) => (take i s, true)
  | None => (s, false)
  end.

Definition space : regex := Chr is_space.
Definition digit : regex := Chr is_digit.
Definition dot : regex := Chr (eqb_char "."%char).

End Re.
Export Re.

(** ** Payload decoding ([decode_citavi_payload]) *)

Module Decoder.

(** Bytes are characters too. *)
Definition bytes := list ascii.

(** [\{.*\}] with [re.DOTALL] *)
Definition RE_JSON_OBJECT : regex :=
  seq_re [Chr (eqb_char "{"%char); Star (Chr (fun _ => true));
          Chr (eqb_char "}"%char)].

Section Runtime.

(** The library calls the decoder makes: [base64.b64decode] on a string,
    [bytes.decode("utf-8", errors="replace")] and [json.loads]. *)
Variable b64decode : str -> py_result bytes.
Variable decode_utf8_replace : bytes -> str.
Variable json_loads : str -> py_result json.

(** The texts of the instruction runs: [instr.text.strip()] for every
    [w:instrText] with a non-empty text. *)
Definition instr_parts (sdt_content : element) : list str :=
  flat_map (fun instr =>
              match text_nonempty instr with
              | Some t => [strip t]
              | None => []
              end)
           (iter_tag (w "instrText") sdt_content).

(** [raw.split(None, 1)[-1] if " " in raw else raw] *)
Definition second_candidate (raw : str) : py_result str :=
  if char_in " "%char raw
  then match last_item (split_ws_once raw) with
       | Some x => Return x
       | None => Raise IndexError (lit "list index out of range")
       end
  else Return raw.

Definition BASE64_HANDLERS : list exc_class :=
  [JSONDecodeError; ValueError; UnicodeDecodeError; BinasciiError].

(** The body of the loop over the candidates: [Return (Some v)] when the
    body returns [v], [Return None] when it goes on to the next
    candidate. *)
Definition try_base64 (candidate : str) : py_result (option json) :=
  let candidate := strip candidate in
  match candidate with
  | [] => Return None
  | _ =>
      match b64decode candidate with
      | Raise cls msg =>
          if caught cls BASE64_HANDLERS then Return None else Raise cls msg
      | Return b =>
          match json_loads (decode_utf8_replace b) with
          | Raise cls msg =>
              if caught cls BASE64_HANDLERS then Return None else Raise cls msg
          | Return v => Return (Some v)
          end
      end
  end.

(** The last strategy: the first brace-delimited text, parsed as it is. *)
Definition try_embedded_json (raw : str) : py_result (option json) :=
  match search RE_JSON_OBJECT raw with
  | None => Return None
  | Some (i, j) =>
      match json_loads (slice i j raw) with
      | Raise cls msg =>
          if caught cls [JSONDecodeError] then Return None else Raise cls msg
      | Return v => Return (Some v)
      end
  end.

(** The strategies on the raw instruction text, in order. *)
Definition decode_raw (raw : str) : py_result json :=
  match second_candidate raw with
  | Raise cls msg => Raise cls msg
  | Return second =>
      match try_base64 raw with
      | Raise cls msg => Raise cls msg
      | Return (Some v) => Return v
      | Return None =>
          match try_base64 second with
          | Raise cls msg => Raise cls msg
          | Return (Some v) => Return v
          | Return None =>
              match try_embedded_json raw with
              | Raise cls msg => Raise cls msg
              | Return (Some v) => Return v
              | Return None => Return JNull
              end
          end
      end
  end.

(** [decode_citavi_payload(sdt)] *)
Definition decode_citavi_payload (sdt : element) : py_result json :=
  match find (w "sdtContent") sdt with
  | None => Return JNull
  | Some sdt_content =>
      match instr_parts sdt_content with
      | [] => Return JNull
      | parts => decode_raw (concat parts)
      end
  end.

(** Does the base64 strategy fall through on this candidate, and the
    embedded-object strategy on this text? *)
Definition base64_fails (candidate : str) : bool :=
  match strip candidate with
  | [] => true
  | c =>
      match b64decode c with
      | Raise _ _ => true
      | Return b => raised (json_loads (decode_utf8_replace b))
      end
  end.

Definition embedded_fails (raw : str) : bool :=
  match search RE_JSON_OBJECT raw with
  | None => true
  | Some (i, j) => raised (json_loads (slice i j raw))
  end.

(** The exceptions the library calls are documented to raise. *)
Definition b64decode_contract : Prop :=
  forall s cls msg, b64decode s = Raise cls msg ->
                    is_subclass cls ValueError = true.

Definition json_loads_contract : Prop :=
  forall s cls msg, json_loads s = Raise cls msg -> cls = JSONDecodeError.

End Runtime.

End Decoder.
Export Decoder.

(** ** A reference runtime

    Executable models of the library calls the decoder is parameterised
    over ([base64], UTF-8 and [json.loads]), on the Latin-1 fragment of
    the model.  They instantiate the parameters in the examples; the
    theorems about the decoder hold for every runtime. *)

Module RefRuntime.

(** *** Base64 *)

Definition b64_char (n : nat) : ascii :=
  if n <? 26 then chr (65 + n)
  else if n <? 52 then chr (97 + (n - 26))
  else if n <? 62 then chr (48 + (n - 52))
  else if n =? 62 then "+"%char else "/"%char.

Definition b64_index (c : ascii) : option nat :=
  let n := code c in
  if (65 <=? n) && (n <=? 90) then Some (n - 65)
  else if (97 <=? n) && (n <=? 122) then Some (n - 97 + 26)
  else if (48 <=? n) && (n <=? 57) then Some (n - 48 + 52)
  else if n =? 43 then Some 62
  else if n =? 47 then Some 63
  else None.

(** [base64.b64encode(b)] *)
Fixpoint b64encode (b : bytes) : str :=
  match b with
  | [] => []
  | [x] =>
      let x := code x in
      [b64_char (x / 4); b64_char ((x mod 4) * 16); "="%char; "="%char]
  | [x; y] =>
      let x := code x in let y := code y in
      [b64_char (x / 4); b64_char ((x mod 4) * 16 + y / 16);
       b64_char ((y mod 16) * 4); "="%char]
  | x :: y :: z :: rest =>
      let x := code x in let y := code y in let z := code z in
      b64_char (x / 4) :: b64_char ((x mod 4) * 16 + y / 16)
      :: b64_char ((y mod 16) * 4 + z / 64) :: b64_char (z mod 64)
      :: b64encode rest
  end.

(** The bytes of a run of six-bit digits; a lone last digit cannot be
    decoded. *)
Fixpoint sextets_to_bytes (l : list nat) : option bytes :=
  match l with
  | [] => Some []
  | [_] => None
  | [a; b] => Some [chr (a * 4 + b / 16)]
  | [a; b; c] => Some [chr (a * 4 + b / 16); chr ((b mod 16) * 16 + c / 4)]
  | a :: b :: c :: d :: rest =>
      match sextets_to_bytes rest with
      | Some bs =>
          Some (chr (a * 4 + b / 16) :: chr ((b mod 16) * 16 + c / 4)
                :: chr ((c mod 4) * 64 + d) :: bs)
      | None => None
      end
  end.

(** The digits before the first padding character, other characters
    being skipped, and the number of padding characters. *)
Fixpoint b64_digits (s : str) : list nat * nat :=
  match s with
  | [] => ([], 0)
  | c :: s' =>
      if eqb_char c "="%char
      then ([], length (List.filter (eqb_char "="%char) s))
      else let '(ds, pad) := b64_digits s' in
           match b64_index c with
           | Some d => (d :: ds, pad)
           | None => (ds, pad)
           end
  end.

(** [base64.b64decode(s)] for a string: characters outside the alphabet
    are discarded, a non-ASCII string is refused and so is a text whose
    padding does not complete the last group. *)
Definition b64decode (s : str) : py_result bytes :=
  if existsb (fun c => 127 <? code c) s
  then Raise ValueError
         (lit "string argument should contain only ASCII characters")
  else
    let '(ds, pad) := b64_digits s in
    let k := length ds mod 4 in
    if (k =? 1) || ((k =? 2) && (pad <? 2)) || ((k =? 3) && (pad <? 1))
    then Raise BinasciiError (lit "Incorrect padding")
    else match sextets_to_bytes ds with
         | Some b => Return b
         | None => Raise BinasciiError (lit "Incorrect padding")
         end.

(** *** UTF-8 on Latin-1 *)

(** [s.encode("utf-8")] *)
Definition encode_utf8 (s : str) : bytes :=
  flat_map (fun c => let n := code c in
                     if n <? 128 then [c]
                     else [chr (192 + n / 64); chr (128 + n mod 64)]) s.

(** [b.decode("utf-8", errors="replace")]; the replacement character is
    outside Latin-1 and is rendered as a question mark, and so is a
    sequence that encodes a code point above 255. *)
Fixpoint decode_utf8_replace (b : bytes) : str :=
  match b with
  | [] => []
  | x :: rest =>
      let n := code x in
      if n <? 128 then x :: decode_utf8_replace rest
      else match rest with
           | y :: rest' =>
               let k := code y in
               if ((n =? 194) || (n =? 195)) && (128 <=? k) && (k <? 192)
               then chr ((n - 192) * 64 + (k - 128)) :: decode_utf8_replace rest'
               else "?"%char :: decode_utf8_replace rest
           | [] => ["?"%char]
           end
  end.

(** *** [json.loads] *)

Definition is_json_ws (c : ascii) : bool :=
  let n := code c in (n =? 32) || (n =? 9) || (n =? 10) || (n =? 13).

Definition skip_ws (s : str) : str := lstrip_by is_json_ws s.

Definition hex_value (c : ascii) : option nat :=
  let n := code c in
  if (48 <=? n) && (n <=? 57) then Some (n - 48)
  else if (97 <=? n) && (n <=? 102) then Some (n - 87)
  else if (65 <=? n) && (n <=? 70) then Some (n - 55)
  else None.

(** The characters of a string literal after the opening quote, up to
    the closing one. *)
Fixpoint parse_string_body (s : str) : option (str * str) :=
  match s with
  | [] => None
  | c :: s' =>
      if eqb_char c (chr 34) then Some ([], s')
      else if eqb_char c "\"%char then
        match s' with
        | e :: s'' =>
            let plain (x : ascii) :=
              match parse_string_body s'' with
              | Some (t, r) => Some (x :: t, r)
              | None => None
              end in
            if eqb_char e (chr 34) then plain (chr 34)
            else if eqb_char e "\"%char then plain "\"%char
            else if eqb_char e "/"%char then plain "/"%char
            else if eqb_char e "b"%char then plain (chr 8)
            else if eqb_char e "f"%char then plain (chr 12)
            else if eqb_char e "n"%char then plain (chr 10)
            else if eqb_char e "r"%char then plain (chr 13)
            else if eqb_char e "t"%char then plain (chr 9)
            else if eqb_char e "u"%char then
              match s'' with
              | h1 :: h2 :: h3 :: h4 :: s3 =>
                  match hex_value h1, hex_value h2, hex_value h3, hex_value h4,
                        parse_string_body s3 with
                  | Some 0, Some 0, Some a, Some b, Some (t, r) =>
                      Some (chr (a * 16 + b) :: t, r)
                  | _, _, _, _, _ => None
                  end
              | _ => None
              end
            else None
        | [] => None
        end
      else if code c <? 32 then None
      else match parse_string_body s' with
           | Some (t, r) => Some (c :: t, r)
           | None => None
           end
  end.

Fixpoint span_by (p : ascii -> bool) (s : str) : str * str :=
  match s with
  | [] => ([], [])
  | c :: s' => if p c then let '(a, r) := span_by p s' in (c :: a, r)
               else ([], s)
  end.

Definition digits_value (ds : str) : Z :=
  fold_left (fun acc d => (acc * 10 + Z.of_nat (code d - 48))%Z) ds 0%Z.

(** A number: an integer, or a float kept by its literal. *)
Definition parse_number (s : str) : option (json * str) :=
  let '(sign, s1) :=
    match s with
    | c :: r => if eqb_char c "-"%char then (true, r) else (false, s)
    | [] => (false, s)
    end in
  let '(ds, s2) := span_by is_digit s1 in
  match ds with
  | [] => None
  | _ =>
      let '(tail, s3) :=
        span_by (fun c => is_digit c || char_in c (lit ".eE+-")) s2 in
      match tail with
      | [] => Some (JInt (if sign then - digits_value ds else digits_value ds)%Z, s2)
      | _ => Some (JFloat ((if sign then lit "-" else []) ++ ds ++ tail), s3)
      end
  end.

Definition expect (word : str) (v : json) (s : str) : option (json * str) :=
  if startswith word s then Some (v, drop (length word) s) else None.

(** A value, by recursive descent; [fuel] bounds the nesting depth. *)
Fixpoint parse_value (fuel : nat) (s : str) : option (json * str) :=
  match fuel with
  | O => None
  | S fuel' =>
      match skip_ws s with
      | [] => None
      | c :: rest =>
          if eqb_char c "n"%char then expect (lit "null") JNull (c :: rest)
          else if eqb_char c "t"%char then expect (lit "true") (JBool true) (c :: rest)
          else if eqb_char c "f"%char then expect (lit "false") (JBool false) (c :: rest)
          else if eqb_char c (chr 34) then
            match parse_string_body rest with
            | Some (t, r) => Some (JStr t, r)
            | None => None
            end
          else if eqb_char c "["%char then
            match skip_ws rest with
            | d :: r =>
                if eqb_char d "]"%char then Some (JList [], r)
                else
                  (fix elems (n : nat) (s : str) (acc : list json)
                     : option (json * str) :=
                     match n with
                     | O => None
                     | S n' =>
                         match parse_value fuel' s with
                         | None => None
                         | Some (v, s1) =>
                             match skip_ws s1 with
                             | e :: s2 =>
                                 if eqb_char e ","%char then elems n' s2 (v :: acc)
                                 else if eqb_char e "]"%char
                                      then Some (JList (rev (v :: acc)), s2)
                                      else None
                             | [] => None
                             end
                         end
                     end) (length rest) (d :: r) []
            | [] => None
            end
          else if eqb_char c "{"%char then
            match skip_ws rest with
            | d :: r =>
                if eqb_char d "}"%char then Some (JDict [], r)
                else
                  (fix members (n : nat) (s : str) (acc : list (str * json))
                     : option (json * str) :=
                     match n with
                     | O => None
                     | S n' =>
                         match skip_ws s with
                         | q :: s0 =>
                             if eqb_char q (chr 34) then
                               match parse_string_body s0 with
                               | None => None
                               | Some (k, s1) =>
                                   match skip_ws s1 with
                                   | colon :: s2 =>
                                       if eqb_char colon ":"%char then
                                         match parse_value fuel' s2 with
                                         | None => None
                                         | Some (v, s3) =>
                                             match skip_ws s3 with
                                             | e :: s4 =>
                                                 if eqb_char e ","%char
                                                 then members n' s4 ((k, v) :: acc)
                                                 else if eqb_char e "}"%char
                                                      then Some (JDict (rev ((k, v) :: acc)), s4)
                                                      else None
                                             | [] => None
                                             end
                                         end
                                       else None
                                   | [] => None
                                   end
                               end
                             else None
                         | [] => None
                         end
                     end) (length rest) (d :: r) []
            | [] => None
            end
          else parse_number (c :: rest)
      end
  end.

(** [json.loads(s)] *)
Definition json_loads (s : str) : py_result json :=
  match parse_value (S (length s)) s with
  | Some (v, rest) =>
      match skip_ws rest with
      | [] => Return v
      | _ => Raise JSONDecodeError (lit "Extra data")
      end
  | None => Raise JSONDecodeError (lit "Expecting value")
  end.

(** *** Builtins on floats, lists and dictionaries

    The samples hold no float, list or dictionary where the engine would
    take its text or its truth value; these stand-ins keep a float's
    literal for its text, take a float for zero when its literal has no
    digit other than 0, and give a list or a dictionary its JSON text. *)
Definition dumps_float (literal : str) : str := literal.

Definition float_is_zero (literal : str) : bool :=
  forallb (fun c => negb (is_digit c) || eqb_char c "0"%char)
          (fst (span_by (fun c => negb (eqb_char c "e"%char || eqb_char c "E"%char))
                        literal)).

Definition str_of_compound (v : json) : str := json_dumps v.

(** The decoder on the reference runtime. *)
Definition decode_payload : element -> py_result json :=
  decode_citavi_payload b64decode decode_utf8_replace json_loads.

(** *** A sample placeholder *)

Definition sample_payload : json :=
  JDict [(lit "Entries",
          JList [JDict [(lit "Title", JStr (lit "Citation managers compared"));
                        (lit "Authors",
                         JList [JDict [(lit "LastName", JStr (lit "Smith"));
                                       (lit "FirstName", JStr (lit "John"))]]);
                        (lit "Year", JInt 2019)]])].

Definition sample_b64 : str := b64encode (encode_utf8 (json_dumps sample_payload)).

(** The content region of a placeholder whose field carries the given
    instruction runs and shows "(Smith 2019)". *)
Definition content_with (instr : list str) : element :=
  Element 14 (w "sdtContent") [] None
    ([Element 15 (w "r") [] None
        [Element 16 (w "fldChar") [(w "fldCharType", lit "begin")] None []]]
     ++ map (fun t => Element 17 (w "r") [] None
                        [Element 18 (w "instrText") [] (Some t) []]) instr
     ++ [Element 19 (w "r") [] None
           [Element 20 (w "fldChar") [(w "fldCharType", lit "separate")] None []];
         Element 21 (w "r") [] None
           [Element 22 (w "t") [] (Some (lit "(Smith 2019)")) []];
         Element 23 (w "r") [] None
           [Element 24 (w "fldChar") [(w "fldCharType", lit "end")] None []]]).

Definition placeholder_with (instr : list str) : element :=
  Element 10 (w "sdt") [] None
    [Element 11 (w "sdtPr") [] None
       [Element 12 (w "tag")
          [(w "val", lit "CitaviPlaceholder#0f1e2d3c")] None []];
     content_with instr].

(** The instruction text is the base64 text, cut in two runs. *)
Definition sample_content : element :=
  content_with [take 100 sample_b64; drop 100 sample_b64].

Definition sample_placeholder : element :=
  placeholder_with [take 100 sample_b64; drop 100 sample_b64].

End RefRuntime.

(** ** The records of a payload ([extract_citation_info_from_citavi]) *)

Module CitaviRecords.

(** A dictionary as [json.loads] builds it from the members of an object:
    a later member with the same key replaces the value of an earlier
    one, which keeps its place. *)
Fixpoint dict_get (key : str) (members : list (str * json)) : option json :=
  match members with
  | [] => None
  | (k, v) :: rest =>
      match dict_get key rest with
      | Some v' => Some v'
      | None => if eqb_str k key then Some v else None
      end
  end.

(** [d.get(key, default)] *)
Definition get_or (key : string) (members : list (str * json)) (default : json)
    : json :=
  match dict_get (lit key) members with
  | Some v => v
  | None => default
  end.
Arguments get_or key%_string members default.

(** [d.values()]: one value for each key, in the order in which the keys
    first occur. *)
Fixpoint dict_values_from (seen : list str) (all members : list (str * json))
    : list json :=
  match members with
  | [] => []
  | (k, _) :: rest =>
      if existsb (eqb_str k) seen then dict_values_from seen all rest
      else match dict_get k all with
           | Some v => v :: dict_values_from (k :: seen) all rest
           | None => dict_values_from (k :: seen) all rest
           end
  end.

Definition dict_values (members : list (str * json)) : list json :=
  dict_values_from [] members members.

(** An author of a record: the two names are whatever values the payload
    holds for them. *)
Record raw_author : Type := {
  ra_family : json;
  ra_given : json
}.

(** The dictionary [info] of a record, with its optional keys. *)
Record raw_info : Type := {
  ri_title : option str;
  ri_authors : option (list raw_author);
  ri_year : option str;
  ri_doi : option str;
  ri_isbn : option str
}.

(** Is the dictionary [info] empty? *)
Definition info_empty (info : raw_info) : bool :=
  match ri_title info, ri_authors info, ri_year info, ri_doi info,
        ri_isbn info with
  | None, None, None, None, None => true
  | _, _, _, _, _ => false
  end.

(** [\b(1[0-9]{3}|2[0-9]{3})\b] *)
Definition RE_CITAVI_YEAR : regex :=
  seq_re [WordB;
          Alt (seq_re [Chr (eqb_char "1"%char); digit; digit; digit])
              (seq_re [Chr (eqb_char "2"%char); digit; digit; digit]);
          WordB].

Section Builtins.

(** What Python's builtins do with a float, kept as the text of its
    literal, and with a list or a dictionary: is the float zero, and the
    text [str(v)] of a float, a list or a dictionary. *)
Variable float_is_zero : str -> bool.
Variable str_of_compound : json -> str.

(** Truthiness of a value of an entry. *)
Definition value_truthy (v : json) : bool :=
  match v with
  | JFloat literal => negb (float_is_zero literal)
  | _ => truthy v
  end.

(** [str(v)] *)
Definition py_str (v : json) : str :=
  match v with
  | JNull => lit "None"
  | JBool true => lit "True"
  | JBool false => lit "False"
  | JInt z => decimal_Z z
  | JStr s => s
  | _ => str_of_compound v
  end.

(** [for key in keys: if key in entry and entry[key]: ...; break]: the
    value the body of the loop is run with. *)
Fixpoint first_truthy (keys : list str) (entry : list (str * json))
    : option json :=
  match keys with
  | [] => None
  | key :: keys' =>
      match dict_get key entry with
      | Some v => if value_truthy v then Some v else first_truthy keys' entry
      | None => first_truthy keys' entry
      end
  end.

(** The authors one element of the author list gives. *)
Definition authors_of (a : json) : list raw_author :=
  match a with
  | JDict m =>
      [{| ra_family :=
            get_or "LastName" m (get_or "Family" m (get_or "family" m (JStr [])));
          ra_given :=
            get_or "FirstName" m (get_or "Given" m (get_or "given" m (JStr []))) |}]
  | JStr s =>
      match split_on ","%char s with
      | p0 :: p1 :: _ =>
          [{| ra_family := JStr (strip p0); ra_given := JStr (strip p1) |}]
      | _ => [{| ra_family := JStr (strip s); ra_given := JStr [] |}]
      end
  | _ => []
  end.

(** [extract_from_entry(entry)] *)
Definition extract_from_entry (entry : list (str * json)) : option raw_info :=
  let title :=
    option_map (fun v => strip (py_str v))
      (first_truthy [lit "Title"; lit "title"; lit "TitleString"] entry) in
  let authors :=
    match first_truthy [lit "Authors"; lit "authors";
                        lit "AuthorsOrEditorsOrOrganizations"] entry with
    | Some (JList author_list) => flat_map authors_of author_list
    | _ => []
    end in
  let year :=
    match first_truthy [lit "Year"; lit "year"; lit "YearResolved";
                        lit "Date"] entry with
    | Some v =>
        match search RE_CITAVI_YEAR (py_str v) with
        | Some (i, j) => Some (slice i j (py_str v))
        | None => None
        end
    | None => None
    end in
  let doi :=
    option_map (fun v => strip (py_str v))
      (first_truthy [lit "Doi"; lit "doi"; lit "DOI"] entry) in
  let isbn :=
    option_map (fun v => strip (py_str v))
      (first_truthy [lit "Isbn"; lit "isbn"; lit "ISBN"] entry) in
  let info :=
    {| ri_title := title;
       ri_authors := match authors with [] => None | _ => Some authors end;
       ri_year := year; ri_doi := doi; ri_isbn := isbn |} in
  if info_empty info then None else Some info.

(** The records of the dictionaries of a list. *)
Definition records_of (entries : list json) : list raw_info :=
  flat_map (fun entry =>
              match entry with
              | JDict m =>
                  match extract_from_entry m with
                  | Some result => [result]
                  | None => []
                  end
              | _ => []
              end) entries.

(** The list under the first of the keys that holds a list. *)
Fixpoint find_entries (keys : list str) (payload : list (str * json))
    : list json :=
  match keys with
  | [] => []
  | key :: keys' =>
      match dict_get key payload with
      | Some (JList l) => l
      | _ => find_entries keys' payload
      end
  end.

(** The loop over [payload.values()]: the records returned from inside
    the loop, [None] when the loop runs to its end. *)
Fixpoint first_yield (citations : list raw_info) (vals : list json)
    : option (list raw_info) :=
  match vals with
  | [] => None
  | JList l :: rest =>
      let citations := citations ++ records_of l in
      match citations with
      | [] => first_yield citations rest
      | _ => Some citations
      end
  | _ :: rest => first_yield citations rest
  end.

(** [extract_citation_info_from_citavi(payload)] *)
Definition extract_citation_info_from_citavi (payload : json) : list raw_info :=
  match payload with
  | JDict m =>
      match find_entries [lit "Entries"; lit "entries"; lit "Citations";
                          lit "citations"; lit "References"] m with
      | [] =>
          match extract_from_entry m with
          | Some result => [result]
          | None =>
              match first_yield [] (dict_values m) with
              | Some citations => citations
              | None => []
              end
          end
      | entries => records_of entries
      end
  | JList entries => records_of entries
  | _ => []
  end.

End Builtins.

(** A record as the engine expects it: some key is present, the authors,
    when present, are not an empty list, the year is four digits of which
    the first is 1 or 2, and title, DOI and ISBN carry no blank at either
    end. *)
Definition stripped (s : str) : Prop :=
  (forall c r, s = c :: r -> is_space c = false)
  /\ (forall r c, s = r ++ [c] -> is_space c = false).

Definition year_text (y : str) : Prop :=
  exists a b c d,
    y = [a; b; c; d]
    /\ (a = "1"%char \/ a = "2"%char)
    /\ is_digit b = true /\ is_digit c = true /\ is_digit d = true.

Definition record_ok (r : raw_info) : Prop :=
  info_empty r = false
  /\ ri_authors r <> Some []
  /\ (forall y, ri_year r = Some y -> year_text y)
  /\ (forall t, ri_title r = Some t -> stripped t)
  /\ (forall t, ri_doi r = Some t -> stripped t)
  /\ (forall t, ri_isbn r = Some t -> stripped t).

End CitaviRecords.
Export CitaviRecords.

(** ** Binary floating point ([float]) *)

Module Binary64.

(** A finite Python [float] is a binary64 number: an integer of at most
    53 bits times a power of two, the exponent being at least -1074.  It
    is modelled by the rational it denotes.  An arithmetic operation on
    floats is the exact operation followed by rounding to the nearest such
    number, ties going to the one with an even integer.  The matcher
    computes with values between 0 and 10 only, so no operation
    overflows. *)

Definition pow2 (e : Z) : Q := Qpower 2 e.

(** The integer nearest to a rational, ties to even. *)
Definition round_half_even (x : Q) : Z :=
  let n := Qnum x in
  let d := Zpos (Qden x) in
  let q := (n / d)%Z in
  let r := (n mod d)%Z in
  match (2 * r ?= d)%Z with
  | Lt => q
  | Gt => (q + 1)%Z
  | Eq => if Z.even q then q else (q + 1)%Z
  end.

(** The exponent [e] with [2^e <= |x| < 2^(e+1)], for [x] other than
    zero. *)
Definition binade (x : Q) : Z :=
  let d := (Z.log2 (Z.abs (Qnum x)) - Z.log2 (Zpos (Qden x)))%Z in
  if Qle_bool (pow2 d) (Z.abs (Qnum x) # Qden x) then d else (d - 1)%Z.

(** Rounding to binary64. *)
Definition fl (x : Q) : Q :=
  if (Qnum x =? 0)%Z then 0
  else
    let e := Z.max (binade x - 52) (-1074) in
    inject_Z (round_half_even (x / pow2 e)) * pow2 e.

(** [float(n)] for an integer below [2^53], and the operations [a / b] on
    integers (true division rounds once), [a * b] and [a + b]. *)
Definition of_int (n : nat) : Q := inject_Z (Z.of_nat n).
Definition int_div (a b : nat) : Q := fl (of_int a / of_int b).
Definition mul (a b : Q) : Q := fl (a * b).
Definition add (a b : Q) : Q := fl (a + b).

(** The literal [0.6]. *)
Definition SIX_TENTHS : Q := fl (6 # 10).

End Binary64.

(** ** Library matching ([ZoteroMatcher]) *)

Module Matcher.

(** A creator of a library entry; a key the entry does not carry reads as
    the empty string ([creator.get("lastName", "")]). *)
Record creator : Type := {
  lastName : str;
  firstName : str;
  name : str;
  creatorType : str
}.

(** [item["data"]] of a library entry, restricted to the keys the matcher
    reads, each with the default of its [get]. *)
Record item_data : Type := {
  DOI : str;
  ISBN : str;
  date : str;
  creators : list creator;
  title : str
}.

Record item : Type := {
  key : str;
  data : item_data
}.

(** An author whose names are strings: what
    [find_match_by_display_text] puts into the records it builds.  The
    author of a record of a payload, whose names are any values, is
    [raw_author]. *)
Record author : Type := {
  family : str;
  given : str
}.

(** A citation record with strings for names: a dictionary with the
    optional keys ["title"], ["authors"], ["year"], ["doi"] and
    ["isbn"].  On such a record no step of [find_match] raises;
    [find_match_raw] below is [find_match] on any record. *)
Record citation_info : Type := {
  ci_title : option str;
  ci_authors : option (list author);
  ci_year : option str;
  ci_doi : option str;
  ci_isbn : option str
}.

(** *** The memoisation key: [json.dumps(citation_info, sort_keys=True)] *)

Definition json_author (a : author) : str :=
  lit "{" ++ comma_join [json_member "family" (json_string (family a));
                         json_member "given" (json_string (given a))] ++ lit "}".

Definition opt_member (k : string) (v : option str) : list str :=
  match v with
  | Some s => [json_member k (json_string s)]
  | None => []
  end.
Arguments opt_member k%_string v.

Definition cache_key (ci : citation_info) : str :=
  lit "{" ++
  comma_join
    ((match ci_authors ci with
      | Some l => [json_member "authors"
                     (lit "[" ++ comma_join (map json_author l) ++ lit "]")]
      | None => []
      end)
     ++ opt_member "doi" (ci_doi ci)
     ++ opt_member "isbn" (ci_isbn ci)
     ++ opt_member "title" (ci_title ci)
     ++ opt_member "year" (ci_year ci))
  ++ lit "}".

(** *** [find_match] *)

(** Stage 1: the first entry whose DOI, lowered and trimmed, is not empty
    and equals the record's. *)
Definition doi_match (items : list item) (ci : citation_info) : option item :=
  match ci_doi ci with
  | None => None
  | Some d =>
      let doi := strip (lower d) in
      List.find (fun it =>
                   let item_doi := strip (lower (DOI (data it))) in
                   negb (eqb_str item_doi []) && eqb_str item_doi doi)
                items
  end.

(** [re.sub(r'[\s-]', '', s)] *)
Definition RE_ISBN_NOISE : regex :=
  Chr (fun c => is_space c || eqb_char c "-"%char).

Definition isbn_digits (s : str) : str := sub_empty RE_ISBN_NOISE s.

(** Stage 2: the same for the ISBN, blanks and hyphens removed. *)
Definition isbn_match (items : list item) (ci : citation_info) : option item :=
  match ci_isbn ci with
  | None => None
  | Some i =>
      let isbn := isbn_digits i in
      List.find (fun it =>
                   let item_isbn := isbn_digits (ISBN (data it)) in
                   negb (eqb_str item_isbn []) && eqb_str item_isbn isbn)
                items
  end.

Definition target_title (ci : citation_info) : str :=
  lower (match ci_title ci with Some t => t | None => [] end).

Definition target_year (ci : citation_info) : str :=
  match ci_year ci with Some y => y | None => [] end.

Definition target_family (ci : citation_info) : str :=
  match ci_authors ci with
  | Some (a :: _) => lower (family a)
  | _ => []
  end.

Definition nonempty (s : str) : bool := negb (eqb_str s []).

(** The creator loop: does some creator carry the family name? *)
Definition creator_matches (family : str) (c : creator) : bool :=
  let creator_last := lower (lastName c) in
  let creator_name := lower (name c) in
  (nonempty creator_last && eqb_str creator_last family)
  || (nonempty creator_name
      && (eqb_str creator_name family || str_in family creator_name)).

(** [set(title.split())] *)
Definition word_set (s : str) : gset str := list_to_set (split_ws s).

(** The title signal: [5 * ratio] when the ratio of shared words to the
    size of the larger word set exceeds 0.6, nothing otherwise.  The
    ratio and the product are floats. *)
Definition title_signal (target item_title : str) : option Q :=
  if nonempty target && nonempty item_title then
    let target_words := word_set target in
    let item_words := word_set item_title in
    if (0 <? size target_words) && (0 <? size item_words) then
      let overlap := size (target_words ∩ item_words) in
      let ratio :=
        Binary64.int_div overlap (Nat.max (size target_words) (size item_words)) in
      if Qle_bool ratio Binary64.SIX_TENTHS then None
      else Some (Binary64.mul 5 ratio)
    else None
  else None.

(** The body of the loop over the entries, up to the comparison: the
    score of one entry for the lowered title, the year and the lowered
    family name of the record.  The score is an integer until the title
    signal, a float, is added to it. *)
Definition score_of (target_title target_year target_family : str) (it : item)
    : Q :=
  let d := data it in
  let score := 0%Q in
  let score :=
    if nonempty target_year && str_in target_year (date d)
    then (score + 2)%Q else score in
  let score :=
    if nonempty target_family
       && existsb (creator_matches target_family) (creators d)
    then (score + 3)%Q else score in
  match title_signal target_title (lower (title d)) with
  | Some signal => Binary64.add score signal
  | None => score
  end.

Definition score (ci : citation_info) (it : item) : Q :=
  score_of (target_title ci) (target_year ci) (target_family ci) it.

(** [score > best_score and score >= 3] *)
Definition improves (s best_score : Q) : bool :=
  negb (Qle_bool s best_score) && Qle_bool 3 s.

(** Stage 3, the loop over the entries: [best_match] and [best_score]
    are the loop's variables. *)
Fixpoint fuzzy_loop (sc : item -> Q) (items : list item)
    (best_match : option item) (best_score : Q) : option item :=
  match items with
  | [] => best_match
  | it :: rest =>
      if improves (sc it) best_score
      then fuzzy_loop sc rest (Some it) (sc it)
      else fuzzy_loop sc rest best_match best_score
  end.

(** What the loop has established after the entries [seen]: nothing
    reached the threshold yet, or the current best is the first entry of
    [seen] with the largest score. *)
Definition best_so_far (sc : item -> Q) (seen : list item)
    (best_match : option item) (best_score : Q) : Prop :=
  match best_match with
  | None => best_score = 0%Q /\ forall x, In x seen -> (sc x < 3)%Q
  | Some it =>
      best_score = sc it /\
      exists pre post,
        seen = pre ++ it :: post /\ (3 <= sc it)%Q
        /\ (forall x, In x pre -> (sc x < sc it)%Q)
        /\ (forall x, In x post -> (sc x <= sc it)%Q)
  end.

Definition fuzzy_match (items : list item) (ci : citation_info) : option item :=
  fuzzy_loop (score ci) items None 0.

(** The matcher: the library index and the memoisation dictionary. *)
Record matcher : Type := {
  all_items : list item;
  cache : gmap str (option item)
}.

Definition remember (m : matcher) (k : str) (r : option item) : matcher :=
  {| all_items := all_items m; cache := <[k := r]> (cache m) |}.

(** [ZoteroMatcher.find_match(citation_info)] on a record with strings
    for names: the result and the matcher afterwards. *)
Definition find_match (m : matcher) (ci : citation_info)
    : option item * matcher :=
  let cache_key := cache_key ci in
  match cache m !! cache_key with
  | Some r => (r, m)
  | None =>
      let items := all_items m in
      match doi_match items ci with
      | Some it => (Some it, remember m cache_key (Some it))
      | None =>
          match isbn_match items ci with
          | Some it => (Some it, remember m cache_key (Some it))
          | None =>
              let best_match := fuzzy_match items ci in
              (best_match, remember m cache_key best_match)
          end
      end
  end.

(** *** [find_match] on the records of a payload

    [extract_citation_info_from_citavi] stores as the names of an author
    whatever values the payload holds for them, so a record of a payload
    need not carry strings there.  [citation_info] above is the record
    with strings for names: the records [find_match_by_display_text]
    builds, and the payload records whose names are strings.  What
    follows is [find_match] on any record of a payload. *)

(** [type(v).__name__] *)
Definition type_name (v : json) : str :=
  match v with
  | JNull => lit "NoneType"
  | JBool _ => lit "bool"
  | JInt _ => lit "int"
  | JFloat _ => lit "float"
  | JStr _ => lit "str"
  | JList _ => lit "list"
  | JDict _ => lit "dict"
  end.

(** [v.lower()]: only a string has the method; on any other value the
    call raises [AttributeError], a class outside the [ValueError]
    family. *)
Definition lower_method (v : json) : py_result str :=
  match v with
  | JStr s => Return (lower s)
  | _ => Raise OtherError
           (lit "'" ++ type_name v ++ lit "' object has no attribute 'lower'")
  end.

(** [target_authors[0].get("family", "").lower() if target_authors else ""] *)
Definition raw_target_family (ri : raw_info) : py_result str :=
  match ri_authors ri with
  | Some (a :: _) => lower_method (ra_family a)
  | _ => Return []
  end.

(** The order of strings: by code points, a proper prefix first. *)
Fixpoint str_ltb (a b : str) : bool :=
  match a, b with
  | _, [] => false
  | [], _ :: _ => true
  | x :: a', y :: b' =>
      (code x <? code y) || ((code x =? code y) && str_ltb a' b')
  end.

(** The items of a dictionary in the order of their keys: a member is put
    at the place of its key, where it replaces an earlier member with
    the same key. *)
Fixpoint insert_item {A} (k : str) (v : A) (l : list (str * A))
    : list (str * A) :=
  match l with
  | [] => [(k, v)]
  | (k', v') :: l' =>
      if eqb_str k k' then (k, v) :: l'
      else if str_ltb k k' then (k, v) :: l
      else (k', v') :: insert_item k v l'
  end.

Definition sorted_items {A} (members : list (str * A)) : list (str * A) :=
  fold_left (fun acc kv => insert_item (fst kv) (snd kv) acc) members [].

Section SortedDumps.

(** The text [json.dumps] gives for a float, the float being kept as the
    text of its literal. *)
Variable dumps_float : str -> str.

(** [json.dumps(v, sort_keys=True)] *)
Fixpoint dumps_sorted (v : json) : str :=
  match v with
  | JNull => lit "null"
  | JBool true => lit "true"
  | JBool false => lit "false"
  | JInt z => decimal_Z z
  | JFloat literal => dumps_float literal
  | JStr s => json_string s
  | JList l => lit "[" ++ comma_join (map dumps_sorted l) ++ lit "]"
  | JDict members =>
      lit "{"
      ++ comma_join
           (map (fun kv => json_string (fst kv) ++ lit ": " ++ snd kv)
                (sorted_items
                   (map (fun kv => (fst kv, dumps_sorted (snd kv))) members)))
      ++ lit "}"
  end.

Definition json_raw_author (a : raw_author) : str :=
  lit "{" ++ comma_join [json_member "family" (dumps_sorted (ra_family a));
                         json_member "given" (dumps_sorted (ra_given a))] ++ lit "}".

(** The memoisation key of a record of a payload. *)
Definition raw_cache_key (ri : raw_info) : str :=
  lit "{" ++
  comma_join
    ((match ri_authors ri with
      | Some l => [json_member "authors"
                     (lit "[" ++ comma_join (map json_raw_author l) ++ lit "]")]
      | None => []
      end)
     ++ opt_member "doi" (ri_doi ri)
     ++ opt_member "isbn" (ri_isbn ri)
     ++ opt_member "title" (ri_title ri)
     ++ opt_member "year" (ri_year ri))
  ++ lit "}".

(** Stages 1 and 2 for a record of a payload; its DOI and ISBN are
    strings. *)
Definition raw_doi_match (items : list item) (ri : raw_info) : option item :=
  match ri_doi ri with
  | None => None
  | Some d =>
      let doi := strip (lower d) in
      List.find (fun it =>
                   let item_doi := strip (lower (DOI (data it))) in
                   negb (eqb_str item_doi []) && eqb_str item_doi doi)
                items
  end.

Definition raw_isbn_match (items : list item) (ri : raw_info) : option item :=
  match ri_isbn ri with
  | None => None
  | Some i =>
      let isbn := isbn_digits i in
      List.find (fun it =>
                   let item_isbn := isbn_digits (ISBN (data it)) in
                   negb (eqb_str item_isbn []) && eqb_str item_isbn isbn)
                items
  end.

Definition raw_target_title (ri : raw_info) : str :=
  lower (match ri_title ri with Some t => t | None => [] end).

Definition raw_target_year (ri : raw_info) : str :=
  match ri_year ri with Some y => y | None => [] end.

(** [ZoteroMatcher.find_match(citation_info)] for a record of a payload:
    the family name of the first author is lowered after the memo, the
    DOI stage and the ISBN stage, and the call raises there when the name
    is no string. *)
Definition find_match_raw (m : matcher) (ri : raw_info)
    : py_result (option item * matcher) :=
  let cache_key := raw_cache_key ri in
  match cache m !! cache_key with
  | Some r => Return (r, m)
  | None =>
      let items := all_items m in
      match raw_doi_match items ri with
      | Some it => Return (Some it, remember m cache_key (Some it))
      | None =>
          match raw_isbn_match items ri with
          | Some it => Return (Some it, remember m cache_key (Some it))
          | None =>
              let target_title := raw_target_title ri in
              let target_year := raw_target_year ri in
              match raw_target_family ri with
              | Raise cls msg => Raise cls msg
              | Return target_family =>
                  let best_match :=
                    fuzzy_loop (score_of target_title target_year target_family)
                      items None 0 in
                  Return (best_match, remember m cache_key best_match)
              end
          end
      end
  end.

End SortedDumps.

(** A record with strings for names, as a record of a payload. *)
Definition raw_of (ci : citation_info) : raw_info :=
  {| ri_title := ci_title ci;
     ri_authors :=
       option_map (map (fun a => {| ra_family := JStr (family a);
                                    ra_given := JStr (given a) |}))
                  (ci_authors ci);
     ri_year := ci_year ci; ri_doi := ci_doi ci; ri_isbn := ci_isbn ci |}.

(** Is the family name of the first author, if there is one, a string? *)
Definition family_is_text (ri : raw_info) : bool :=
  match ri_authors ri with
  | Some (a :: _) => match ra_family a with JStr _ => true | _ => false end
  | _ => true
  end.

(** *** A sample library *)

Definition person (last first : string) : creator :=
  {| lastName := lit last; firstName := lit first; name := [];
     creatorType := lit "author" |}.
Arguments person (last first)%_string.

Definition organization (n : string) : creator :=
  {| lastName := []; firstName := []; name := lit n;
     creatorType := lit "author" |}.
Arguments organization n%_string.

Definition entry (k : string) (cs : list creator) (d t : string) : item :=
  {| key := lit k;
     data := {| DOI := []; ISBN := []; date := lit d; creators := cs;
                title := lit t |} |}.
Arguments entry k%_string cs (d t)%_string.

Definition sample_items : list item :=
  [ entry "JONES19" [person "Jones" "Ann"] "2019-03-01" "Field codes in practice";
    entry "SMITH19A" [person "Smith" "John"; person "Jones" "Ann"] "2019"
          "Citation managers compared";
    entry "WHO20" [organization "World Health Organization"] "2020"
          "World health statistics 2020";
    entry "SMITH19B" [person "Smith" "Jane"] "2019-11" "Reference data";
    entry "ADV14" [] "2014" "Advances in Molecular Biology and Chemistry" ].

Definition sample_matcher : matcher :=
  {| all_items := sample_items; cache := ∅ |}.

(** A record and two entries that score the same but for rounding: the
    first entry has the author and ten of the fifteen words of the
    record's title, the second the year and thirteen of the words. *)
Definition rounding_record : raw_info :=
  {| ri_title :=
       Some (lit "one two three four five six seven eight nine ten eleven twelve thirteen fourteen fifteen");
     ri_authors :=
       Some [{| ra_family := JStr (lit "Smith"); ra_given := JStr (lit "Ann") |}];
     ri_year := Some (lit "2019"); ri_doi := None; ri_isbn := None |}.

Definition rounding_first : item :=
  entry "FIRST" [person "Smith" "Ann"] "2001"
        "one two three four five six seven eight nine ten".

Definition rounding_second : item :=
  entry "SECOND" [person "Jones" "Bob"] "2019"
        "one two three four five six seven eight nine ten eleven twelve thirteen".

Definition rounding_matcher : matcher :=
  {| all_items := [rounding_first; rounding_second]; cache := ∅ |}.

(** The record [{"authors": [{"family": f, "given": ""}], "year": y}]. *)
Definition author_year (f y : str) : citation_info :=
  {| ci_title := None;
     ci_authors := Some [{| family := f; given := [] |}];
     ci_year := Some y; ci_doi := None; ci_isbn := None |}.

End Matcher.
Export Matcher.

(** ** Matching by display text ([find_match_by_display_text]) *)

Module DisplayText.

(** [(\d{4})] *)
Definition RE_YEAR : regex := seq_re [digit; digit; digit; digit].

(** [\s*et\s+al\.?\s*$], ignoring case *)
Definition RE_ET_AL : regex :=
  seq_re [Star space; text_re true "et"; Plus space; text_re true "al";
          Opt dot; Star space; Eol].

(** ["véase"]: the e with acute accent is the code point 233. *)
Definition VEASE : str := lit "v" ++ [chr 233] ++ lit "ase".

(** [^(?:vgl\.|cf\.|cfr\.|see(?:\s+also)?|voir(?:\s+aussi)?|s\.(?:a\.)?|
       véase|vedi|ver\b|veja|zie)\s*], ignoring case *)
Definition RE_PREFIX : regex :=
  seq_re
    [Bol;
     alt_re
       [text_re true "vgl.";
        text_re true "cf.";
        text_re true "cfr.";
        Seq (text_re true "see") (Opt (Seq (Plus space) (text_re true "also")));
        Seq (text_re true "voir") (Opt (Seq (Plus space) (text_re true "aussi")));
        Seq (text_re true "s.") (Opt (text_re true "a."));
        lit_re true VEASE;
        text_re true "vedi";
        Seq (text_re true "ver") WordB;
        text_re true "veja";
        text_re true "zie"];
     Star space].

(** [\s*&\s*|\s+and\s+|\s*,\s*], ignoring case *)
Definition RE_AUTHOR_SEP : regex :=
  alt_re
    [seq_re [Star space; text_re true "&"; Star space];
     seq_re [Plus space; text_re true "and"; Plus space];
     seq_re [Star space; text_re true ","; Star space]].

(** [\s+und\s+], [\s+et\s+], [\s+y\s+], [\s+e\s+], [\s+en\s+], ignoring
    case *)
Definition connector_re (word : string) : regex :=
  seq_re [Plus space; text_re true word; Plus space].
Arguments connector_re word%_string.

Definition CONNECTORS : list regex :=
  [connector_re "und"; connector_re "et"; connector_re "y";
   connector_re "e"; connector_re "en"].

(** [\s+[A-Z]\.?\s*$] *)
Definition RE_TRAILING_INITIAL : regex :=
  seq_re [Plus space; Chr is_upper_ascii; Opt dot; Star space; Eol].

(** The loop over the connectors: the first connector that splits the
    name with at most two words before it cuts the name there. *)
Fixpoint split_connectors (connectors : list regex) (primary_author : str) : str :=
  match connectors with
  | [] => primary_author
  | connector :: rest =>
      let '(first, several) := split_first connector primary_author in
      if several && (length (split_ws first) <=? 2) then strip first
      else split_connectors rest primary_author
  end.

(** What the loop body derives from one citation group before it queries
    the library. *)
Record group : Type := {
  g_year : str;
  g_author_portion : str;
  g_primary_author : str;
  g_candidates : list str
}.

(** The first half of the loop body: [None] where the body runs into a
    [continue]. *)
Definition parse_part (part : str) : option group :=
  let part := strip part in
  if eqb_str part [] then None else
  match search RE_YEAR part with
  | None => None
  | Some (year_start, year_end) =>
      let year := slice year_start year_end part in
      let author_portion :=
        strip (rstrip_chars (lit ",") (strip (slice_to year_start part))) in
      let author_portion := strip (sub_empty RE_ET_AL author_portion) in
      if eqb_str author_portion [] then None else
      let author_portion := strip (sub_empty RE_PREFIX author_portion) in
      let primary_author := strip (fst (split_first RE_AUTHOR_SEP author_portion)) in
      let primary_author := split_connectors CONNECTORS primary_author in
      if eqb_str primary_author [] then None else
      let primary_author := strip (sub_empty RE_TRAILING_INITIAL primary_author) in
      let words := split_ws primary_author in
      let candidates :=
        primary_author ::
        (if 1 <? length words
         then match last_item words with Some x => [x] | None => [] end
         else []) in
      Some {| g_year := year; g_author_portion := author_portion;
              g_primary_author := primary_author;
              g_candidates := candidates |}
  end.

(** The loop over the candidates: the first candidate that matches. *)
Fixpoint try_candidates (m : matcher) (year : str) (candidates : list str)
    : option item * matcher :=
  match candidates with
  | [] => (None, m)
  | candidate :: rest =>
      let '(result, m1) := find_match m (author_year candidate year) in
      match result with
      | Some it => (Some it, m1)
      | None => try_candidates m1 year rest
      end
  end.

(** The second half of the loop body: the queries for one group. *)
Definition match_group (m : matcher) (g : group) : option item * matcher :=
  let words := split_ws (g_primary_author g) in
  let '(result, m1) := try_candidates m (g_year g) (g_candidates g) in
  let '(result, m2) :=
    match result with
    | None =>
        if 2 <? length words then
          let full_author :=
            strip (sub_empty RE_TRAILING_INITIAL (g_author_portion g)) in
          if negb (eqb_str full_author (g_primary_author g))
          then find_match m1 (author_year full_author (g_year g))
          else (None, m1)
        else (None, m1)
    | Some it => (Some it, m1)
    end in
  match result with
  | None =>
      if 2 <? length words then
        find_match m2 {| ci_title := Some (g_author_portion g);
                         ci_authors := Some [];
                         ci_year := Some (g_year g);
                         ci_doi := None; ci_isbn := None |}
      else (None, m2)
  | Some it => (Some it, m2)
  end.

(** [text.split(";")], each part stripped. *)
Definition display_parts (display_text : str) : list str :=
  map strip (split_on ";"%char (strip_chars (lit "()[] ") display_text)).

(** The citation groups of a display text: the parts the loop body does
    not skip, with what it derives from each. *)
Definition display_groups (display_text : str) : list group :=
  omap parse_part (display_parts display_text).

Fixpoint match_parts (m : matcher) (parts : list str) : list item * matcher :=
  match parts with
  | [] => ([], m)
  | part :: rest =>
      match parse_part part with
      | None => match_parts m rest
      | Some g =>
          let '(result, m1) := match_group m g in
          let '(matches, m2) := match_parts m1 rest in
          (match result with Some it => it :: matches | None => matches end, m2)
      end
  end.

(** [ZoteroMatcher.find_match_by_display_text(display_text)] *)
Definition find_match_by_display_text (m : matcher) (display_text : str)
    : list item * matcher :=
  match display_text with
  | [] => ([], m)
  | _ => match_parts m (display_parts display_text)
  end.

(** The records the matcher has been asked about: the keys of its memo. *)
Definition asked (m : matcher) (ci : citation_info) : bool :=
  bool_decide (is_Some (cache m !! cache_key ci)).

End DisplayText.
Export DisplayText.

(** ** Credential redaction ([run_conversion], [ConversionWorker.run]) *)

Module Redaction.

(** [api_key[:4] + "****"] *)
Definition mask_of (api_key : str) : str := slice_to 4 api_key ++ lit "****".

(** The sanitising step shared by the two handlers:
    [if api_key and len(api_key) > 4:
         err_msg = err_msg.replace(api_key, api_key[:4] + "****")]. *)
Definition redact (api_key err_msg : str) : str :=
  match api_key with
  | [] => err_msg
  | _ => if 4 <? length api_key
         then replace api_key (mask_of api_key) err_msg
         else err_msg
  end.

(** The line [run_conversion] logs when the connection to the library
    fails with an exception whose text is [err]. *)
Definition connect_error_log (api_key err : str) : str :=
  lit "ERROR: Could not connect to Zotero: " ++ redact api_key err.

(** What [ConversionWorker.run] surfaces for an exception with text [err]
    and formatted traceback [tb]: two log lines and the error signal. *)
Record worker_failure := {
  wf_log_error : str;
  wf_log_traceback : str;
  wf_error_signal : str
}.

Definition worker_on_exception (api_key err tb : str) : worker_failure :=
  {| wf_log_error := chr 10 :: lit "ERROR: " ++ redact api_key err;
     wf_log_traceback := redact api_key tb;
     wf_error_signal := redact api_key err |}.

End Redaction.
Export Redaction.

(** ** Field-code generation and tree surgery *)

Module FieldGen.

Definition dq : str := [chr 34].

Definition FLD_CHAR_TYPE : str := w "fldCharType".

(** A run [<w:r><w:fldChar w:fldCharType=ty/></w:r>]; takes two fresh
    identities, for the run and for the marker. *)
Definition fld_char_run (n : nat) (ty : string) : element * nat :=
  (new_element n (w "r") [] None
     [new_element (n + 1) (w "fldChar") [(FLD_CHAR_TYPE, lit ty)] None []],
   n + 2).
Arguments fld_char_run n ty%_string.

(** A run holding one [w:instrText] with [xml:space="preserve"]. *)
Definition instr_run (n : nat) (chunk : str) : element * nat :=
  (new_element n (w "r") [] None
     [new_element (n + 1) (w "instrText") [(XML_SPACE, lit "preserve")]
        (Some chunk) []],
   n + 2).

(** [range(0, n, step)] *)
Definition range_step (n step : nat) : list nat :=
  map (fun k => k * step) (seq 0 ((n + step - 1) / step)).

(** [[s[i:i+size] for i in range(0, len(s), size)]] *)
Definition chunks (size : nat) (s : str) : list str :=
  map (fun i => slice i (i + size) s) (range_step (length s) size).

Definition chunk_size : nat := 250.

(** The loop over the chunks, threading the identity counter. *)
Fixpoint instr_runs (n : nat) (cs : list str) : list element * nat :=
  match cs with
  | [] => ([], n)
  | c :: cs' =>
      let '(r, n1) := instr_run n c in
      let '(rs, n2) := instr_runs n1 cs' in
      (r :: rs, n2)
  end.

(** [f" ADDIN ZOTERO_ITEM CSL_CITATION {citation_json_str} "] *)
Definition citation_instr_text (citation_json_str : str) : str :=
  lit " ADDIN ZOTERO_ITEM CSL_CITATION " ++ citation_json_str ++ lit " ".

(** [create_zotero_field_xml(citation_json_str, display_text)]; [n] is
    the first unused identity, the result carries the next one. *)
Definition create_zotero_field_xml (n : nat)
    (citation_json_str display_text : str) : list element * nat :=
  let '(r_begin, n1) := fld_char_run n "begin" in
  let instr_text := citation_instr_text citation_json_str in
  let '(r_instrs, n2) := instr_runs n1 (chunks chunk_size instr_text) in
  let '(r_sep, n3) := fld_char_run n2 "separate" in
  let r_display :=
    new_element n3 (w "r") [] None
      [new_element (n3 + 1) (w "rPr") [] None
         [new_element (n3 + 2) (w "noProof") [] None []];
       new_element (n3 + 3) (w "t") [(XML_SPACE, lit "preserve")]
         (Some display_text) []] in
  let '(r_end, n5) := fld_char_run (n3 + 4) "end" in
  ([r_begin] ++ r_instrs ++ [r_sep; r_display; r_end], n5).

(** [json.dumps({"uncited": [], "omitted": [], "custom": []},
    ensure_ascii=False)] *)
Definition bibl_json : str :=
  lit "{" ++ dq ++ lit "uncited" ++ dq ++ lit ": [], "
  ++ dq ++ lit "omitted" ++ dq ++ lit ": [], "
  ++ dq ++ lit "custom" ++ dq ++ lit ": []}".

Definition bibl_instr_text : str :=
  lit " ADDIN ZOTERO_BIBL " ++ bibl_json ++ lit " CSL_BIBLIOGRAPHY ".

(** [create_zotero_bibl_field_xml(style_uri)]: the style is not used. *)
Definition create_zotero_bibl_field_xml (n : nat) (style_uri : str)
    : list element * nat :=
  let '(r_begin, n1) := fld_char_run n "begin" in
  let '(r_instr, n2) := instr_run n1 bibl_instr_text in
  let '(r_sep, n3) := fld_char_run n2 "separate" in
  let r_display :=
    new_element n3 (w "r") [] None
      [new_element (n3 + 1) (w "t") [(XML_SPACE, lit "preserve")]
         (Some (lit "{Bibliography will be generated by Zotero}")) []] in
  let '(r_end, n5) := fld_char_run (n3 + 2) "end" in
  ([r_begin; r_instr; r_sep; r_display; r_end], n5).

(** [for i, run in enumerate(runs): parent.insert(idx + i, run)] *)
Fixpoint insert_runs (idx : nat) (runs : list element) (cs : list element)
    : list element :=
  match runs with
  | [] => cs
  | r :: runs' => insert_runs (idx + 1) runs' (insert_at idx r cs)
  end.

(** The children of the parent after [replace_sdt_with_zotero_field]:
    the placeholder is removed and, under a paragraph, the runs take its
    place; elsewhere a new paragraph holding the runs does. [pu] is the
    identity of that new paragraph. *)
Definition spliced_children (pu : nat) (parent_tag : str) (u : nat)
    (runs : list element) (cs : list element) : option (list element) :=
  match index_of u cs with
  | None => None
  | Some idx =>
      let cs1 := remove_uid u cs in
      if eqb_str (localname parent_tag) (lit "p")
      then Some (insert_runs idx runs cs1)
      else Some (insert_at idx (new_element pu (w "p") [] None runs) cs1)
  end.

(** [replace_sdt_with_zotero_field(sdt, runs)] on the tree [t] that holds
    the placeholder [u]: [None] when the placeholder has no parent in [t]
    (the function returns [False]), the changed tree otherwise. *)
Definition replace_sdt_in (pu : nat) (u : nat) (runs : list element)
    (t : element) : option element :=
  match getparent_in u t with
  | None => None
  | Some parent =>
      match spliced_children pu (e_tag parent) u runs (e_children parent) with
      | None => None
      | Some cs' => Some (update_children (e_uid parent) (fun _ => cs') t)
      end
  end.

(** Is there a Citavi bibliography tag on this structured-content node? *)
Definition sdt_tag_val (sdt : element) : option str :=
  match find (w "sdtPr") sdt with
  | None => None
  | Some sdt_pr =>
      match find (w "tag") sdt_pr with
      | None => None
      | Some tag_elem => Some (get tag_elem (w "val") [])
      end
  end.

Definition is_citavi_bibliography (e : element) : bool :=
  eqb_str (e_tag e) (w "sdt") &&
  match sdt_tag_val e with
  | None => false
  | Some tag_val =>
      str_in (lit "CitaviBibliography") tag_val
      || str_in (lit "CitaviFilteredBibliography") tag_val
  end.

(** [add_zotero_bibl_at_end(root, style_uri)]: the flag returned and the
    tree afterwards. *)
Definition has_zotero_bibl (root : element) : bool :=
  existsb (fun instr =>
             match text_nonempty instr with
             | Some t => str_in (lit "ZOTERO_BIBL") t
             | None => false
             end)
          (iter_tag (w "instrText") root).

Definition add_zotero_bibl_at_end (n : nat) (root : element) (style_uri : str)
    : bool * element * nat :=
  match find (w "body") root with
  | None => (false, root, n)
  | Some body =>
      if has_zotero_bibl root then (false, root, n)
      else
        let '(bibl_runs, n1) := create_zotero_bibl_field_xml (n + 1) style_uri in
        let p := new_element n (w "p") [] None bibl_runs in
        let cs := e_children body in
        let cs' :=
          match find (w "sectPr") body with
          | Some sect_pr =>
              match index_of (e_uid sect_pr) cs with
              | Some i => insert_at i p cs
              | None => cs ++ [p]
              end
          | None => cs ++ [p]
          end in
        (true, update_children (e_uid body) (fun _ => cs') root, n1)
  end.

End FieldGen.
Export FieldGen.

(** ** Integrity verifier *)

Module Verifier.

Definition decimal (n : nat) : str :=
  lit (NilEmpty.string_of_uint (Nat.to_uint n)).

Definition ISSUE_UNMATCHED_END : str :=
  lit "Unmatched field 'end' without 'begin'".

(** [f"{field_stack} unclosed field(s) detected (begin without end)"] for
    a positive counter. *)
Definition issue_unclosed (field_stack : Z) : str :=
  decimal (Z.to_nat field_stack)
  ++ lit " unclosed field(s) detected (begin without end)".

Definition ISSUE_NO_BODY : str := lit "Document body element not found".

Definition ISSUE_SDT_NO_CONTENT : str :=
  lit "SDT element without sdtContent found".

(** Check 1, the loop over the field-character markers: the counter and
    whether the loop was left with [break] after reporting an unmatched
    end. *)
Fixpoint walk_fld_chars (field_stack : Z) (l : list element) : Z * bool :=
  match l with
  | [] => (field_stack, false)
  | elem :: l' =>
      let fld_type := get elem FLD_CHAR_TYPE [] in
      let field_stack :=
        if eqb_str fld_type (lit "begin") then (field_stack + 1)%Z
        else if eqb_str fld_type (lit "end") then (field_stack - 1)%Z
        else field_stack in
      if (field_stack <? 0)%Z then (field_stack, true)
      else walk_fld_chars field_stack l'
  end.

(** [verify_document_integrity(root)] for an element argument: the list
    of issues, in the order they are appended. *)
Definition verify_document_integrity (root : element) : list str :=
  let '(field_stack, broke) := walk_fld_chars 0 (iter_tag (w "fldChar") root) in
  (if broke then [ISSUE_UNMATCHED_END] else [])
  ++ (if (0 <? field_stack)%Z then [issue_unclosed field_stack] else [])
  ++ (match find (w "body") root with
      | None => [ISSUE_NO_BODY]
      | Some _ => []
      end)
  ++ flat_map (fun sdt => match find (w "sdtContent") sdt with
                          | None => [ISSUE_SDT_NO_CONTENT]
                          | Some _ => []
                          end)
              (iter_tag (w "sdt") root).

(** The lines the function logs through [log_callback]. *)
Definition verify_log (issues : list str) : list str :=
  match issues with
  | [] => [lit "  Document integrity check: PASSED"]
  | _ => map (fun issue => lit "  Integrity issue: " ++ issue) issues
  end.

(** The kinds of issue, recognised by their text. *)
Definition is_unclosed_issue (issue : str) : bool :=
  str_in (lit " unclosed field(s) detected (begin without end)") issue.

Definition is_unmatched_end_issue (issue : str) : bool :=
  eqb_str issue ISSUE_UNMATCHED_END.

(** The [fldCharType] values of the field-character markers of a tree,
    in document order. *)
Definition fld_char_types (root : element) : list str :=
  map (fun e => get e FLD_CHAR_TYPE []) (iter_tag (w "fldChar") root).

(** The concatenated instruction text of a tree: the texts of its
    [w:instrText] elements in document order. *)
Definition instr_text_of (e : element) : str :=
  concat (map (fun i => match e_text i with Some t => t | None => [] end)
              (iter_tag (w "instrText") e)).

(** The number of markers of a given type. *)
Definition count_type (ty : string) (types : list str) : nat :=
  length (List.filter (fun t => eqb_str t (lit ty)) types).
Arguments count_type ty%_string types.

(** A sample part: a body with one paragraph that opens a field (a
    "begin" and a "separate" marker) and never closes it. *)
Definition sample_unclosed : element :=
  Element 0 (w "document") [] None
    [Element 1 (w "body") [] None
       [Element 2 (w "p") [] None
          [Element 3 (w "r") [] None
             [Element 4 (w "fldChar") [(FLD_CHAR_TYPE, lit "begin")] None []];
           Element 5 (w "r") [] None
             [Element 6 (w "instrText") [] (Some (lit " PAGE ")) []];
           Element 7 (w "r") [] None
             [Element 8 (w "fldChar") [(FLD_CHAR_TYPE, lit "separate")] None []];
           Element 9 (w "r") [] None
             [Element 10 (w "t") [] (Some (lit "3")) []]]]].

End Verifier.
Export Verifier.

(** ** The conversion of one part ([process_xml_file]) *)

Module Engine.

(** [stats]: the counters of a run. *)
Record stats : Type := {
  converted : nat;
  skipped : nat;
  unmatched : list str
}.

(** Is the element one that [find_citavi_sdts] collects? *)
Definition is_citavi_placeholder (e : element) : bool :=
  eqb_str (e_tag e) (w "sdt") &&
  match sdt_tag_val e with
  | Some tag_val => startswith (lit "CitaviPlaceholder#") tag_val
  | None => false
  end.

(** [find_citavi_sdts(tree)]: the placeholders in document order, each
    with its tag value. *)
Definition find_citavi_sdts (tree : element) : list (element * str) :=
  flat_map (fun sdt =>
              match sdt_tag_val sdt with
              | Some tag_val =>
                  if startswith (lit "CitaviPlaceholder#") tag_val
                  then [(sdt, tag_val)] else []
              | None => []
              end)
           (iter_tag (w "sdt") tree).

(** The loop of [extract_citavi_display_text] over the content region:
    the texts collected, [in_display] being the loop's flag. *)
Fixpoint display_walk (in_display : bool) (l : list element) : list str :=
  match l with
  | [] => []
  | elem :: l' =>
      let tag := localname (e_tag elem) in
      let in_display :=
        if eqb_str tag (lit "fldChar") then
          let fld_type := get elem FLD_CHAR_TYPE [] in
          if eqb_str fld_type (lit "separate") then true
          else if eqb_str fld_type (lit "end") then false
          else in_display
        else in_display in
      (if in_display && eqb_str tag (lit "t")
       then match text_nonempty elem with Some t => [t] | None => [] end
       else [])
      ++ display_walk in_display l'
  end.

(** [extract_citavi_display_text(sdt)] *)
Definition extract_citavi_display_text (sdt : element) : str :=
  match find (w "sdtContent") sdt with
  | None => []
  | Some sdt_content => strip (concat (display_walk false (iter sdt_content)))
  end.

(** The descriptor logged and recorded for a record without a match:
    the family name of the first author and the year, ["?"] for either
    when missing. *)
Definition unmatched_descriptor (ci : citation_info) : str :=
  (match ci_authors ci with
   | Some (a :: _) => family a
   | _ => lit "?"
   end)
  ++ lit ", "
  ++ (match ci_year ci with Some y => y | None => lit "?" end).

(** The loop over the records of a payload: the entries matched, the
    descriptors of the records without a match, and the matcher. *)
Fixpoint match_records (m : matcher) (cis : list citation_info)
    : list item * list str * matcher :=
  match cis with
  | [] => ([], [], m)
  | ci :: rest =>
      let '(result, m1) := find_match m ci in
      let '(items, missing, m2) := match_records m1 rest in
      match result with
      | Some it => (it :: items, missing, m2)
      | None => (items, unmatched_descriptor ci :: missing, m2)
      end
  end.

(** The state of the conversion of a part: the tree, the subtrees that
    have been taken out of it (they stay alive through the references the
    loop holds), the next unused identity, the matcher, the counters, the
    flag [modified] and the number of citations built so far. *)
Record pstate : Type := {
  st_root : element;
  st_detached : list element;
  st_next : nat;
  st_matcher : matcher;
  st_stats : stats;
  st_modified : bool;
  st_built : nat
}.

(** The element a reference points to: the node with that identity in the
    tree or in a detached subtree; [snapshot] is the element as it was
    when the reference was taken. *)
Definition deref (st : pstate) (snapshot : element) : element :=
  match lookup_uid (e_uid snapshot) (st_root st) with
  | Some e => e
  | None =>
      match omap (lookup_uid (e_uid snapshot)) (st_detached st) with
      | e :: _ => e
      | [] => snapshot
      end
  end.

(** [replace_sdt_with_zotero_field] against the state: the placeholder is
    replaced in the tree that holds it, the main one or a detached one. *)
Fixpoint replace_in_detached (pu u : nat) (runs : list element)
    (ds : list element) : option (list element) :=
  match ds with
  | [] => None
  | d :: ds' =>
      match replace_sdt_in pu u runs d with
      | Some d' => Some (d' :: ds')
      | None =>
          match replace_in_detached pu u runs ds' with
          | Some ds'' => Some (d :: ds'')
          | None => None
          end
      end
  end.

Section Conversion.

(** The library calls of the decoder, the normaliser
    [extract_citation_info_from_citavi], and the text
    [json.dumps(build_zotero_citation_json(items, user_id))] of the
    citation built for the entries; that text holds a fresh random
    identifier, so it may depend on how many citations were built before. *)
Variable b64decode : str -> py_result bytes.
Variable decode_utf8_replace : bytes -> str.
Variable json_loads : str -> py_result json.
Variable extract_citation_info_from_citavi : json -> list citation_info.
Variable citation_json_str : nat -> list item -> str.

(** The first half of the loop body: the entries a placeholder resolves
    to, by payload or by display text. *)
Definition resolve_sdt (m : matcher) (sdt : element)
    : py_result (list item * list str * matcher) :=
  let display_text := extract_citavi_display_text sdt in
  match decode_citavi_payload b64decode decode_utf8_replace json_loads sdt with
  | Raise cls msg => Raise cls msg
  | Return payload =>
      let citation_infos :=
        if truthy payload then extract_citation_info_from_citavi payload
        else [] in
      let '(zotero_items, missing, m1) := match_records m citation_infos in
      match zotero_items, display_text with
      | [], _ :: _ =>
          let '(found, m2) := find_match_by_display_text m1 display_text in
          Return (found, missing, m2)
      | _, _ => Return (zotero_items, missing, m1)
      end
  end.

(** The loop body for one placeholder. *)
Definition process_sdt (st : pstate) (snapshot : element) : py_result pstate :=
  let sdt := deref st snapshot in
  match resolve_sdt (st_matcher st) sdt with
  | Raise cls msg => Raise cls msg
  | Return (zotero_items, missing, m) =>
      let s := st_stats st in
      let s1 := {| converted := converted s; skipped := skipped s;
                   unmatched := unmatched s ++ missing |} in
      match zotero_items with
      | [] =>
          Return {| st_root := st_root st; st_detached := st_detached st;
                    st_next := st_next st; st_matcher := m;
                    st_stats := {| converted := converted s1;
                                   skipped := skipped s1 + 1;
                                   unmatched := unmatched s1 |};
                    st_modified := st_modified st; st_built := st_built st |}
      | _ =>
          let display_text := extract_citavi_display_text sdt in
          let final_display :=
            match display_text with
            | [] => lit "(Citation)"
            | _ => display_text
            end in
          let '(runs, n1) :=
            create_zotero_field_xml (st_next st)
              (citation_json_str (st_built st) zotero_items) final_display in
          let u := e_uid snapshot in
          match replace_sdt_in n1 u runs (st_root st) with
          | Some root' =>
              Return {| st_root := root';
                        st_detached := st_detached st ++ [sdt];
                        st_next := n1 + 1; st_matcher := m;
                        st_stats := {| converted := converted s1 + 1;
                                       skipped := skipped s1;
                                       unmatched := unmatched s1 |};
                        st_modified := true; st_built := st_built st + 1 |}
          | None =>
              match replace_in_detached n1 u runs (st_detached st) with
              | Some ds' =>
                  Return {| st_root := st_root st;
                            st_detached := ds' ++ [sdt];
                            st_next := n1 + 1; st_matcher := m;
                            st_stats := {| converted := converted s1 + 1;
                                           skipped := skipped s1;
                                           unmatched := unmatched s1 |};
                            st_modified := true; st_built := st_built st + 1 |}
              | None =>
                  Return {| st_root := st_root st;
                            st_detached := st_detached st;
                            st_next := n1; st_matcher := m;
                            st_stats := s1;
                            st_modified := st_modified st;
                            st_built := st_built st + 1 |}
              end
          end
      end
  end.

(** The loop over the placeholders. *)
Fixpoint process_sdts (st : pstate) (sdts : list element) : py_result pstate :=
  match sdts with
  | [] => Return st
  | sdt :: rest =>
      match process_sdt st sdt with
      | Raise cls msg => Raise cls msg
      | Return st1 => process_sdts st1 rest
      end
  end.

(** [remove_citavi_bibliography(root)]: the loop over the nodes listed
    beforehand; a node is taken out of the tree that holds it, unless it
    has no parent. *)
Definition remove_from (u : nat) (t : element) : option element :=
  match getparent_in u t with
  | Some parent => Some (update_children (e_uid parent) (remove_uid u) t)
  | None => None
  end.

Fixpoint remove_from_detached (u : nat) (ds : list element)
    : option (list element) :=
  match ds with
  | [] => None
  | d :: ds' =>
      match remove_from u d with
      | Some d' => Some (d' :: ds')
      | None =>
          match remove_from_detached u ds' with
          | Some ds'' => Some (d :: ds'')
          | None => None
          end
      end
  end.

Fixpoint remove_bibliography_loop (root : element) (ds : list element)
    (removed : nat) (sdts : list element) : element * list element * nat :=
  match sdts with
  | [] => (root, ds, removed)
  | sdt :: rest =>
      if is_citavi_bibliography sdt then
        match remove_from (e_uid sdt) root with
        | Some root' =>
            remove_bibliography_loop root' (ds ++ [sdt]) (removed + 1) rest
        | None =>
            match remove_from_detached (e_uid sdt) ds with
            | Some ds' =>
                remove_bibliography_loop root (ds' ++ [sdt]) (removed + 1) rest
            | None => remove_bibliography_loop root ds removed rest
            end
        end
      else remove_bibliography_loop root ds removed rest
  end.

Definition remove_citavi_bibliography (root : element) (ds : list element)
    : element * list element * nat :=
  remove_bibliography_loop root ds 0 (iter_tag (w "sdt") root).

(** The bibliography handling of the main part. *)
Definition handle_bibliography (st : pstate) (style_uri : str) : pstate :=
  let '(root1, ds1, bib_removed) :=
    remove_citavi_bibliography (st_root st) (st_detached st) in
  let modified := st_modified st || (0 <? bib_removed) in
  if (0 <? converted (st_stats st)) || modified then
    let '(added, root2, n1) := add_zotero_bibl_at_end (st_next st) root1 style_uri in
    {| st_root := root2; st_detached := ds1; st_next := n1;
       st_matcher := st_matcher st; st_stats := st_stats st;
       st_modified := modified || added; st_built := st_built st |}
  else
    {| st_root := root1; st_detached := ds1; st_next := st_next st;
       st_matcher := st_matcher st; st_stats := st_stats st;
       st_modified := modified; st_built := st_built st |}.

(** [process_xml_file]: [root] is the parsed part, [is_document] says
    whether its file is [document.xml], [st] carries the matcher, the
    counters and the identities of the run.  The result is the value
    returned ([modified]) and the state; the tree of the state is what is
    written back when [modified] holds. *)
Definition process_xml_file (is_document : bool) (root : element)
    (next : nat) (m : matcher) (s : stats) (built : nat) (style_uri : str)
    : py_result (bool * pstate) :=
  let st0 := {| st_root := root; st_detached := []; st_next := next;
                st_matcher := m; st_stats := s; st_modified := false;
                st_built := built |} in
  match find_citavi_sdts root with
  | [] => Return (false, st0)
  | citavi_sdts =>
      match process_sdts st0 (map fst citavi_sdts) with
      | Raise cls msg => Raise cls msg
      | Return st1 =>
          let st2 := if is_document then handle_bibliography st1 style_uri
                     else st1 in
          Return (st_modified st2, st2)
      end
  end.

(** The placeholders resolved along the loop, seen from the matcher
    alone: for each placeholder whether it resolves. *)
Fixpoint resolutions (m : matcher) (sdts : list element) : list bool :=
  match sdts with
  | [] => []
  | sdt :: rest =>
      match resolve_sdt m sdt with
      | Raise _ _ => []
      | Return (zotero_items, _, m1) =>
          (match zotero_items with [] => false | _ => true end)
          :: resolutions m1 rest
      end
  end.

End Conversion.

(** *** Counting target-format citation fields *)

Definition ZOTERO_ITEM_PREFIX : str := lit " ADDIN ZOTERO_ITEM CSL_CITATION ".

(** A run that opens a field, and a run whose instruction text opens a
    target-format citation. *)
Definition is_begin_run (e : element) : bool :=
  eqb_str (e_tag e) (w "r") &&
  existsb (fun c => eqb_str (e_tag c) (w "fldChar")
                    && eqb_str (get c FLD_CHAR_TYPE []) (lit "begin"))
          (e_children e).

Definition is_zotero_instr_run (e : element) : bool :=
  eqb_str (e_tag e) (w "r") &&
  existsb (fun c => eqb_str (e_tag c) (w "instrText")
                    && match e_text c with
                       | Some t => startswith ZOTERO_ITEM_PREFIX t
                       | None => false
                       end)
          (e_children e).

(** The fields that start among the given siblings: a run that opens a
    field, followed at once by a run with a citation instruction. *)
Fixpoint count_pairs (l : list element) : nat :=
  match l with
  | [] => 0
  | a :: l' =>
      (match l' with
       | b :: _ => if is_begin_run a && is_zotero_instr_run b then 1 else 0
       | [] => 0
       end) + count_pairs l'
  end.

(** The target-format citation fields of a tree. *)
Fixpoint count_zotero_fields (e : element) : nat :=
  let 'Element _ _ _ _ cs := e in
  count_pairs cs + list_sum (map count_zotero_fields cs).

(** The placeholders of a tree, as elements. *)
Definition placeholders (root : element) : list element :=
  List.filter is_citavi_placeholder (iter root).

(** The identities of a tree, in document order. *)
Definition uids (e : element) : list nat := map e_uid (iter e).

(** The proper descendants of an element. *)
Definition descendants (e : element) : list element :=
  flat_map iter (e_children e).

(** The tree with every child of identity [u] replaced by the elements
    [rep] gives for the tag of its parent. *)
Fixpoint splice (u : nat) (rep : str -> list element) (e : element) : element :=
  let 'Element eu t a x cs := e in
  Element eu t a x
    (flat_map (fun c => if e_uid c =? u then rep t else [splice u rep c]) cs).

(** What takes the place of a placeholder: the runs under a paragraph, a
    new paragraph holding them elsewhere. *)
Definition replacement (pu : nat) (runs : list element) (parent_tag : str)
    : list element :=
  if eqb_str (localname parent_tag) (lit "p") then runs
  else [new_element pu (w "p") [] None runs].

End Engine.
Export Engine.

(** ** Archive access ([run_conversion]: extraction and repacking) *)

Module Archive.

Definition SEP : ascii := "/"%char.

(** [os.path.join(a, b)] (POSIX). *)
Definition path_join (a b : str) : str :=
  if startswith [SEP] b then b
  else match a with
       | [] => b
       | _ => if eqb_str (drop (length a - 1) a) [SEP] then a ++ b
              else a ++ SEP :: b
       end.

(** ["/".join(comps)] *)
Fixpoint join_comps (comps : list str) : str :=
  match comps with
  | [] => []
  | [c] => c
  | c :: cs => c ++ SEP :: join_comps cs
  end.

(** One step of the component loop of [realpath] on an absolute path:
    empty and ["."] components are skipped, [".."] drops the last
    component kept so far (and stays at the root when there is none). *)
Definition resolve_step (stack : list str) (name : str) : list str :=
  if eqb_str name [] || eqb_str name (lit ".") then stack
  else if eqb_str name (lit "..") then removelast stack
  else stack ++ [name].

(** [os.path.realpath(path)] for an absolute [path] on a file system with
    no symbolic link along it: the components are resolved from the root,
    and the result is ["/"] followed by the components left. *)
Definition realpath (path : str) : str :=
  SEP :: join_comps (fold_left resolve_step (split_on SEP path) []).

(** The components of the resolved path. *)
Definition resolved_comps (path : str) : list str :=
  fold_left resolve_step (split_on SEP path) [].

(** The message of the exception raised for an unsafe member. *)
Definition unsafe_path_msg (member : str) : str :=
  lit "Unsafe path in .docx archive: " ++ member
  ++ lit ". The file may be malicious.".

(** The validation loop over [z.namelist()]. *)
Fixpoint validate_members (extract_dir : str) (members : list str)
    : py_result unit :=
  match members with
  | [] => Return tt
  | member :: rest =>
      let member_path := realpath (path_join extract_dir member) in
      if negb (startswith (realpath extract_dir) member_path)
      then Raise ValueError (unsafe_path_msg member)
      else validate_members extract_dir rest
  end.

(** The extraction step: the loop, then [z.extractall(extract_dir)].  The
    result lists the members handed to [extractall]; nothing is extracted
    when the loop raises. *)
Definition extract_step (extract_dir : str) (members : list str)
    : py_result (list str) :=
  match validate_members extract_dir members with
  | Raise cls msg => Raise cls msg
  | Return _ => Return members
  end.

(** [extract_dir = os.path.join(tmpdir, "docx_contents")] *)
Definition extract_dir_of (tmpdir : str) : str :=
  path_join tmpdir (lit "docx_contents").

(** Containment by components: the resolved location is the root or lies
    below it. *)
Fixpoint comps_prefix (r p : list str) : bool :=
  match r, p with
  | [], _ => true
  | x :: r', y :: p' => eqb_str x y && comps_prefix r' p'
  | _ :: _, [] => false
  end.

Definition resolves_inside (extract_dir member : str) : bool :=
  comps_prefix (resolved_comps extract_dir)
               (resolved_comps (path_join extract_dir member)).

(** *** Repacking *)

(** The extracted directory tree: the plain files of a directory and its
    subdirectories, each in the order [os.walk] lists them. *)
Inductive dir : Type :=
  Dir (files : list str) (subdirs : list (str * dir)).

Definition d_files (d : dir) : list str := let 'Dir f _ := d in f.
Definition d_subdirs (d : dir) : list (str * dir) := let 'Dir _ s := d in s.

(** [os.walk(extract_dir)], top-down: for every directory its path
    relative to [extract_dir], as components, and its files. *)
Fixpoint walk (rel : list str) (d : dir) : list (list str * list str) :=
  let 'Dir files subdirs := d in
  (rel, files) :: flat_map (fun '(name, sub) => walk (rel ++ [name]) sub) subdirs.

Inductive compression : Type := ZIP_STORED | ZIP_DEFLATED.

Definition CONTENT_TYPES : str := lit "[Content_Types].xml".

(** [os.path.exists(content_types_path)]: a file or a directory of that
    name directly under [extract_dir]. *)
Definition content_types_is_file (d : dir) : bool :=
  existsb (eqb_str CONTENT_TYPES) (d_files d).

Definition content_types_is_dir (d : dir) : bool :=
  existsb (fun '(name, _) => eqb_str CONTENT_TYPES name) (d_subdirs d).

(** The members written for the files of one directory of the walk:
    [arcname = os.path.relpath(file_path, extract_dir)], compressed with
    the archive's default method. *)
Definition walk_entries (top : bool) (rel : list str) (files : list str)
    : list (str * compression) :=
  flat_map (fun file =>
              if eqb_str file CONTENT_TYPES && top then []
              else [(join_comps (rel ++ [file]), ZIP_DEFLATED)])
           files.

(** The repacking step: the members of the output archive in the order
    they are written, each with its compression method. *)
Definition repack (d : dir) : list (str * compression) :=
  (if content_types_is_file d then [(CONTENT_TYPES, ZIP_STORED)]
   else if content_types_is_dir d then [(CONTENT_TYPES ++ [SEP], ZIP_STORED)]
   else [])
  ++ flat_map (fun '(rel, files) =>
                 walk_entries (match rel with [] => true | _ => false end) rel files)
              (walk [] d).

End Archive.
Export Archive.

(** ** Sample parts *)

Module Samples.

(** A placeholder without instruction text, showing [display]; it takes
    the identities [base] to [base + 10]. *)
Definition placeholder (base : nat) (tag_val display : string)
    (inner : list element) : element :=
  Element base (w "sdt") [] None
    [Element (base + 1) (w "sdtPr") [] None
       [Element (base + 2) (w "tag") [(w "val", lit tag_val)] None []];
     Element (base + 3) (w "sdtContent") [] None
       ([Element (base + 4) (w "r") [] None
           [Element (base + 5) (w "fldChar") [(FLD_CHAR_TYPE, lit "begin")] None []];
         Element (base + 6) (w "r") [] None
           [Element (base + 7) (w "fldChar") [(FLD_CHAR_TYPE, lit "separate")] None []];
         Element (base + 8) (w "r") [] None
           [Element (base + 9) (w "t") [] (Some (lit display)) []]]
        ++ inner ++
        [Element (base + 10) (w "r") [] None
           [Element (base + 11) (w "fldChar") [(FLD_CHAR_TYPE, lit "end")] None []]])].
Arguments placeholder base (tag_val display)%_string inner.

Definition paragraph (u : nat) (cs : list element) : element :=
  Element u (w "p") [] None cs.

Definition document (body : list element) : element :=
  Element 0 (w "document") [] None [Element 1 (w "body") [] None body].

(** Two placeholders, the first resolving against the sample library by
    its display text, the second not. *)
Definition doc_two : element :=
  document
    [paragraph 2
       [Element 3 (w "r") [] None [Element 4 (w "t") [] (Some (lit "As shown ")) []];
        placeholder 10 "CitaviPlaceholder#a1" "(Smith 2019)" []];
     paragraph 5 [placeholder 30 "CitaviPlaceholder#b2" "(Nobody 1900)" []];
     Element 6 (w "sectPr") [] None []].

(** A part whose root is itself a placeholder. *)
Definition doc_root_placeholder : element :=
  placeholder 10 "CitaviPlaceholder#a1" "(Smith 2019)" [].

(** A placeholder inside the content region of another one. *)
Definition doc_nested : element :=
  document
    [paragraph 2
       [placeholder 10 "CitaviPlaceholder#a1" "(Smith 2019; "
          [placeholder 30 "CitaviPlaceholder#b2"
             "World Health Organization 2020)" []]]].

(** A placeholder that does not resolve, inside a Citavi bibliography. *)
Definition doc_bibliography : element :=
  document
    [paragraph 2 [placeholder 10 "CitaviPlaceholder#a1" "(Smith 2019)" []];
     Element 50 (w "sdt") [] None
       [Element 51 (w "sdtPr") [] None
          [Element 52 (w "tag") [(w "val", lit "CitaviBibliography")] None []];
        Element 53 (w "sdtContent") [] None
          [paragraph 54 [placeholder 30 "CitaviPlaceholder#b2" "(Nobody 1900)" []]]]].

(** A stand-in for the text of the citation built for the entries. *)
Definition sample_citation_json (n : nat) (items : list item) : str :=
  lit "{citationID: " ++ decimal n ++ lit ", citationItems: ["
  ++ comma_join (map key items) ++ lit "]}".

Definition zero_stats : stats := {| converted := 0; skipped := 0; unmatched := [] |}.

(** The conversion of a part on the reference runtime, with the sample
    library and a normaliser that finds no record. *)
Definition convert (is_document : bool) (root : element)
    : py_result (bool * pstate) :=
  process_xml_file RefRuntime.b64decode RefRuntime.decode_utf8_replace
    RefRuntime.json_loads (fun _ => []) sample_citation_json
    is_document root 100 sample_matcher zero_stats 0
    (lit "http://www.zotero.org/styles/apa").

(** What is observed of a conversion: the counters, the number of
    placeholders left and the number of target-format fields. *)
Definition outcome (r : py_result (bool * pstate)) : option (nat * nat * nat * nat) :=
  match r with
  | Return (_, st) =>
      Some (converted (st_stats st), skipped (st_stats st),
            length (placeholders (st_root st)),
            count_zotero_fields (st_root st))
  | Raise _ _ => None
  end.

End Samples.

(** ** Further definitions for the properties of the matcher *)

Module MatcherProps.

(** The memo only holds entries of the library. *)
Definition cache_sound (m : matcher) : Prop :=
  forall k it, cache m !! k = Some (Some it) -> In it (all_items m).

(** A step of the matching: the library is the same afterwards, the memo
    is sound, and a result is an entry of the library. *)
Definition sound_step (m : matcher) (r : option item * matcher) : Prop :=
  all_items (snd r) = all_items m /\ cache_sound (snd r)
  /\ forall it, fst r = Some it -> In it (all_items m).

(** [item["data"].get("DOI", "").lower().strip()] *)
Definition norm_doi (s : str) : str := strip (lower s).

(** A library with identifiers: two entries share a DOI that differs
    only in case and blanks, and one carries a hyphenated ISBN. *)
Definition entry_ids (k doi isbn d t : string) : item :=
  {| key := lit k;
     data := {| DOI := lit doi; ISBN := lit isbn; date := lit d;
                creators := []; title := lit t |} |}.
Arguments entry_ids (k doi isbn d t)%_string.

Definition id_items : list item :=
  [ entry_ids "NOID" "" "" "2001" "An entry without identifiers";
    entry_ids "BOOK1" "" "978-3-16-148410-0" "1999" "A handbook";
    entry_ids "ART1" " 10.1000/XYZ123 " "" "2011" "First article";
    entry_ids "ART2" "10.1000/xyz123" "" "2012" "Second article" ].

Definition id_matcher : matcher := {| all_items := id_items; cache := ∅ |}.

(** A record that carries only a DOI, and one that carries only an
    ISBN. *)
Definition doi_record (d : string) : citation_info :=
  {| ci_title := Some (lit "Something else entirely"); ci_authors := None;
     ci_year := Some (lit "1850"); ci_doi := Some (lit d); ci_isbn := None |}.
Arguments doi_record d%_string.

Definition isbn_record (i : string) : citation_info :=
  {| ci_title := None; ci_authors := None; ci_year := None;
     ci_doi := None; ci_isbn := Some (lit i) |}.
Arguments isbn_record i%_string.

End MatcherProps.
Export MatcherProps.

(** ** Further definitions for the properties of the archive access *)

Module ArchiveDefs.

(** Components: non-empty and free of the separator. *)
Definition proper_comp (c : str) : Prop := c <> [] /\ ~ In SEP c.

End ArchiveDefs.
Export ArchiveDefs.

(** ** The library index and the verification counters *)

Module LibraryIndex.

Section Fetch.

(** [self.zot.top(start=start, limit=limit)]: one page of the top-level
    entries of the remote library. *)
Variable top : nat -> nat -> list item.

Definition PAGE_LIMIT : nat := 100.

(** The loop of [_get_all_items]: [acc] is [self._all_items], [start] the
    offset of the next page; [None] when [fuel] requests were not enough
    to leave the loop. *)
Fixpoint fetch_pages (fuel : nat) (start : nat) (acc : list item)
    : option (list item) :=
  match fuel with
  | O => None
  | S fuel' =>
      let items := top start PAGE_LIMIT in
      match items with
      | [] => Some acc
      | _ =>
          let acc := acc ++ items in
          if length items <? PAGE_LIMIT then Some acc
          else fetch_pages fuel' (start + PAGE_LIMIT) acc
      end
  end.

(** [_get_all_items()]: the index is fetched once and kept. *)
Definition get_all_items (fuel : nat) (all : option (list item))
    : option (list item * option (list item)) :=
  match all with
  | Some items => Some (items, Some items)
  | None =>
      match fetch_pages fuel 0 [] with
      | Some items => Some (items, Some items)
      | None => None
      end
  end.

End Fetch.

(** A remote library that serves the slices of a fixed list of entries. *)
Definition pages_of (library : list item) (start limit : nat) : list item :=
  take limit (drop start library).

(** The counter of [verify_conversion] for target-format fields in one
    part: the [w:instrText] elements whose text contains ["ZOTERO_ITEM"]. *)
Definition count_zotero_instr (root : element) : nat :=
  length (List.filter
            (fun instr => match text_nonempty instr with
                          | Some t => str_in (lit "ZOTERO_ITEM") t
                          | None => false
                          end)
            (iter_tag (w "instrText") root)).

End LibraryIndex.
Export LibraryIndex.

(** ** Definitions for the properties of the conversion of a part *)

Module ProcessDefs.

(** [below s t]: the element [s] lies strictly below [t], at the end of a
    path through the children. *)
Inductive below (s : element) : element -> Prop :=
| below_child u t a x l1 l2 :
    below s (Element u t a x (l1 ++ s :: l2))
| below_deeper u t a x l1 c l2 :
    below s c -> below s (Element u t a x (l1 ++ c :: l2)).

(** The number of placeholders that resolve, and the placeholders that do
    not, given the outcome for each. *)
Definition count_resolved (rs : list bool) : nat :=
  length (List.filter (fun b : bool => b) rs).

Definition left_over (rs : list bool) (sdts : list element) : list element :=
  map snd (List.filter (fun p => negb (fst p)) (combine rs sdts)).

(** A part as the parser delivers it and as Citavi writes it: the
    identities of its elements differ and are below the next one to be
    given out; the root is no placeholder; no placeholder holds another
    one, nor a citation field of the target format. *)
Definition plain_part (next : nat) (root : element) : Prop :=
  List.NoDup (uids root)
  /\ (forall u, In u (uids root) -> u < next)
  /\ is_citavi_placeholder root = false
  /\ (forall p, In p (placeholders root) ->
        placeholders p = [p] /\ count_zotero_fields p = 0).

(** The Citavi bibliographies of a part: what
    [remove_citavi_bibliography] looks for. *)
Definition bibliographies (root : element) : list element :=
  List.filter is_citavi_bibliography (iter root).

(** The walk of the verifier over the field-character markers, seen on
    their types alone. *)
Fixpoint walk_types (field_stack : Z) (types : list str) : Z * bool :=
  match types with
  | [] => (field_stack, false)
  | fld_type :: types' =>
      let field_stack :=
        if eqb_str fld_type (lit "begin") then (field_stack + 1)%Z
        else if eqb_str fld_type (lit "end") then (field_stack - 1)%Z
        else field_stack in
      if (field_stack <? 0)%Z then (field_stack, true)
      else walk_types field_stack types'
  end.

(** An element whose field-character markers are paired: the walk of the
    verifier over them ends where it began, without an unmatched end. *)
Definition balanced (e : element) : Prop :=
  walk_fld_chars 0 (iter_tag (w "fldChar") e) = (0%Z, false).

End ProcessDefs.
Export ProcessDefs.

(** ** The workers ([ConversionWorker.run], [BatchConversionWorker.run]) *)

Module Worker.

(** The candidates for the output path:
    [os.path.join(input_dir, f"{input_name}_zotero.docx")] and
    [os.path.join(input_dir, f"{input_name}_zotero_{counter}.docx")]. *)
Definition first_candidate (input_dir input_name : str) : str :=
  path_join input_dir (input_name ++ lit "_zotero.docx").

Definition numbered_candidate (input_dir input_name : str) (counter : nat) : str :=
  path_join input_dir
    (input_name ++ lit "_zotero_" ++ decimal counter ++ lit ".docx").

(** The [k]-th path the loop looks at. *)
Definition candidate (input_dir input_name : str) (k : nat) : str :=
  match k with
  | O => first_candidate input_dir input_name
  | _ => numbered_candidate input_dir input_name k
  end.

Section OutputPath.

(** [os.path.exists], and the text of the [RuntimeError] of the worker. *)
Variable path_exists : str -> bool.
Variable too_many : str.

(** The loop [while os.path.exists(output_path): ...]; [None] when [fuel]
    passes were not enough to leave it. *)
Fixpoint naming_loop (fuel : nat) (input_dir input_name output_path : str)
    (counter : nat) : option (py_result str) :=
  if path_exists output_path then
    match fuel with
    | O => None
    | S fuel' =>
        let output_path := numbered_candidate input_dir input_name counter in
        let counter := counter + 1 in
        if 1000 <? counter then Some (Raise OtherError too_many)
        else naming_loop fuel' input_dir input_name output_path counter
    end
  else Some (Return output_path).

Definition choose_output_path (input_dir input_name : str)
    : option (py_result str) :=
  naming_loop 1000 input_dir input_name
    (first_candidate input_dir input_name) 1.

End OutputPath.

(** [all_stats] of the batch worker. *)
Record batch_stats : Type := {
  total_files : nat;
  successful : nat;
  failed : nat;
  total_converted : nat;
  total_skipped : nat;
  total_unmatched : nat;
  output_paths : list str
}.

Section Batch.

(** What the body of the loop calls for one file: the choice of the
    output path, the copy and [run_conversion], which give the counters
    and the output path or raise; and [verify_conversion], called when
    the worker is asked to verify. *)
Variable convert_file : str -> py_result (stats * str).
Variable verify_file : str -> str -> py_result unit.
Variable verify : bool.

(** One pass of the loop: an exception of the file is caught and counted. *)
Definition batch_step (all_stats : batch_stats) (input_path : str)
    : batch_stats :=
  match convert_file input_path with
  | Raise _ _ =>
      {| total_files := total_files all_stats;
         successful := successful all_stats;
         failed := failed all_stats + 1;
         total_converted := total_converted all_stats;
         total_skipped := total_skipped all_stats;
         total_unmatched := total_unmatched all_stats;
         output_paths := output_paths all_stats |}
  | Return (s, output_path) =>
      let counted :=
        {| total_files := total_files all_stats;
           successful := successful all_stats;
           failed := failed all_stats;
           total_converted := total_converted all_stats + converted s;
           total_skipped := total_skipped all_stats + skipped s;
           total_unmatched := total_unmatched all_stats + length (unmatched s);
           output_paths := output_paths all_stats ++ [output_path] |} in
      match (if verify then verify_file input_path output_path
             else Return tt) with
      | Raise _ _ =>
          {| total_files := total_files counted;
             successful := successful counted;
             failed := failed counted + 1;
             total_converted := total_converted counted;
             total_skipped := total_skipped counted;
             total_unmatched := total_unmatched counted;
             output_paths := output_paths counted |}
      | Return _ =>
          {| total_files := total_files counted;
             successful := successful counted + 1;
             failed := failed counted;
             total_converted := total_converted counted;
             total_skipped := total_skipped counted;
             total_unmatched := total_unmatched counted;
             output_paths := output_paths counted |}
      end
  end.

Definition batch_run (input_paths : list str) : batch_stats :=
  fold_left batch_step input_paths
    {| total_files := length input_paths; successful := 0; failed := 0;
       total_converted := 0; total_skipped := 0; total_unmatched := 0;
       output_paths := [] |}.

(** The files whose conversion returned, with their counters. *)
Definition converted_files (input_paths : list str) : list stats :=
  omap (fun f => match convert_file f with
                 | Return (s, _) => Some s
                 | Raise _ _ => None
                 end) input_paths.

End Batch.

End Worker.
Export Worker.

(** ** Library entries as CSL data ([zotero_item_to_csl_json]) *)

Module Csl.

(** The outcome of a call on values as the library delivers them: a
    value, or one of the two exceptions the interpreter raises when a
    value has not the type the code takes for granted. *)
Inductive builtin_error : Type := TypeError | AttributeError.

Inductive raised_or (A : Type) : Type :=
| Value (a : A)
| Raises (e : builtin_error).
Arguments Value {A} a.
Arguments Raises {A} e.

Definition TYPE_MAP : list (str * str) :=
  [ (lit "journalArticle", lit "article-journal");
    (lit "book", lit "book");
    (lit "bookSection", lit "chapter");
    (lit "conferencePaper", lit "paper-conference");
    (lit "thesis", lit "thesis");
    (lit "report", lit "report");
    (lit "webpage", lit "webpage");
    (lit "magazineArticle", lit "article-magazine");
    (lit "newspaperArticle", lit "article-newspaper");
    (lit "manuscript", lit "manuscript");
    (lit "document", lit "article") ].

(** [type_map.get(item_type, "article")]: a list or a dictionary cannot
    be looked up ([TypeError: unhashable type]); a value that is no
    string equals none of the keys. *)
Definition csl_type (item_type : json) : raised_or str :=
  match item_type with
  | JList _ | JDict _ => Raises TypeError
  | JStr s =>
      Value (match assoc_get s TYPE_MAP with
             | Some t => t
             | None => lit "article"
             end)
  | _ => Value (lit "article")
  end.

Definition CONTAINER_FIELDS : list str :=
  [lit "publicationTitle"; lit "bookTitle"; lit "proceedingsTitle"].

Definition FIELD_MAP : list (str * str) :=
  [ (lit "volume", lit "volume"); (lit "issue", lit "issue");
    (lit "pages", lit "page"); (lit "publisher", lit "publisher");
    (lit "place", lit "publisher-place"); (lit "DOI", lit "DOI");
    (lit "ISBN", lit "ISBN"); (lit "ISSN", lit "ISSN");
    (lit "url", lit "URL"); (lit "edition", lit "edition") ].

Section Builtins.

Variable float_is_zero : str -> bool.

(** [if d.get(key): out[out_key] = d[key]] *)
Definition copy_if_set (d : list (str * json)) (key out_key : str)
    : list (str * json) :=
  match dict_get key d with
  | Some v => if value_truthy float_is_zero v then [(out_key, v)] else []
  | None => []
  end.

(** The dictionary [person] of a creator. *)
Definition person_of (creator : list (str * json)) : list (str * json) :=
  copy_if_set creator (lit "lastName") (lit "family")
  ++ copy_if_set creator (lit "firstName") (lit "given")
  ++ copy_if_set creator (lit "name") (lit "literal").

(** [creator.get("creatorType") == "editor"] *)
Definition is_editor (creator : list (str * json)) : bool :=
  match dict_get (lit "creatorType") creator with
  | Some (JStr s) => eqb_str s (lit "editor")
  | _ => false
  end.

(** What [for creator in data.get("creators", [])] runs over: the elements
    of a list; nothing for an empty string or dictionary; the first
    character or key otherwise, on which [creator.get] fails; and a value
    of another type cannot be iterated. *)
Definition creators_of (d : list (str * json)) : raised_or (list json) :=
  match dict_get (lit "creators") d with
  | None => Value []
  | Some (JList l) => Value l
  | Some (JStr []) | Some (JDict []) => Value []
  | Some (JStr (_ :: _)) | Some (JDict (_ :: _)) => Raises AttributeError
  | Some _ => Raises TypeError
  end.

(** The loop over the creators, with the lists [authors] and [editors]. *)
Fixpoint split_creators (creators : list json) (authors editors : list json)
    : raised_or (list json * list json) :=
  match creators with
  | [] => Value (authors, editors)
  | JDict creator :: rest =>
      let person := JDict (person_of creator) in
      if is_editor creator
      then split_creators rest authors (editors ++ [person])
      else split_creators rest (authors ++ [person]) editors
  | _ :: _ => Raises AttributeError
  end.

(** The key ["issued"]: [re.search] takes a string only. *)
Definition issued_of (d : list (str * json)) : raised_or (list (str * json)) :=
  match dict_get (lit "date") d with
  | Some v =>
      if value_truthy float_is_zero v then
        match v with
        | JStr s =>
            match search RE_YEAR s with
            | Some (i, j) =>
                Value [(lit "issued",
                        JDict [(lit "date-parts",
                                JList [JList [JStr (slice i j s)]])])]
            | None => Value []
            end
        | _ => Raises TypeError
        end
      else Value []
  | None => Value []
  end.

(** The first of the three container fields that is set. *)
Definition container_of (d : list (str * json)) : list (str * json) :=
  match first_truthy float_is_zero CONTAINER_FIELDS d with
  | Some v => [(lit "container-title", v)]
  | None => []
  end.

(** [zotero_item_to_csl_json(item)] for an entry that is a dictionary:
    the members of [csl] in the order in which the keys are set. *)
Definition zotero_item_to_csl_json (item : list (str * json))
    : raised_or (list (str * json)) :=
  match get_or "data" item (JDict []) with
  | JDict d =>
      match csl_type (get_or "itemType" d (JStr [])) with
      | Raises e => Raises e
      | Value ty =>
          match creators_of d with
          | Raises e => Raises e
          | Value creators =>
              match split_creators creators [] [] with
              | Raises e => Raises e
              | Value (authors, editors) =>
                  match issued_of d with
                  | Raises e => Raises e
                  | Value issued =>
                      Value
                        ([(lit "id", get_or "key" item (JStr []));
                          (lit "type", JStr ty)]
                         ++ copy_if_set d (lit "title") (lit "title")
                         ++ (match authors with
                             | [] => []
                             | _ => [(lit "author", JList authors)]
                             end)
                         ++ (match editors with
                             | [] => []
                             | _ => [(lit "editor", JList editors)]
                             end)
                         ++ issued
                         ++ container_of d
                         ++ flat_map (fun f => copy_if_set d (fst f) (snd f))
                              FIELD_MAP)
                  end
              end
          end
      end
  | _ => Raises AttributeError
  end.

End Builtins.

(** The list under a key of [csl], empty when the key is not set. *)
Definition list_under (key : string) (csl : list (str * json)) : list json :=
  match dict_get (lit key) csl with
  | Some (JList l) => l
  | _ => []
  end.
Arguments list_under key%_string csl.

(** A library entry of which the code can make CSL data: its data are a
    dictionary, its type can be looked up, its creators are a list of
    dictionaries and its date is a string or not set. *)
Definition convertible (float_is_zero : str -> bool) (item : list (str * json))
    : Prop :=
  exists d,
    get_or "data" item (JDict []) = JDict d
    /\ (forall l, get_or "itemType" d (JStr []) <> JList l)
    /\ (forall m, get_or "itemType" d (JStr []) <> JDict m)
    /\ (exists creators,
          get_or "creators" d (JList []) = JList creators
          /\ Forall (fun c => exists m, c = JDict m) creators)
    /\ (forall v, dict_get (lit "date") d = Some v ->
          value_truthy float_is_zero v = true -> exists s, v = JStr s).

(** A library entry as the API delivers it: an article with an author and
    an editing organisation. *)
Definition sample_entry_data : list (str * json) :=
  [ (lit "itemType", JStr (lit "journalArticle"));
    (lit "title", JStr (lit "Citation managers compared"));
    (lit "creators",
     JList [ JDict [ (lit "creatorType", JStr (lit "author"));
                     (lit "lastName", JStr (lit "Smith"));
                     (lit "firstName", JStr (lit "John")) ];
             JDict [ (lit "creatorType", JStr (lit "editor"));
                     (lit "name", JStr (lit "World Health Organization")) ] ]);
    (lit "date", JStr (lit "2019-03-01"));
    (lit "publicationTitle", JStr (lit "Journal of Examples"));
    (lit "volume", JInt 12);
    (lit "DOI", JStr (lit "10.1000/xyz123")) ].

Definition sample_entry : list (str * json) :=
  [ (lit "key", JStr (lit "ABCD1234"));
    (lit "version", JInt 7);
    (lit "data", JDict sample_entry_data) ].

End Csl.
Export Csl.

(** * Theorems *)

(** ** Facts about the string primitives *)

Section StringFacts.

Lemma eqb_char_true (a b : ascii) : eqb_char a b = true <-> a = b.
Proof. unfold eqb_char. apply Ascii.eqb_eq. Qed.

Lemma eqb_char_sym_false (a b : ascii) : eqb_char a b = false -> eqb_char b a = false.
Proof.
  intros H. destruct (eqb_char b a) eqn:E; [|reflexivity].
  apply eqb_char_true in E. subst. rewrite (proj2 (eqb_char_true a a) eq_refl) in H. discriminate.
Qed.

Lemma eqb_char_refl (a : ascii) : eqb_char a a = true.
Proof. apply eqb_char_true. reflexivity. Qed.

Lemma eqb_str_true (a b : str) : eqb_str a b = true <-> a = b.
Proof.
  revert b. induction a as [|x a IH]; intros [|y b]; simpl;
    try (split; [discriminate | intros H; discriminate H]); [tauto|].
  rewrite andb_true_iff, eqb_char_true, IH. split.
  - intros [-> ->]. reflexivity.
  - intros H. injection H as -> ->. tauto.
Qed.

Lemma eqb_str_refl (a : str) : eqb_str a a = true.
Proof. apply eqb_str_true. reflexivity. Qed.

Lemma startswith_prefix (p s : str) :
  startswith p s = true <-> exists t, s = p ++ t.
Proof.
  revert s. induction p as [|x p IH]; intros s; simpl.
  - split; [intros _; exists s; reflexivity | reflexivity].
  - destruct s as [|y s]; simpl.
    + split; [discriminate | intros [t Ht]; discriminate].
    + rewrite andb_true_iff, eqb_char_true, IH. split.
      * intros [-> [t ->]]. exists t. reflexivity.
      * intros [t Ht]. injection Ht as -> ->. split; [reflexivity | exists t; reflexivity].
Qed.

Lemma startswith_app (p t : str) : startswith p (p ++ t) = true.
Proof. apply startswith_prefix. exists t. reflexivity. Qed.

Lemma startswith_length (p s : str) : startswith p s = true -> length p <= length s.
Proof.
  intros H. apply startswith_prefix in H as [t ->]. rewrite length_app. lia.
Qed.

Lemma str_in_infix (sub s : str) :
  str_in sub s = true <-> exists a b, s = a ++ sub ++ b.
Proof.
  induction s as [|c s IH]; simpl.
  - rewrite orb_false_r, startswith_prefix. split.
    + intros [t Ht]. exists [], t. exact Ht.
    + intros [a [b H]]. destruct a; [exists b; exact H | discriminate].
  - rewrite orb_true_iff, startswith_prefix, IH. split.
    + intros [[t Ht] | [a [b Hab]]].
      * exists [], t. exact Ht.
      * exists (c :: a), b. simpl. rewrite Hab. reflexivity.
    + intros [a [b H]]. destruct a as [|x a]; simpl in H.
      * left. exists b. exact H.
      * right. injection H as _ H. exists a, b. exact H.
Qed.

Lemma char_in_In (c : ascii) (s : str) : char_in c s = true <-> In c s.
Proof.
  unfold char_in. rewrite existsb_exists. split.
  - intros [x [Hx Heq]]. apply eqb_char_true in Heq. subst. exact Hx.
  - intros H. exists c. split; [exact H | apply eqb_char_refl].
Qed.

Lemma replace_from_drop (old new : str) (k : nat) (s : str) :
  replace_from old new k s = replace_from old new 0 (drop k s).
Proof.
  revert s. induction k as [|k IH]; intros s.
  - rewrite drop_0. reflexivity.
  - destruct s as [|c s]; [reflexivity|]. simpl. apply IH.
Qed.

(** The two equations of [str.replace]: at an occurrence the replacement
    is emitted and the scan resumes behind it; elsewhere one character is
    copied. *)
Lemma replace_from_hit (old new : str) (c : ascii) (s : str) :
  old <> [] -> startswith old (c :: s) = true ->
  replace_from old new 0 (c :: s) =
  new ++ replace_from old new 0 (drop (length old) (c :: s)).
Proof.
  intros Hne Hs. cbn [replace_from]. rewrite Hs.
  destruct old as [|o old]; [congruence|].
  cbn [length]. rewrite Nat.sub_succ, Nat.sub_0_r.
  rewrite replace_from_drop. reflexivity.
Qed.

Lemma replace_from_miss (old new : str) (c : ascii) (s : str) :
  startswith old (c :: s) = false ->
  replace_from old new 0 (c :: s) = c :: replace_from old new 0 s.
Proof. intros Hs. cbn [replace_from]. rewrite Hs. reflexivity. Qed.

End StringFacts.

(** ** Payload decoding *)

Section DecoderFacts.

Lemma lstrip_by_head (p : ascii -> bool) (s : str) (c : ascii) (r : str) :
  lstrip_by p s = c :: r -> p c = false.
Proof.
  induction s as [|x s IH]; [discriminate|]. cbn [lstrip_by].
  destruct (p x) eqn:E; [exact IH|]. intros H. injection H as <- _. exact E.
Qed.

Lemma lstrip_by_suffix (p : ascii -> bool) (s : str) :
  exists pre, s = pre ++ lstrip_by p s.
Proof.
  induction s as [|x s [pre IH]]; [exists []; reflexivity|].
  cbn [lstrip_by]. destruct (p x).
  - exists (x :: pre). cbn [app]. rewrite <- IH. reflexivity.
  - exists []. reflexivity.
Qed.

Lemma rstrip_by_prefix (p : ascii -> bool) (s : str) :
  exists suf, s = rstrip_by p s ++ suf.
Proof.
  unfold rstrip_by. destruct (lstrip_by_suffix p (rev s)) as [pre H].
  exists (rev pre). rewrite <- rev_app_distr, <- H, rev_involutive. reflexivity.
Qed.

Lemma lstrip_by_id (p : ascii -> bool) (s : str) :
  forallb (fun c => negb (p c)) s = true -> lstrip_by p s = s.
Proof.
  destruct s as [|c s]; [reflexivity|]. cbn [forallb lstrip_by].
  intros H. apply andb_true_iff in H as [H _].
  apply negb_true_iff in H. rewrite H. reflexivity.
Qed.

Lemma strip_by_id (p : ascii -> bool) (s : str) :
  forallb (fun c => negb (p c)) s = true -> strip_by p s = s.
Proof.
  intros H. unfold strip_by, rstrip_by. rewrite (lstrip_by_id p s H).
  rewrite lstrip_by_id; [apply rev_involutive|].
  rewrite forallb_forall in *. intros c Hc. apply H. apply in_rev. exact Hc.
Qed.

(** A stripped text does not begin with a blank. *)
Lemma strip_head (t : str) (c : ascii) (r : str) :
  strip t = c :: r -> is_space c = false.
Proof.
  unfold strip, strip_by. intros H.
  destruct (rstrip_by_prefix is_space (lstrip_by is_space t)) as [suf Hsuf].
  rewrite H in Hsuf. cbn [app] in Hsuf.
  apply (lstrip_by_head is_space t c (r ++ suf)). exact Hsuf.
Qed.

Section Runtime.

Variable b64decode : str -> py_result bytes.
Variable decode_utf8_replace : bytes -> str.
Variable json_loads : str -> py_result json.

Let try_base64 := try_base64 b64decode decode_utf8_replace json_loads.
Let try_embedded_json := try_embedded_json json_loads.
Let decode_raw := decode_raw b64decode decode_utf8_replace json_loads.
Let decode := decode_citavi_payload b64decode decode_utf8_replace json_loads.

(** The raw instruction text does not begin with a blank. *)
Lemma instr_parts_head (l : list element) (c : ascii) (r : str) :
  concat (flat_map (fun instr => match text_nonempty instr with
                                 | Some t => [strip t]
                                 | None => []
                                 end) l) = c :: r ->
  is_space c = false.
Proof.
  induction l as [|e l IH]; [discriminate|]. cbn [flat_map].
  destruct (text_nonempty e) as [t|]; cbn [app concat]; [|exact IH].
  destruct (strip t) as [|x s] eqn:E; cbn [app]; [exact IH|].
  intros H. injection H as <- _. apply (strip_head t x s E).
Qed.

(** Taking the second candidate never fails on such a text. *)
Lemma second_candidate_returns (raw : str) :
  (forall c r, raw = c :: r -> is_space c = false) ->
  exists second, second_candidate raw = Return second.
Proof.
  intros Hhead. unfold second_candidate.
  destruct (char_in " "%char raw) eqn:Hsp; [|eauto].
  destruct raw as [|c r]; [discriminate|].
  unfold split_ws_once. cbn [lstrip_by]. rewrite (Hhead c r eq_refl).
  destruct (span_word (c :: r)) as [wd rest].
  destruct (lstrip_by is_space rest); cbn; eauto.
Qed.

Lemma try_base64_safe (candidate : str) :
  b64decode_contract b64decode -> json_loads_contract json_loads ->
  try_base64 candidate
  = Return (match strip candidate with
            | [] => None
            | c => match b64decode c with
                   | Raise _ _ => None
                   | Return b =>
                       match json_loads (decode_utf8_replace b) with
                       | Return v => Some v
                       | Raise _ _ => None
                       end
                   end
            end).
Proof.
  intros Hb Hj. unfold try_base64, Decoder.try_base64.
  destruct (strip candidate) as [|c s]; [reflexivity|].
  destruct (b64decode (c :: s)) as [b|cls msg] eqn:Eb.
  - destruct (json_loads (decode_utf8_replace b)) as [v|cls msg] eqn:Ej; [reflexivity|].
    rewrite (Hj _ _ _ Ej). reflexivity.
  - pose proof (Hb _ _ _ Eb) as Hsub.
    replace (caught cls BASE64_HANDLERS) with true; [reflexivity|].
    symmetry. unfold caught, BASE64_HANDLERS. cbn [existsb].
    rewrite Hsub. apply orb_true_r.
Qed.

Lemma try_embedded_json_safe (raw : str) :
  json_loads_contract json_loads ->
  try_embedded_json raw
  = Return (match search RE_JSON_OBJECT raw with
            | None => None
            | Some (i, j) =>
                match json_loads (slice i j raw) with
                | Return v => Some v
                | Raise _ _ => None
                end
            end).
Proof.
  intros Hj. unfold try_embedded_json, Decoder.try_embedded_json.
  destruct (search RE_JSON_OBJECT raw) as [[i j]|]; [|reflexivity].
  destruct (json_loads (slice i j raw)) as [v|cls msg] eqn:Ej; [reflexivity|].
  rewrite (Hj _ _ _ Ej). reflexivity.
Qed.

Lemma decode_raw_total (raw : str) :
  b64decode_contract b64decode -> json_loads_contract json_loads ->
  (forall c r, raw = c :: r -> is_space c = false) ->
  raised (decode_raw raw) = false
  /\ (base64_fails b64decode decode_utf8_replace json_loads raw = true ->
      (forall second, second_candidate raw = Return second ->
         base64_fails b64decode decode_utf8_replace json_loads second = true) ->
      embedded_fails json_loads raw = true ->
      decode_raw raw = Return JNull).
Proof.
  intros Hb Hj Hhead. unfold decode_raw, Decoder.decode_raw.
  destruct (second_candidate_returns raw Hhead) as [second Hsecond].
  rewrite Hsecond.
  fold try_base64 try_embedded_json.
  rewrite !try_base64_safe, try_embedded_json_safe by assumption.
  unfold base64_fails, embedded_fails. split.
  - repeat (match goal with
            | |- context [match ?x with _ => _ end] => destruct x
            end; try reflexivity).
  - intros H1 H2 H3. specialize (H2 second eq_refl).
    destruct (strip raw) as [|c s].
    + destruct (strip second) as [|c2 s2].
      * destruct (search RE_JSON_OBJECT raw) as [[i j]|]; [|reflexivity].
        destruct (json_loads (slice i j raw)); [discriminate | reflexivity].
      * destruct (b64decode (c2 :: s2)) as [b|].
        -- destruct (json_loads (decode_utf8_replace b)); [discriminate|].
           destruct (search RE_JSON_OBJECT raw) as [[i j]|]; [|reflexivity].
           destruct (json_loads (slice i j raw)); [discriminate | reflexivity].
        -- destruct (search RE_JSON_OBJECT raw) as [[i j]|]; [|reflexivity].
           destruct (json_loads (slice i j raw)); [discriminate | reflexivity].
    + destruct (b64decode (c :: s)) as [b|].
      * destruct (json_loads (decode_utf8_replace b)); [discriminate|].
        destruct (strip second) as [|c2 s2].
        -- destruct (search RE_JSON_OBJECT raw) as [[i j]|]; [|reflexivity].
           destruct (json_loads (slice i j raw)); [discriminate | reflexivity].
        -- destruct (b64decode (c2 :: s2)) as [b2|].
           ++ destruct (json_loads (decode_utf8_replace b2)); [discriminate|].
              destruct (search RE_JSON_OBJECT raw) as [[i j]|]; [|reflexivity].
              destruct (json_loads (slice i j raw)); [discriminate | reflexivity].
           ++ destruct (search RE_JSON_OBJECT raw) as [[i j]|]; [|reflexivity].
              destruct (json_loads (slice i j raw)); [discriminate | reflexivity].
      * destruct (strip second) as [|c2 s2].
        -- destruct (search RE_JSON_OBJECT raw) as [[i j]|]; [|reflexivity].
           destruct (json_loads (slice i j raw)); [discriminate | reflexivity].
        -- destruct (b64decode (c2 :: s2)) as [b2|].
           ++ destruct (json_loads (decode_utf8_replace b2)); [discriminate|].
              destruct (search RE_JSON_OBJECT raw) as [[i j]|]; [|reflexivity].
              destruct (json_loads (slice i j raw)); [discriminate | reflexivity].
           ++ destruct (search RE_JSON_OBJECT raw) as [[i j]|]; [|reflexivity].
              destruct (json_loads (slice i j raw)); [discriminate | reflexivity].
Qed.

Lemma instr_parts_plain (l : list element) :
  no_blank (concat (map (fun i => match e_text i with Some t => t | None => [] end) l))
    = true ->
  concat (flat_map (fun instr => match text_nonempty instr with
                                 | Some t => [strip t]
                                 | None => []
                                 end) l)
  = concat (map (fun i => match e_text i with Some t => t | None => [] end) l).
Proof.
  unfold no_blank. induction l as [|e l IH]; [reflexivity|].
  cbn [map concat flat_map]. rewrite forallb_app. intros H.
  apply andb_true_iff in H as [He Hl]. rewrite concat_app, (IH Hl).
  unfold text_nonempty. destruct (e_text e) as [[|c t]|]; try reflexivity.
  cbn [concat]. rewrite app_nil_r. unfold strip.
  rewrite (strip_by_id is_space (c :: t) He). reflexivity.
Qed.

Variable b64encode : bytes -> str.
Variable encode_utf8 : str -> bytes.


End Runtime.

(** The reference runtime keeps to the contract. *)
Lemma ref_b64decode_contract : b64decode_contract RefRuntime.b64decode.
Proof.
  intros s cls msg. unfold RefRuntime.b64decode.
  destruct (existsb _ s); [intros H; injection H as <- _; reflexivity|].
  destruct (RefRuntime.b64_digits s) as [ds pad].
  destruct (_ || _); [intros H; injection H as <- _; reflexivity|].
  destruct (RefRuntime.sextets_to_bytes ds); [discriminate|].
  intros H; injection H as <- _; reflexivity.
Qed.

Lemma ref_json_loads_contract : json_loads_contract RefRuntime.json_loads.
Proof.
  intros s cls msg. unfold RefRuntime.json_loads.
  destruct (RefRuntime.parse_value _ s) as [[v rest]|].
  - destruct (RefRuntime.skip_ws rest); [discriminate|].
    intros H; injection H as <- _; reflexivity.
  - intros H; injection H as <- _; reflexivity.
Qed.


(** The fallbacks on the reference runtime: a leading format tag, an
    embedded object, and a text nothing can be made of. *)
Example decode_fallbacks :
  RefRuntime.decode_payload
    (RefRuntime.placeholder_with [lit "ADDIN eyJZZWFyIjogMjAxOX0="])
  = Return (JDict [(lit "Year", JInt 2019)])
  /\ RefRuntime.decode_payload
       (RefRuntime.placeholder_with [lit "ADDIN CitaviPlaceholder{ }"])
     = Return (JDict [])
  /\ RefRuntime.decode_payload
       (RefRuntime.placeholder_with [lit "ADDIN CitaviPlaceholder{x}"])
     = Return JNull.
Proof. repeat split; vm_compute; reflexivity. Qed.

End DecoderFacts.

(** ** Library matching *)

Section MatcherFacts.

Lemma improves_true (s best_score : Q) :
  improves s best_score = true <-> (best_score < s /\ 3 <= s)%Q.
Proof.
  unfold improves. rewrite andb_true_iff, negb_true_iff, Qle_bool_iff.
  split; intros [H1 H2]; split; try exact H2.
  - apply Qnot_le_lt. intros Hle. apply Qle_bool_iff in Hle. congruence.
  - destruct (Qle_bool s best_score) eqn:E; [|reflexivity].
    apply Qle_bool_iff in E. lra.
Qed.

Lemma improves_false (s best_score : Q) :
  improves s best_score = false -> (s <= best_score \/ s < 3)%Q.
Proof.
  intros H. destruct (Qlt_le_dec best_score s) as [Hlt|Hle]; [|left; exact Hle].
  destruct (Qlt_le_dec s 3) as [Hs|Hs]; [right; exact Hs|].
  assert (improves s best_score = true) by (apply improves_true; split; assumption).
  congruence.
Qed.

Lemma fuzzy_loop_invariant (sc : item -> Q) (rest : list item) :
  forall seen best_match best_score,
    best_so_far sc seen best_match best_score ->
    best_so_far sc (seen ++ rest)
      (fuzzy_loop sc rest best_match best_score)
      (match fuzzy_loop sc rest best_match best_score with
       | Some it => sc it
       | None => 0%Q
       end).
Proof.
  induction rest as [|x rest IH]; intros seen bm bs Hinv.
  - cbn [fuzzy_loop]. rewrite app_nil_r.
    destruct bm as [it|]; cbn [best_so_far] in *.
    + destruct Hinv as [_ H]. split; [reflexivity | exact H].
    + destruct Hinv as [_ H]. split; [reflexivity | exact H].
  - cbn [fuzzy_loop].
    replace (seen ++ x :: rest) with ((seen ++ [x]) ++ rest)
      by (rewrite <- app_assoc; reflexivity).
    destruct (improves (sc x) bs) eqn:Himp.
    + apply improves_true in Himp as [Hgt H3].
      apply IH. cbn [best_so_far]. split; [reflexivity|].
      exists seen, []. repeat split; [exact H3 | | intros y []].
      intros y Hy. destruct bm as [it|]; cbn [best_so_far] in Hinv.
      * destruct Hinv as [-> [pre [post [-> [Hit [Hpre Hpost]]]]]].
        apply in_app_or in Hy as [Hy | [<- | Hy]].
        -- specialize (Hpre y Hy). lra.
        -- exact Hgt.
        -- specialize (Hpost y Hy). lra.
      * destruct Hinv as [-> Hlow]. specialize (Hlow y Hy). lra.
    + apply improves_false in Himp.
      apply IH. destruct bm as [it|]; cbn [best_so_far] in *.
      * destruct Hinv as [-> [pre [post [-> [Hit [Hpre Hpost]]]]]].
        split; [reflexivity|].
        exists pre, (post ++ [x]). repeat split.
        -- rewrite <- app_assoc. reflexivity.
        -- exact Hit.
        -- exact Hpre.
        -- intros y Hy. apply in_app_or in Hy as [Hy | [<- | []]].
           ++ apply Hpost. exact Hy.
           ++ destruct Himp; lra.
      * destruct Hinv as [-> Hlow]. split; [reflexivity|].
        intros y Hy. apply in_app_or in Hy as [Hy | [<- | []]].
        -- apply Hlow. exact Hy.
        -- destruct Himp; lra.
Qed.

(** The result of the fuzzy stage, for any scoring function. *)
Lemma fuzzy_loop_first_maximum (sc : item -> Q) (items : list item) :
  match fuzzy_loop sc items None 0%Q with
  | Some it =>
      exists pre post,
        items = pre ++ it :: post /\ (3 <= sc it)%Q
        /\ (forall x, In x pre -> (sc x < sc it)%Q)
        /\ (forall x, In x post -> (sc x <= sc it)%Q)
  | None => forall x, In x items -> (sc x < 3)%Q
  end.
Proof.
  pose proof (fuzzy_loop_invariant sc items [] None 0%Q) as H.
  cbn [app] in H. specialize (H (conj eq_refl (fun x (Hx : In x []) => match Hx with end))).
  destruct (fuzzy_loop sc items None 0%Q) as [it|]; cbn [best_so_far] in H.
  - destruct H as [_ H]. exact H.
  - destruct H as [_ H]. exact H.
Qed.

(** On a record with strings for names, [find_match_raw] is
    [find_match]. *)
Lemma raw_cache_key_text (dumps_float : str -> str) (ci : citation_info) :
  raw_cache_key dumps_float (raw_of ci) = cache_key ci.
Proof.
  unfold raw_cache_key, cache_key, raw_of.
  cbn [ri_authors ri_doi ri_isbn ri_title ri_year].
  destruct (ci_authors ci) as [l|]; cbn [option_map]; [|reflexivity].
  rewrite map_map. reflexivity.
Qed.

Lemma raw_target_family_text (ci : citation_info) :
  raw_target_family (raw_of ci) = Return (target_family ci).
Proof.
  unfold raw_target_family, target_family, raw_of. cbn [ri_authors].
  destruct (ci_authors ci) as [[|a l]|]; reflexivity.
Qed.

Lemma find_match_raw_text (dumps_float : str -> str) (m : matcher)
    (ci : citation_info) :
  find_match_raw dumps_float m (raw_of ci) = Return (find_match m ci).
Proof.
  unfold find_match_raw, find_match. rewrite raw_cache_key_text.
  destruct (cache m !! cache_key ci); [reflexivity|].
  change (raw_doi_match (all_items m) (raw_of ci))
    with (doi_match (all_items m) ci).
  destruct (doi_match (all_items m) ci); [reflexivity|].
  change (raw_isbn_match (all_items m) (raw_of ci))
    with (isbn_match (all_items m) ci).
  destruct (isbn_match (all_items m) ci); [reflexivity|].
  rewrite raw_target_family_text. reflexivity.
Qed.

(** A record whose first author has a family name that is no string makes
    the fuzzy stage raise. *)
Lemma find_match_raw_raises (dumps_float : str -> str) (m : matcher)
    (ri : raw_info) :
  cache m !! raw_cache_key dumps_float ri = None ->
  raw_doi_match (all_items m) ri = None ->
  raw_isbn_match (all_items m) ri = None ->
  family_is_text ri = false ->
  exists msg, find_match_raw dumps_float m ri = Raise OtherError msg.
Proof.
  intros Hcache Hdoi Hisbn Hfam. unfold find_match_raw.
  rewrite Hcache, Hdoi, Hisbn.
  unfold family_is_text in Hfam. unfold raw_target_family.
  destruct (ri_authors ri) as [[|a l]|]; try discriminate.
  destruct (ra_family a); try discriminate; cbn [lower_method]; eauto.
Qed.

(** With a string there, or without an author, it returns. *)
Lemma raw_target_family_returns (ri : raw_info) :
  family_is_text ri = true ->
  exists target_family, raw_target_family ri = Return target_family.
Proof.
  unfold family_is_text, raw_target_family.
  destruct (ri_authors ri) as [[|a l]|]; eauto.
  destruct (ra_family a); try discriminate. cbn [lower_method]. eauto.
Qed.

Lemma find_match_raw_returns (dumps_float : str -> str) (m : matcher)
    (ri : raw_info) :
  family_is_text ri = true ->
  exists r, find_match_raw dumps_float m ri = Return r.
Proof.
  intros Hfam. unfold find_match_raw.
  destruct (cache m !! _); [eauto|].
  destruct (raw_doi_match _ _); [eauto|].
  destruct (raw_isbn_match _ _); [eauto|].
  destruct (raw_target_family_returns ri Hfam) as [fam ->]. eauto.
Qed.



(** The sample library has two entries by Smith from 2019 with the same
    score; the one that comes first in the index is returned. *)
Example find_match_tie_keeps_first :
  option_map key (fst (find_match sample_matcher (author_year (lit "Smith") (lit "2019"))))
  = Some (lit "SMITH19A").
Proof. vm_compute. reflexivity. Qed.

(** Token overlap: the record's four words are all among the six of the
    entry, the ratio is the float nearest to 4/6, which exceeds 0.6, and
    the title contributes the float [5 * ratio], 3.333333333333333. *)
Example title_signal_overlap :
  title_signal (lower (lit "Advances in Molecular Biology"))
               (lower (lit "Advances in Molecular Biology and Chemistry"))
  = Some (Binary64.mul 5 (Binary64.int_div 4 6))
  /\ (Binary64.mul 5 (Binary64.int_div 4 6)
      == 3752999689475413 # 1125899906842624)%Q.
Proof. split; vm_compute; reflexivity. Qed.

(** Rounding decides between two entries whose scores are equal as
    fractions: the first has the author and ten of the fifteen words of
    the title, [3 + 5 * (10 / 15)], the second the year and thirteen of
    the words, [2 + 5 * (13 / 15)].  Both are 19/3 exactly; as floats the
    first is 6.333333333333333 and the second 6.333333333333334, so the
    second entry replaces the first. *)
Example find_match_rounding :
  (score_of (raw_target_title rounding_record) (raw_target_year rounding_record)
            (lit "smith") rounding_first
   < score_of (raw_target_title rounding_record) (raw_target_year rounding_record)
              (lit "smith") rounding_second)%Q
  /\ find_match_raw RefRuntime.dumps_float rounding_matcher rounding_record
     = Return (Some rounding_second,
               remember rounding_matcher
                 (raw_cache_key RefRuntime.dumps_float rounding_record)
                 (Some rounding_second)).
Proof. split; vm_compute; reflexivity. Qed.

End MatcherFacts.

(** ** Matching by display text *)

Section DisplayTextFacts.

Lemma asked_is_Some (m : matcher) (ci : citation_info) :
  asked m ci = true <-> is_Some (cache m !! cache_key ci).
Proof. unfold asked. apply bool_decide_eq_true. Qed.

(** A query leaves its record in the memo and keeps what was there. *)
Lemma find_match_remembers (m : matcher) (ci : citation_info) :
  is_Some (cache (snd (find_match m ci)) !! cache_key ci).
Proof.
  unfold find_match. destruct (cache m !! cache_key ci) as [r|] eqn:E.
  - cbn [snd]. rewrite E. eauto.
  - destruct (doi_match _ _); [|destruct (isbn_match _ _)];
      cbn [snd remember cache]; rewrite lookup_insert_eq; eauto.
Qed.

Lemma find_match_keeps (m : matcher) (ci : citation_info) (k : str) :
  is_Some (cache m !! k) -> is_Some (cache (snd (find_match m ci)) !! k).
Proof.
  intros Hk. unfold find_match. destruct (cache m !! cache_key ci) as [r|] eqn:E.
  - exact Hk.
  - destruct (doi_match _ _); [|destruct (isbn_match _ _)];
      cbn [snd remember cache]; rewrite lookup_insert_is_Some;
      (destruct (decide (cache_key ci = k)); [left; assumption | right; split; assumption]).
Qed.

Lemma try_candidates_keeps (year : str) (candidates : list str) :
  forall (m : matcher) (k : str),
    is_Some (cache m !! k) ->
    is_Some (cache (snd (try_candidates m year candidates)) !! k).
Proof.
  induction candidates as [|c rest IH]; intros m k Hk; [exact Hk|].
  cbn [try_candidates].
  pose proof (find_match_keeps m (author_year c year) k Hk) as H1.
  destruct (find_match m (author_year c year)) as [[it|] m1]; cbn [snd] in *.
  - exact H1.
  - apply IH. exact H1.
Qed.

(** The first candidate of a group is always put to the library. *)
Lemma try_candidates_first (m : matcher) (year c : str) (rest : list str) :
  is_Some (cache (snd (try_candidates m year (c :: rest)))
             !! cache_key (author_year c year)).
Proof.
  cbn [try_candidates].
  pose proof (find_match_remembers m (author_year c year)) as H1.
  destruct (find_match m (author_year c year)) as [[it|] m1]; cbn [snd] in *.
  - exact H1.
  - apply try_candidates_keeps. exact H1.
Qed.

Lemma match_group_keeps (m : matcher) (g : group) (k : str) :
  is_Some (cache (snd (try_candidates m (g_year g) (g_candidates g))) !! k) ->
  is_Some (cache (snd (match_group m g)) !! k).
Proof.
  intros Hk. unfold match_group.
  destruct (try_candidates m (g_year g) (g_candidates g)) as [[it|] m1];
    cbn [snd] in *; [exact Hk|].
  destruct (2 <? length (split_ws (g_primary_author g))); [|exact Hk].
  destruct (negb (eqb_str _ (g_primary_author g))).
  - pose proof (find_match_keeps m1
                  (author_year (strip (sub_empty RE_TRAILING_INITIAL (g_author_portion g)))
                     (g_year g)) k Hk) as H2.
    destruct (find_match m1 _) as [[it|] m2]; cbn [snd] in *; [exact H2|].
    apply find_match_keeps. exact H2.
  - apply find_match_keeps. exact Hk.
Qed.

Lemma match_parts_keeps (parts : list str) :
  forall (m : matcher) (k : str),
    is_Some (cache m !! k) -> is_Some (cache (snd (match_parts m parts)) !! k).
Proof.
  induction parts as [|part rest IH]; intros m k Hk; [exact Hk|].
  cbn [match_parts]. destruct (parse_part part) as [g|]; [|apply IH; exact Hk].
  assert (H1 : is_Some (cache (snd (match_group m g)) !! k)).
  { apply match_group_keeps. apply try_candidates_keeps. exact Hk. }
  destruct (match_group m g) as [result m1]; cbn [snd] in H1.
  specialize (IH m1 k H1).
  destruct (match_parts m1 rest) as [matches m2]. exact IH.
Qed.

(** A group that has been parsed has its primary author put to the
    library, paired with its year. *)
Lemma match_parts_asks_primary (part : str) (rest : list str) (g : group)
    (c year : str) (cs : list str) (m : matcher) :
  parse_part part = Some g -> g_candidates g = c :: cs -> g_year g = year ->
  is_Some (cache (snd (match_parts m (part :: rest)))
             !! cache_key (author_year c year)).
Proof.
  intros Hparse Hcand <-. cbn [match_parts]. rewrite Hparse.
  assert (H1 : is_Some (cache (snd (match_group m g))
                          !! cache_key (author_year c (g_year g)))).
  { apply match_group_keeps. rewrite Hcand. apply try_candidates_first. }
  destruct (match_group m g) as [result m1]; cbn [snd] in H1.
  pose proof (match_parts_keeps rest m1 _ H1) as H2.
  destruct (match_parts m1 rest) as [matches m2]. exact H2.
Qed.

Lemma match_parts_skip (part : str) (rest : list str) (g : group) (m : matcher)
    (k : str) :
  parse_part part = Some g ->
  (forall m1, is_Some (cache (snd (match_parts m1 rest)) !! k)) ->
  is_Some (cache (snd (match_parts m (part :: rest))) !! k).
Proof.
  intros Hparse Hrest. cbn [match_parts]. rewrite Hparse.
  destruct (match_group m g) as [result m1].
  specialize (Hrest m1). destruct (match_parts m1 rest) as [matches m2].
  exact Hrest.
Qed.

(** C6: the display text "(Smith & Jones, 2019; World Health Organization
    2020)" is split into exactly two citation groups, with the years 2019
    and 2020; the primary author of the first is "Smith", that of the
    second the whole of "World Health Organization" (its candidates being
    that string and then its last word); and whatever the library holds,
    [find_match_by_display_text] puts to it the family name "Smith" with
    the year 2019 and the family name "World Health Organization" with the
    year 2020. *)
Theorem display_text_smith_who :
  let text := lit "(Smith & Jones, 2019; World Health Organization 2020)" in
  map (fun g => (g_year g, g_primary_author g, g_candidates g)) (display_groups text)
    = [(lit "2019", lit "Smith", [lit "Smith"]);
       (lit "2020", lit "World Health Organization",
        [lit "World Health Organization"; lit "Organization"])]
  /\ forall m : matcher,
       asked (snd (find_match_by_display_text m text))
             (author_year (lit "Smith") (lit "2019")) = true
       /\ asked (snd (find_match_by_display_text m text))
             (author_year (lit "World Health Organization") (lit "2020")) = true.
Proof.
  cbv zeta. split; [vm_compute; reflexivity|].
  intros m. rewrite !asked_is_Some.
  change (find_match_by_display_text m
            (lit "(Smith & Jones, 2019; World Health Organization 2020)"))
    with (match_parts m
            (display_parts (lit "(Smith & Jones, 2019; World Health Organization 2020)"))).
  replace (display_parts (lit "(Smith & Jones, 2019; World Health Organization 2020)"))
    with [lit "Smith & Jones, 2019"; lit "World Health Organization 2020"]
    by (vm_compute; reflexivity).
  split.
  - apply (match_parts_asks_primary _ _
             {| g_year := lit "2019"; g_author_portion := lit "Smith & Jones";
                g_primary_author := lit "Smith"; g_candidates := [lit "Smith"] |}
             _ _ [] m); vm_compute; reflexivity.
  - apply (match_parts_skip _ _
             {| g_year := lit "2019"; g_author_portion := lit "Smith & Jones";
                g_primary_author := lit "Smith"; g_candidates := [lit "Smith"] |});
      [vm_compute; reflexivity|].
    intros m1.
    apply (match_parts_asks_primary _ _
             {| g_year := lit "2020";
                g_author_portion := lit "World Health Organization";
                g_primary_author := lit "World Health Organization";
                g_candidates := [lit "World Health Organization"; lit "Organization"] |}
             _ _ [lit "Organization"] m1); vm_compute; reflexivity.
Qed.

(** With the sample library both groups resolve, in order. *)
Example display_text_sample_matches :
  map key (fst (find_match_by_display_text sample_matcher
                  (lit "(Smith & Jones, 2019; World Health Organization 2020)")))
  = [lit "SMITH19A"; lit "WHO20"].
Proof. vm_compute. reflexivity. Qed.

End DisplayTextFacts.

(** ** Credential redaction *)

Section RedactionFacts.

Let star : ascii := "*"%char.

(** A text free of the mask character that starts a string running into
    a mask character lies before that character. *)
Lemma startswith_before_star (u q rest : str) :
  char_in star u = false ->
  startswith u (q ++ star :: rest) = startswith u q.
Proof.
  revert q. induction u as [|x u IH]; intros q Hu; [reflexivity|].
  cbn [char_in existsb] in Hu. apply orb_false_elim in Hu as [Hx Hu].
  destruct q as [|y q]; cbn [app startswith].
  - rewrite (eqb_char_sym_false _ _ Hx). reflexivity.
  - rewrite IH by exact Hu. reflexivity.
Qed.

Lemma startswith_star_head (u rest : str) :
  char_in star u = false -> u <> [] -> startswith u (star :: rest) = false.
Proof.
  intros Hu Hne. destruct u as [|x u]; [congruence|].
  cbn [char_in existsb] in Hu. apply orb_false_elim in Hu as [Hx _].
  cbn [startswith]. rewrite (eqb_char_sym_false _ _ Hx). reflexivity.
Qed.

Lemma startswith_short (u q : str) :
  length q < length u -> startswith u q = false.
Proof.
  intros Hlt. destruct (startswith u q) eqn:E; [|reflexivity].
  apply startswith_length in E. lia.
Qed.

Lemma startswith_trans (u p s : str) :
  startswith u p = true -> startswith p s = true -> startswith u s = true.
Proof.
  rewrite !startswith_prefix. intros [t ->] [t' ->].
  exists (t ++ t'). rewrite <- app_assoc. reflexivity.
Qed.

Lemma startswith_take (n : nat) (s : str) : startswith (take n s) s = true.
Proof.
  apply startswith_prefix. exists (drop n s). symmetry. apply take_drop.
Qed.

Section Replace.

Variable old : str.
Hypothesis old_long : 4 < length old.
Hypothesis old_plain : char_in star old = false.

Let new : str := mask_of old.
Let R (s : str) : str := replace_from old new 0 s.

Lemma mask_of_shape : new = take 4 old ++ star :: lit "***".
Proof. reflexivity. Qed.

Lemma old_nonempty : old <> [].
Proof. destruct old; [simpl in old_long; lia | discriminate]. Qed.

(** A mask-free text at the head of the redacted message was at the head
    of the message already. *)
Lemma redacted_head (n : nat) : forall (s u : str),
  length s <= n -> char_in star u = false ->
  startswith u (R s) = true -> startswith u s = true.
Proof.
  induction n as [|n IH]; intros s u Hlen Hu Hst.
  - destruct s; [exact Hst | simpl in Hlen; lia].
  - destruct s as [|c s]; [exact Hst|].
    destruct (startswith old (c :: s)) eqn:Hhit.
    + unfold R in Hst. rewrite replace_from_hit in Hst by (auto using old_nonempty).
      fold new in Hst. rewrite mask_of_shape, <- app_assoc in Hst.
      simpl in Hst. rewrite startswith_before_star in Hst by exact Hu.
      eapply startswith_trans; [exact Hst|].
      eapply startswith_trans; [apply startswith_take | exact Hhit].
    + unfold R in Hst. rewrite replace_from_miss in Hst by exact Hhit.
      destruct u as [|x u]; [reflexivity|].
      cbn [startswith] in Hst |- *. apply andb_true_iff in Hst as [Hx Hst].
      rewrite Hx. cbn [andb]. cbn [char_in existsb] in Hu.
      apply orb_false_elim in Hu as [_ Hu].
      apply (IH s u); [simpl in Hlen; lia | exact Hu | exact Hst].
Qed.

(** The credential does not start inside a mask. *)
Lemma old_not_in_mask (X : str) :
  str_in old X = false -> str_in old (new ++ X) = false.
Proof.
  intros HX. rewrite mask_of_shape, <- app_assoc.
  change ((star :: lit "***") ++ X) with (star :: star :: star :: star :: X).
  assert (Hgen : forall q, length q < length old ->
            str_in old (q ++ star :: star :: star :: star :: X) = false).
  { induction q as [|y q IHq]; intros Hq.
    - cbn [app str_in].
      rewrite !(startswith_star_head old) by (auto using old_nonempty).
      exact HX.
    - cbn [app str_in]. rewrite IHq by (simpl in Hq; lia).
      rewrite orb_false_r.
      change (startswith old ((y :: q) ++ star :: star :: star :: star :: X) = false).
      rewrite startswith_before_star by exact old_plain.
      apply startswith_short. exact Hq. }
  apply Hgen. rewrite length_take. lia.
Qed.

Lemma redacted_free (n : nat) : forall s : str,
  length s <= n -> str_in old (R s) = false.
Proof.
  induction n as [|n IH]; intros s Hlen.
  - destruct s; [|simpl in Hlen; lia]. simpl. rewrite orb_false_r.
    apply startswith_short. simpl. lia.
  - destruct s as [|c s].
    + simpl. rewrite orb_false_r. apply startswith_short. simpl. lia.
    + destruct (startswith old (c :: s)) eqn:Hhit.
      * unfold R. rewrite replace_from_hit by (auto using old_nonempty).
        apply old_not_in_mask. apply IH.
        rewrite length_drop. simpl in Hlen |- *. lia.
      * unfold R. rewrite replace_from_miss by exact Hhit.
        cbn [str_in]. fold (R s). rewrite (IH s) by (simpl in Hlen; lia).
        rewrite orb_false_r.
        destruct (startswith old (c :: R s)) eqn:E; [|reflexivity].
        assert (HR : R (c :: s) = c :: R s)
          by (unfold R; apply replace_from_miss; exact Hhit).
        rewrite <- HR in E.
        apply (redacted_head (S (length s)) (c :: s) old) in E;
          [congruence | simpl; lia | exact old_plain].
Qed.

End Replace.

Lemma redact_long (api_key err : str) :
  4 < length api_key ->
  redact api_key err = replace_from api_key (mask_of api_key) 0 err.
Proof.
  intros Hlen. unfold redact, replace.
  destruct api_key as [|k ks]; [simpl in Hlen; lia|].
  apply Nat.ltb_lt in Hlen. rewrite Hlen. reflexivity.
Qed.

(** C2 as stated fails: a credential of at most four characters is not
    redacted at all (the guard [len(api_key) > 4]), and a credential that
    contains the mask character can reappear inside its own mask. *)
Lemma redact_leaks_short_or_starred :
  str_in (lit "k3y!")
    (connect_error_log (lit "k3y!") (lit "403 Forbidden for key k3y!")) = true
  /\ str_in (lit "k3y!")
    (wf_error_signal
       (worker_on_exception (lit "k3y!") (lit "403 Forbidden for key k3y!") [])) = true
  /\ str_in (lit "abcd*")
    (wf_error_signal
       (worker_on_exception (lit "abcd*") (lit "invalid key abcd*") [])) = true.
Proof. repeat split; vm_compute; reflexivity. Qed.

(** C2 (amended): for a credential of more than four characters that
    does not contain the mask character ["*"], the error text that the
    handlers surface after redaction (the message of the error signal,
    the message logged by [run_conversion] after its fixed prefix, and the
    traceback) does not contain the credential as a substring, whatever
    the text of the failure was. *)
Theorem redact_hides_credential (api_key err tb : str) :
  4 < length api_key ->
  char_in "*"%char api_key = false ->
  str_in api_key (redact api_key err) = false
  /\ str_in api_key (wf_error_signal (worker_on_exception api_key err tb)) = false
  /\ str_in api_key (wf_log_traceback (worker_on_exception api_key err tb)) = false.
Proof.
  intros Hlen Hplain. cbn [worker_on_exception wf_error_signal wf_log_traceback].
  rewrite !redact_long by exact Hlen.
  repeat split; eapply redacted_free; eauto.
Qed.

Lemma redact_hides_credential_witness :
  str_in (lit "P9NiFoyLeZu2bZNvvuQPDWsd")
    (redact (lit "P9NiFoyLeZu2bZNvvuQPDWsd")
       (lit "GET /users/1/items?key=P9NiFoyLeZu2bZNvvuQPDWsd: 403")) = false.
Proof.
  refine (proj1 (redact_hides_credential (lit "P9NiFoyLeZu2bZNvvuQPDWsd")
            (lit "GET /users/1/items?key=P9NiFoyLeZu2bZNvvuQPDWsd: 403")
            [] _ _)).
  - vm_compute. lia.
  - vm_compute. reflexivity.
Defined.

End RedactionFacts.

(** ** Integrity verifier *)

Section VerifierFacts.

Lemma walk_begin (elem : element) (l : list element) (k : Z) :
  get elem FLD_CHAR_TYPE [] = lit "begin" -> (0 <= k)%Z ->
  walk_fld_chars k (elem :: l) = walk_fld_chars (k + 1) l.
Proof.
  intros Hty Hk. cbn [walk_fld_chars]. rewrite Hty.
  change (eqb_str (lit "begin") (lit "begin")) with true. cbn iota.
  replace (k + 1 <? 0)%Z with false by (symmetry; apply Z.ltb_ge; lia).
  reflexivity.
Qed.

Lemma walk_end (elem : element) (l : list element) (k : Z) :
  get elem FLD_CHAR_TYPE [] = lit "end" -> (0 < k)%Z ->
  walk_fld_chars k (elem :: l) = walk_fld_chars (k - 1) l.
Proof.
  intros Hty Hk. cbn [walk_fld_chars]. rewrite Hty.
  change (eqb_str (lit "end") (lit "begin")) with false.
  change (eqb_str (lit "end") (lit "end")) with true. cbn iota.
  replace (k - 1 <? 0)%Z with false by (symmetry; apply Z.ltb_ge; lia).
  reflexivity.
Qed.

Lemma walk_other (elem : element) (l : list element) (k : Z) :
  eqb_str (get elem FLD_CHAR_TYPE []) (lit "begin") = false ->
  eqb_str (get elem FLD_CHAR_TYPE []) (lit "end") = false ->
  (0 <= k)%Z ->
  walk_fld_chars k (elem :: l) = walk_fld_chars k l.
Proof.
  intros Hb He Hk. cbn [walk_fld_chars]. rewrite Hb, He.
  replace (k <? 0)%Z with false by (symmetry; apply Z.ltb_ge; lia).
  reflexivity.
Qed.

(** Without an "end" marker the counter never drops: the walk runs to
    the end of the markers and counts the "begin" ones. *)
Lemma walk_without_end (l : list element) : forall k : Z,
  (0 <= k)%Z ->
  count_type "end" (map (fun e => get e FLD_CHAR_TYPE []) l) = 0 ->
  walk_fld_chars k l =
  ((k + Z.of_nat (count_type "begin" (map (fun e => get e FLD_CHAR_TYPE []) l)))%Z,
   false).
Proof.
  unfold count_type.
  induction l as [|e l IH]; intros k Hk Hend; cbn [walk_fld_chars map List.filter].
  - simpl. f_equal. lia.
  - cbn [map List.filter] in Hend.
    destruct (eqb_str (get e FLD_CHAR_TYPE []) (lit "begin")) eqn:Hb.
    + assert (He : eqb_str (get e FLD_CHAR_TYPE []) (lit "end") = false).
      { apply eqb_str_true in Hb. rewrite Hb. reflexivity. }
      rewrite He in Hend.
      replace (k + 1 <? 0)%Z with false by (symmetry; apply Z.ltb_ge; lia).
      rewrite IH by (lia || exact Hend).
      cbn [length]. f_equal. lia.
    + destruct (eqb_str (get e FLD_CHAR_TYPE []) (lit "end")) eqn:He.
      * cbn [length] in Hend. discriminate.
      * replace (k <? 0)%Z with false by (symmetry; apply Z.ltb_ge; lia).
        apply IH; assumption.
Qed.

Lemma filter_sdt_issues (p : str -> bool) (l : list element) :
  p ISSUE_SDT_NO_CONTENT = false ->
  List.filter p (flat_map (fun sdt => match find (w "sdtContent") sdt with
                                 | None => [ISSUE_SDT_NO_CONTENT]
                                 | Some _ => []
                                 end) l) = [].
Proof.
  intros Hp. induction l as [|e l IH]; [reflexivity|].
  cbn [flat_map]. rewrite List.filter_app, IH, app_nil_r.
  destruct (find (w "sdtContent") e); [reflexivity|].
  cbn [List.filter]. rewrite Hp. reflexivity.
Qed.

Lemma filter_body_issue (p : str -> bool) (root : element) :
  p ISSUE_NO_BODY = false ->
  List.filter p (match find (w "body") root with
            | None => [ISSUE_NO_BODY]
            | Some _ => []
            end) = [].
Proof.
  intros Hp. destruct (find (w "body") root); [reflexivity|].
  cbn [List.filter]. rewrite Hp. reflexivity.
Qed.

(** C8: on a tree whose field-character markers hold exactly one "begin"
    and no "end", [verify_document_integrity] returns a list of issues
    (it is a total function: nothing in it can raise) that holds exactly
    one unclosed-field issue, the one for a counter of 1, and no
    unmatched-end issue. *)
Theorem verify_one_unclosed_begin (root : element) :
  count_type "begin" (fld_char_types root) = 1 ->
  count_type "end" (fld_char_types root) = 0 ->
  List.filter is_unclosed_issue (verify_document_integrity root)
    = [lit "1 unclosed field(s) detected (begin without end)"]
  /\ List.filter is_unmatched_end_issue (verify_document_integrity root) = [].
Proof.
  intros Hbegin Hend. unfold verify_document_integrity, fld_char_types in *.
  rewrite (walk_without_end _ 0%Z) by (lia || exact Hend).
  rewrite Hbegin. change (0 + Z.of_nat 1)%Z with 1%Z.
  change (0 <? 1)%Z with true. cbn iota.
  rewrite !List.filter_app, !filter_body_issue, !filter_sdt_issues
    by (vm_compute; reflexivity).
  split; vm_compute; reflexivity.
Qed.

Lemma verify_one_unclosed_begin_witness :
  List.filter is_unclosed_issue (verify_document_integrity sample_unclosed)
    = [lit "1 unclosed field(s) detected (begin without end)"]
  /\ List.filter is_unmatched_end_issue (verify_document_integrity sample_unclosed) = [].
Proof.
  apply (verify_one_unclosed_begin sample_unclosed); vm_compute; reflexivity.
Defined.

End VerifierFacts.

(** ** Field-code synthesizer *)

Section FieldGenFacts.

Lemma take_plus {A} (a b : nat) (l : list A) :
  take (a + b) l = take a l ++ take b (drop a l).
Proof.
  revert l. induction a as [|a IH]; intros l; [reflexivity|].
  destruct l as [|x l]; simpl.
  - rewrite take_nil. reflexivity.
  - rewrite IH. reflexivity.
Qed.

Lemma concat_chunks_take (size : nat) (s : str) (m : nat) :
  concat (map (fun i => slice i (i + size) s) (map (fun k => k * size) (seq 0 m)))
  = take (m * size) s.
Proof.
  induction m as [|m IH]; [reflexivity|].
  rewrite seq_S, !map_app, concat_app, IH. cbn [map concat plus].
  rewrite app_nil_r. unfold slice.
  replace (m * size + size - m * size) with size by lia.
  replace (S m * size) with (m * size + size) by lia.
  rewrite take_plus. reflexivity.
Qed.

(** Chunking loses nothing: the chunks, put together again, are the
    string. *)
Lemma concat_chunks (size : nat) (s : str) :
  0 < size -> concat (chunks size s) = s.
Proof.
  intros Hsize. unfold chunks, range_step. rewrite concat_chunks_take.
  apply take_ge.
  pose proof (Nat.div_mod_eq (length s + size - 1) size) as Hdm.
  pose proof (Nat.mod_upper_bound (length s + size - 1) size) as Hub.
  nia.
Qed.

Lemma chunks_bounded (size : nat) (s : str) :
  Forall (fun c => length c <= size) (chunks size s).
Proof.
  unfold chunks. apply List.Forall_forall. intros c Hc.
  apply in_map_iff in Hc as [i [<- _]]. unfold slice.
  rewrite length_take. lia.
Qed.

Lemma iter_tag_app_runs (tag : str) (a b : list element) :
  flat_map (iter_tag tag) (a ++ b)
  = flat_map (iter_tag tag) a ++ flat_map (iter_tag tag) b.
Proof. apply flat_map_app. Qed.

Lemma instr_runs_fld_chars (cs : list str) : forall n,
  flat_map (iter_tag (w "fldChar")) (fst (instr_runs n cs)) = [].
Proof.
  induction cs as [|c cs IH]; intros n; [reflexivity|].
  cbn [instr_runs instr_run]. destruct (instr_runs (n + 2) cs) as [rs n2] eqn:E.
  cbn [fst flat_map]. specialize (IH (n + 2)). rewrite E in IH. cbn [fst] in IH.
  rewrite IH. reflexivity.
Qed.

Lemma instr_runs_texts (cs : list str) : forall n,
  concat (map instr_text_of (fst (instr_runs n cs))) = concat cs.
Proof.
  induction cs as [|c cs IH]; intros n; [reflexivity|].
  cbn [instr_runs instr_run]. destruct (instr_runs (n + 2) cs) as [rs n2] eqn:E.
  cbn [fst map concat]. specialize (IH (n + 2)). rewrite E in IH. cbn [fst] in IH.
  rewrite IH. f_equal. unfold instr_text_of. 
  change (iter_tag (w "instrText")
            (new_element n (w "r") [] None
               [new_element (n + 1) (w "instrText") [(XML_SPACE, lit "preserve")]
                  (Some c) []]))
    with [new_element (n + 1) (w "instrText") [(XML_SPACE, lit "preserve")]
            (Some c) []].
  cbn. apply app_nil_r.
Qed.

Lemma instr_runs_bounded (cs : list str) : forall n,
  Forall (fun c => length c <= 250) cs ->
  Forall (fun r => length (instr_text_of r) <= 250) (fst (instr_runs n cs)).
Proof.
  induction cs as [|c cs IH]; intros n Hcs; [constructor|].
  cbn [instr_runs instr_run]. destruct (instr_runs (n + 2) cs) as [rs n2] eqn:E.
  cbn [fst]. inversion Hcs as [|? ? Hc Hcs']; subst. constructor.
  - change (instr_text_of _) with (c ++ []). rewrite app_nil_r. exact Hc.
  - specialize (IH (n + 2) Hcs'). rewrite E in IH. exact IH.
Qed.

(** C9: the runs built by [create_zotero_field_xml] hold exactly three
    field-character markers, "begin", "separate" and "end" in that order;
    the first run is the "begin" marker and the last run the "end" marker;
    the instruction-text chunks, concatenated, are the whole instruction
    string (each chunk at most 250 characters long); and the verifier's
    counter, walked over the runs from any non-negative value, comes back
    to that value without reporting an unmatched end, so a tree that was
    balanced stays balanced when the runs are spliced in. *)
Theorem create_zotero_field_xml_shape (n : nat) (citation_json_str display_text : str) :
  let runs := fst (create_zotero_field_xml n citation_json_str display_text) in
  map (fun e => get e FLD_CHAR_TYPE []) (flat_map (iter_tag (w "fldChar")) runs)
    = [lit "begin"; lit "separate"; lit "end"]
  /\ (exists r rest, runs = r :: rest /\ fld_char_types r = [lit "begin"])
  /\ (exists front r, runs = front ++ [r] /\ fld_char_types r = [lit "end"])
  /\ concat (map instr_text_of runs) = citation_instr_text citation_json_str
  /\ Forall (fun r => length (instr_text_of r) <= 250) runs
  /\ (forall k : Z, (0 <= k)%Z ->
        walk_fld_chars k (flat_map (iter_tag (w "fldChar")) runs) = (k, false)).
Proof.
  unfold create_zotero_field_xml. cbn [fld_char_run].
  pose proof (instr_runs_fld_chars
                (chunks chunk_size (citation_instr_text citation_json_str)) (n + 2)) as Hfc.
  pose proof (instr_runs_texts
                (chunks chunk_size (citation_instr_text citation_json_str)) (n + 2)) as Htx.
  pose proof (instr_runs_bounded
                (chunks chunk_size (citation_instr_text citation_json_str)) (n + 2)
                (chunks_bounded _ _)) as Hbd.
  destruct (instr_runs (n + 2) _) as [rs n2]. cbn [fst] in *.
  assert (Hmarks : flat_map (iter_tag (w "fldChar"))
            ([new_element n (w "r") [] None
                [new_element (n + 1) (w "fldChar") [(FLD_CHAR_TYPE, lit "begin")] None []]]
             ++ rs ++
             [new_element n2 (w "r") [] None
                [new_element (n2 + 1) (w "fldChar") [(FLD_CHAR_TYPE, lit "separate")] None []];
              new_element (n2 + 2) (w "r") [] None
                [new_element (n2 + 2 + 1) (w "rPr") [] None
                   [new_element (n2 + 2 + 2) (w "noProof") [] None []];
                 new_element (n2 + 2 + 3) (w "t") [(XML_SPACE, lit "preserve")]
                   (Some display_text) []];
              new_element (n2 + 2 + 4) (w "r") [] None
                [new_element (n2 + 2 + 4 + 1) (w "fldChar") [(FLD_CHAR_TYPE, lit "end")] None []]])
          = [new_element (n + 1) (w "fldChar") [(FLD_CHAR_TYPE, lit "begin")] None [];
             new_element (n2 + 1) (w "fldChar") [(FLD_CHAR_TYPE, lit "separate")] None [];
             new_element (n2 + 2 + 4 + 1) (w "fldChar") [(FLD_CHAR_TYPE, lit "end")] None []]).
  { rewrite !iter_tag_app_runs, Hfc. reflexivity. }
  repeat split.
  - rewrite Hmarks. reflexivity.
  - eexists _, _. split; reflexivity.
  - eexists (_ :: rs ++ [_; _]), _.
    split; [cbn [app]; rewrite <- app_assoc; reflexivity | reflexivity].
  - rewrite !map_app, !concat_app, Htx.
    rewrite concat_chunks by (unfold chunk_size; lia).
    change (concat (map instr_text_of [_])) with (@nil ascii) at 1.
    cbn [app]. apply app_nil_r.
  - apply Forall_app. split; [|apply Forall_app; split].
    + repeat constructor.
    + exact Hbd.
    + repeat constructor.
  - intros k Hk. rewrite Hmarks.
    rewrite walk_begin by (reflexivity || lia).
    rewrite walk_other by (reflexivity || lia).
    rewrite walk_end by (reflexivity || lia).
    cbn [walk_fld_chars]. f_equal. lia.
Qed.

End FieldGenFacts.

Section BibliographyFacts.

(** C10: on a tree whose root has no body child, [add_zotero_bibl_at_end]
    returns [False] and hands back the tree as it was: no paragraph or
    field is inserted and no element is created.  The function is total on
    trees, so nothing is raised. *)
Theorem add_zotero_bibl_no_body (n : nat) (root : element) (style_uri : str) :
  find (w "body") root = None ->
  add_zotero_bibl_at_end n root style_uri = (false, root, n).
Proof. intros Hbody. unfold add_zotero_bibl_at_end. rewrite Hbody. reflexivity. Qed.

Lemma add_zotero_bibl_no_body_witness :
  add_zotero_bibl_at_end 3
    (Element 0 (w "document") [] None
       [Element 1 (w "p") [] None
          [Element 2 (w "r") [] None []]])
    (lit "http://www.zotero.org/styles/apa")
  = (false,
     Element 0 (w "document") [] None
       [Element 1 (w "p") [] None
          [Element 2 (w "r") [] None []]],
     3).
Proof.
  apply (add_zotero_bibl_no_body 3
           (Element 0 (w "document") [] None
              [Element 1 (w "p") [] None [Element 2 (w "r") [] None []]])).
  vm_compute. reflexivity.
Defined.

End BibliographyFacts.

(** ** Archive access *)

Section ArchiveFacts.

(** C1, the failing input: with the extraction root
    [/tmp/tmpab12cd/docx_contents], the member [../docx_contents_evil/x]
    resolves to [/tmp/tmpab12cd/docx_contents_evil/x], a location outside
    the root, yet the validation loop accepts it (the resolved path starts
    with the characters of the root) and the archive is handed to
    [extractall]; members that leave the root by another name are
    refused before anything is extracted. *)
Lemma zip_slip_sibling_accepted :
  let extract_dir := extract_dir_of (lit "/tmp/tmpab12cd") in
  realpath (path_join extract_dir (lit "../docx_contents_evil/x"))
    = lit "/tmp/tmpab12cd/docx_contents_evil/x"
  /\ resolves_inside extract_dir (lit "../docx_contents_evil/x") = false
  /\ extract_step extract_dir [lit "word/document.xml"; lit "../docx_contents_evil/x"]
     = Return [lit "word/document.xml"; lit "../docx_contents_evil/x"]
  /\ raised (extract_step extract_dir [lit "word/document.xml"; lit "../../x"]) = true.
Proof. repeat split; vm_compute; reflexivity. Qed.

(** Induction over directory trees. *)
Lemma dir_induction (P : dir -> Prop) :
  (forall files subdirs, Forall (fun nd => P (snd nd)) subdirs -> P (Dir files subdirs)) ->
  forall d, P d.
Proof.
  intros H. fix IH 1. intros [files subdirs]. apply H.
  induction subdirs as [|[name sub] subdirs IHs]; constructor.
  - apply IH.
  - exact IHs.
Qed.

Lemma join_comps_sep (rel : list str) (file : str) :
  rel <> [] -> In SEP (join_comps (rel ++ [file])).
Proof.
  intros Hrel. destruct rel as [|c rel]; [congruence|].
  cbn [app join_comps]. destruct (rel ++ [file]) eqn:E.
  - destruct rel; discriminate.
  - rewrite <- E. apply in_or_app. right. left. reflexivity.
Qed.

Lemma walk_entries_below (rel : list str) (files : list str) :
  rel <> [] ->
  Forall (fun e => snd e = ZIP_DEFLATED /\ fst e <> CONTENT_TYPES)
         (walk_entries false rel files).
Proof.
  intros Hrel. unfold walk_entries.
  induction files as [|f files IH]; [constructor|].
  cbn [flat_map]. rewrite andb_false_r. cbn [app]. constructor; [|exact IH].
  split; [reflexivity|]. cbn [fst]. intros Heq.
  pose proof (join_comps_sep rel f Hrel) as Hin. rewrite Heq in Hin.
  apply char_in_In in Hin. vm_compute in Hin. discriminate.
Qed.

Lemma walk_entries_top (files : list str) :
  Forall (fun e => snd e = ZIP_DEFLATED /\ fst e <> CONTENT_TYPES)
         (walk_entries true [] files).
Proof.
  unfold walk_entries. induction files as [|f files IH]; [constructor|].
  cbn [flat_map]. rewrite andb_true_r.
  destruct (eqb_str f CONTENT_TYPES) eqn:E; cbn [app]; [exact IH|].
  constructor; [|exact IH]. split; [reflexivity|].
  cbn [fst app join_comps]. intros Heq. rewrite Heq, eqb_str_refl in E.
  discriminate.
Qed.

Lemma walk_below (d : dir) : forall rel,
  rel <> [] ->
  Forall (fun e => snd e = ZIP_DEFLATED /\ fst e <> CONTENT_TYPES)
         (flat_map (fun '(rel, files) =>
                      walk_entries (match rel with [] => true | _ => false end) rel files)
                   (walk rel d)).
Proof.
  induction d as [files subdirs IH] using dir_induction. intros rel Hrel.
  cbn [walk flat_map]. apply Forall_app. split.
  - destruct rel; [congruence|]. apply walk_entries_below. discriminate.
  - induction subdirs as [|[name sub] subdirs IHs]; [constructor|].
    inversion IH as [|? ? Hsub Hrest]; subst.
    cbn [flat_map]. rewrite flat_map_app. apply Forall_app. split.
    + apply Hsub. destruct rel; discriminate.
    + apply IHs. exact Hrest.
Qed.

(** C7: when the extracted tree holds the content-types part as a file
    directly under the extraction root, the repacking step writes it as
    the first member of the output archive, stored uncompressed; every
    member written after it is compressed (deflated) and none of them is
    the content-types part again. *)
Theorem repack_content_types_first (d : dir) :
  content_types_is_file d = true ->
  exists rest,
    repack d = (CONTENT_TYPES, ZIP_STORED) :: rest
    /\ Forall (fun e => snd e = ZIP_DEFLATED /\ fst e <> CONTENT_TYPES) rest.
Proof.
  intros Hct. unfold repack. rewrite Hct. cbn [app].
  eexists. split; [reflexivity|].
  destruct d as [files subdirs]. cbn [walk flat_map]. apply Forall_app. split.
  - apply walk_entries_top.
  - clear Hct. induction subdirs as [|[name sub] subdirs IHs]; [constructor|].
    cbn [flat_map]. rewrite flat_map_app. apply Forall_app. split.
    + apply walk_below. discriminate.
    + exact IHs.
Qed.

Lemma repack_content_types_first_witness :
  exists rest,
    repack (Dir [lit ".rels"; CONTENT_TYPES]
              [(lit "word", Dir [lit "document.xml"; lit "styles.xml"] []);
               (lit "docProps", Dir [lit "core.xml"] [])])
      = (CONTENT_TYPES, ZIP_STORED) :: rest
    /\ Forall (fun e => snd e = ZIP_DEFLATED /\ fst e <> CONTENT_TYPES) rest.
Proof.
  apply (repack_content_types_first
           (Dir [lit ".rels"; CONTENT_TYPES]
              [(lit "word", Dir [lit "document.xml"; lit "styles.xml"] []);
               (lit "docProps", Dir [lit "core.xml"] [])])).
  vm_compute. reflexivity.
Defined.

End ArchiveFacts.

(** ** Further properties of the matcher *)

Section MatcherProps.

Lemma find_first {A} (f : A -> bool) (pre post : list A) (x : A) :
  f x = true -> (forall y, In y pre -> f y = false) ->
  List.find f (pre ++ x :: post) = Some x.
Proof.
  intros Hx Hpre. induction pre as [|y pre IH]; cbn [app List.find].
  - rewrite Hx. reflexivity.
  - rewrite (Hpre y (or_introl eq_refl)). apply IH.
    intros z Hz. apply Hpre. right. exact Hz.
Qed.

Lemma find_match_items (m : matcher) (ci : citation_info) :
  all_items (snd (find_match m ci)) = all_items m.
Proof.
  unfold find_match. destruct (cache m !! cache_key ci); [reflexivity|].
  destruct (doi_match _ _); [reflexivity|].
  destruct (isbn_match _ _); reflexivity.
Qed.

(** X1: a second query with the same record returns what the first one
    returned and leaves the matcher as the first one left it: the result
    is served from the memo. *)
Theorem find_match_memoised (m : matcher) (ci : citation_info) :
  find_match (snd (find_match m ci)) ci
  = (fst (find_match m ci), snd (find_match m ci)).
Proof.
  unfold find_match at 2 3 4.
  destruct (cache m !! cache_key ci) as [r|] eqn:E.
  - cbn [fst snd]. unfold find_match. rewrite E. reflexivity.
  - destruct (doi_match (all_items m) ci) as [it|];
      [|destruct (isbn_match (all_items m) ci) as [it|]];
      cbn [fst snd]; unfold find_match; cbn [cache remember];
      rewrite lookup_insert_eq; reflexivity.
Qed.

(** X2: a record whose DOI, compared without case and surrounding
    blanks, is the non-empty DOI of an entry is resolved to the first such
    entry of the index, whatever its title, authors and year are. *)
Theorem find_match_doi_exact (m : matcher) (ci : citation_info) (d : str)
    (pre post : list item) (it : item) :
  cache m !! cache_key ci = None ->
  ci_doi ci = Some d ->
  all_items m = pre ++ it :: post ->
  norm_doi d <> [] ->
  norm_doi (DOI (data it)) = norm_doi d ->
  (forall x, In x pre -> norm_doi (DOI (data x)) <> norm_doi d) ->
  fst (find_match m ci) = Some it.
Proof.
  intros Hcache Hdoi Hitems Hne Hit Hpre. unfold find_match.
  rewrite Hcache. unfold doi_match. rewrite Hdoi, Hitems.
  fold (norm_doi d). rewrite find_first; [reflexivity | |].
  - fold (norm_doi (DOI (data it))). rewrite Hit, eqb_str_refl, andb_true_r.
    destruct (norm_doi d); [congruence | reflexivity].
  - intros x Hx. fold (norm_doi (DOI (data x))).
    destruct (eqb_str (norm_doi (DOI (data x))) (norm_doi d)) eqn:E.
    + apply eqb_str_true in E. elim (Hpre x Hx E).
    + apply andb_false_r.
Qed.

Lemma find_match_doi_exact_witness :
  fst (find_match id_matcher (doi_record "10.1000/xyz123"))
  = Some (entry_ids "ART1" " 10.1000/XYZ123 " "" "2011" "First article").
Proof.
  apply (find_match_doi_exact id_matcher (doi_record "10.1000/xyz123")
           (lit "10.1000/xyz123")
           [entry_ids "NOID" "" "" "2001" "An entry without identifiers";
            entry_ids "BOOK1" "" "978-3-16-148410-0" "1999" "A handbook"]
           [entry_ids "ART2" "10.1000/xyz123" "" "2012" "Second article"]).
  - vm_compute. reflexivity.
  - reflexivity.
  - reflexivity.
  - vm_compute. discriminate.
  - vm_compute. reflexivity.
  - intros x [<- | [<- | []]]; vm_compute; discriminate.
Defined.

(** Removing the matches of a one-character class keeps the other
    characters. *)
Lemma sub_from_class (p : ascii -> bool) (s : str) : forall prev,
  sub_from (Chr p) prev 0 s = List.filter (fun c => negb (p c)) s.
Proof.
  induction s as [|c s IH]; intros prev; [reflexivity|].
  cbn [sub_from match_at match_k List.filter].
  destruct (p c); cbn [negb].
  - replace (length (c :: s) - length s) with 1 by (cbn [length]; lia).
    apply IH.
  - rewrite IH. reflexivity.
Qed.

(** X3: the ISBN comparison ignores blanks and hyphens and nothing else:
    what is compared is the ISBN with exactly those characters removed,
    the other characters kept in order. *)
Theorem isbn_digits_filter (s : str) :
  isbn_digits s
  = List.filter (fun c => negb (is_space c || eqb_char c "-"%char)) s.
Proof. unfold isbn_digits, sub_empty, RE_ISBN_NOISE. apply sub_from_class. Qed.

(** X4: a record without a DOI match whose ISBN, blanks and hyphens
    apart, is the non-empty ISBN of an entry is resolved to the first such
    entry, before any scoring. *)
Theorem find_match_isbn_exact (m : matcher) (ci : citation_info) (i : str)
    (pre post : list item) (it : item) :
  cache m !! cache_key ci = None ->
  doi_match (all_items m) ci = None ->
  ci_isbn ci = Some i ->
  all_items m = pre ++ it :: post ->
  isbn_digits i <> [] ->
  isbn_digits (ISBN (data it)) = isbn_digits i ->
  (forall x, In x pre -> isbn_digits (ISBN (data x)) <> isbn_digits i) ->
  fst (find_match m ci) = Some it.
Proof.
  intros Hcache Hdoi Hisbn Hitems Hne Hit Hpre. unfold find_match.
  rewrite Hcache, Hdoi. unfold isbn_match. rewrite Hisbn, Hitems.
  rewrite find_first; [reflexivity | |].
  - rewrite Hit, eqb_str_refl, andb_true_r.
    destruct (isbn_digits i); [congruence | reflexivity].
  - intros x Hx.
    destruct (eqb_str (isbn_digits (ISBN (data x))) (isbn_digits i)) eqn:E.
    + apply eqb_str_true in E. elim (Hpre x Hx E).
    + apply andb_false_r.
Qed.

Lemma find_match_isbn_exact_witness :
  fst (find_match id_matcher (isbn_record "9783161484100"))
  = Some (entry_ids "BOOK1" "" "978-3-16-148410-0" "1999" "A handbook").
Proof.
  apply (find_match_isbn_exact id_matcher (isbn_record "9783161484100")
           (lit "9783161484100")
           [entry_ids "NOID" "" "" "2001" "An entry without identifiers"]
           [entry_ids "ART1" " 10.1000/XYZ123 " "" "2011" "First article";
            entry_ids "ART2" "10.1000/xyz123" "" "2012" "Second article"]).
  - vm_compute. reflexivity.
  - reflexivity.
  - reflexivity.
  - reflexivity.
  - vm_compute. discriminate.
  - vm_compute. reflexivity.
  - intros x [<- | []]; vm_compute; discriminate.
Defined.

(** Whatever [find_match] returns is an entry of the library, and the
    memo stays sound. *)
Lemma find_match_sound (m : matcher) (ci : citation_info) :
  cache_sound m ->
  cache_sound (snd (find_match m ci))
  /\ forall it, fst (find_match m ci) = Some it -> In it (all_items m).
Proof.
  intros Hs. unfold find_match.
  destruct (cache m !! cache_key ci) as [r|] eqn:E.
  - cbn [fst snd]. split; [exact Hs|]. intros it ->. apply (Hs _ _ E).
  - assert (Hins : forall r : option item,
              (forall it, r = Some it -> In it (all_items m)) ->
              cache_sound (remember m (cache_key ci) r)).
    { intros r Hr k it. unfold remember. cbn [cache all_items].
      destruct (decide (cache_key ci = k)) as [->|Hne].
      - rewrite lookup_insert_eq. intros H. injection H as ->. apply Hr. reflexivity.
      - rewrite lookup_insert_ne by exact Hne. apply Hs. }
    destruct (doi_match (all_items m) ci) as [it|] eqn:Ed.
    { assert (Hin : In it (all_items m)).
      { unfold doi_match in Ed. destruct (ci_doi ci); [|discriminate].
        apply find_some in Ed. tauto. }
      cbn [fst snd]. split.
      - apply Hins. intros x Hx. injection Hx as <-. exact Hin.
      - intros x Hx. injection Hx as <-. exact Hin. }
    destruct (isbn_match (all_items m) ci) as [it|] eqn:Ei.
    { assert (Hin : In it (all_items m)).
      { unfold isbn_match in Ei. destruct (ci_isbn ci); [|discriminate].
        apply find_some in Ei. tauto. }
      cbn [fst snd]. split.
      - apply Hins. intros x Hx. injection Hx as <-. exact Hin.
      - intros x Hx. injection Hx as <-. exact Hin. }
    cbn [fst snd].
    assert (Hin : forall it, fuzzy_match (all_items m) ci = Some it ->
                             In it (all_items m)).
    { intros it Hit. unfold fuzzy_match in Hit.
      pose proof (fuzzy_loop_first_maximum (score ci) (all_items m)) as H.
      rewrite Hit in H. destruct H as [pre [post [-> _]]].
      apply in_or_app. right. left. reflexivity. }
    split; [apply Hins; exact Hin | exact Hin].
Qed.

Lemma find_match_step (m : matcher) (ci : citation_info) :
  cache_sound m -> sound_step m (find_match m ci).
Proof.
  intros Hs. destruct (find_match_sound m ci Hs) as [H1 H2].
  split; [apply find_match_items | split; assumption].
Qed.

Lemma sound_step_trans (m : matcher) (m1 : matcher) (r : option item * matcher) :
  all_items m1 = all_items m -> sound_step m1 r -> sound_step m r.
Proof.
  intros Hi [H1 [H2 H3]]. split; [congruence | split; [exact H2|]].
  intros it Hit. rewrite <- Hi. apply H3. exact Hit.
Qed.

Lemma try_candidates_step (year : str) (candidates : list str) :
  forall m, cache_sound m -> sound_step m (try_candidates m year candidates).
Proof.
  induction candidates as [|c rest IH]; intros m Hs.
  - split; [reflexivity | split; [exact Hs | discriminate]].
  - cbn [try_candidates].
    destruct (find_match_step m (author_year c year) Hs) as [H1 [H2 H3]].
    destruct (find_match m (author_year c year)) as [[it|] m1]; cbn [fst snd] in *.
    + split; [exact H1 | split; [exact H2 | exact H3]].
    + apply (sound_step_trans m m1); [exact H1 | apply IH; exact H2].
Qed.

Lemma match_group_step (m : matcher) (g : group) :
  cache_sound m -> sound_step m (match_group m g).
Proof.
  intros Hs. unfold match_group.
  destruct (try_candidates_step (g_year g) (g_candidates g) m Hs) as [H1 [H2 H3]].
  destruct (try_candidates m (g_year g) (g_candidates g)) as [[it|] m1];
    cbn [fst snd] in *.
  - split; [exact H1 | split; [exact H2 | exact H3]].
  - apply (sound_step_trans m m1); [exact H1|].
    destruct (2 <? length (split_ws (g_primary_author g))).
    + destruct (negb (eqb_str _ (g_primary_author g))).
      * destruct (find_match_step m1
                    (author_year (strip (sub_empty RE_TRAILING_INITIAL (g_author_portion g)))
                       (g_year g)) H2) as [K1 [K2 K3]].
        destruct (find_match m1 _) as [[it|] m2]; cbn [fst snd] in *.
        -- split; [exact K1 | split; [exact K2 | exact K3]].
        -- apply (sound_step_trans m1 m2); [exact K1|].
           apply find_match_step. exact K2.
      * apply find_match_step. exact H2.
    + split; [reflexivity | split; [exact H2 | discriminate]].
Qed.

Lemma match_parts_sound (parts : list str) : forall m,
  cache_sound m ->
  all_items (snd (match_parts m parts)) = all_items m
  /\ cache_sound (snd (match_parts m parts))
  /\ Forall (fun it => In it (all_items m)) (fst (match_parts m parts))
  /\ length (fst (match_parts m parts)) <= length (omap parse_part parts).
Proof.
  induction parts as [|part rest IH]; intros m Hs.
  - cbn [match_parts fst snd omap length].
    split; [reflexivity | split; [exact Hs | split; [constructor | lia]]].
  - cbn [match_parts].
    change (omap parse_part (part :: rest))
      with (match parse_part part with
            | Some y => y :: omap parse_part rest
            | None => omap parse_part rest
            end).
    destruct (parse_part part) as [g|].
    + destruct (match_group_step m g Hs) as [H1 [H2 H3]].
      destruct (match_group m g) as [result m1]; cbn [fst snd] in *.
      destruct (IH m1 H2) as [K1 [K2 [K3 K4]]].
      destruct (match_parts m1 rest) as [matches m2]; cbn [fst snd] in *.
      split; [congruence | split; [exact K2 | split]].
      * rewrite H1 in K3. destruct result as [it|]; [constructor|]; auto.
      * cbn [length]. destruct result; cbn [length]; lia.
    + apply IH. exact Hs.
Qed.

(** X5: matching by display text returns entries of the library only, at
    most one for each citation group of the text, in the order of the
    groups' resolution; it leaves the library as it was and the memo
    sound. *)
Theorem find_match_by_display_text_sound (m : matcher) (display_text : str) :
  cache_sound m ->
  Forall (fun it => In it (all_items m))
         (fst (find_match_by_display_text m display_text))
  /\ length (fst (find_match_by_display_text m display_text))
     <= length (display_groups display_text)
  /\ all_items (snd (find_match_by_display_text m display_text)) = all_items m
  /\ cache_sound (snd (find_match_by_display_text m display_text)).
Proof.
  intros Hs. unfold find_match_by_display_text, display_groups.
  destruct display_text as [|c t].
  - cbn [fst snd length].
    split; [constructor | split; [lia | split; [reflexivity | exact Hs]]].
  - destruct (match_parts_sound (display_parts (c :: t)) m Hs) as [H1 [H2 [H3 H4]]].
    split; [exact H3 | split; [exact H4 | split; [exact H1 | exact H2]]].
Qed.

Lemma find_match_by_display_text_sound_witness :
  Forall (fun it => In it (all_items sample_matcher))
         (fst (find_match_by_display_text sample_matcher
                 (lit "(Smith 2019; Nobody 1900; no year here)")))
  /\ length (fst (find_match_by_display_text sample_matcher
                    (lit "(Smith 2019; Nobody 1900; no year here)")))
     <= length (display_groups (lit "(Smith 2019; Nobody 1900; no year here)"))
  /\ all_items (snd (find_match_by_display_text sample_matcher
                       (lit "(Smith 2019; Nobody 1900; no year here)")))
     = all_items sample_matcher
  /\ cache_sound (snd (find_match_by_display_text sample_matcher
                         (lit "(Smith 2019; Nobody 1900; no year here)"))).
Proof.
  apply (find_match_by_display_text_sound sample_matcher
           (lit "(Smith 2019; Nobody 1900; no year here)")).
  intros k it H. cbn [sample_matcher cache] in H.
  rewrite lookup_empty in H. discriminate.
Defined.

End MatcherProps.

(** ** Further properties of the display-text parser *)

Section DisplayProps.

Lemma match_at_year (prev : option ascii) (s : str) :
  match_at RE_YEAR prev s
  = match s with
    | a :: b :: c :: d :: rest =>
        if is_digit a && is_digit b && is_digit c && is_digit d
        then Some rest else None
    | _ => None
    end.
Proof.
  unfold match_at, RE_YEAR. cbn [seq_re match_k digit].
  destruct s as [|a [|b [|c [|d rest]]]]; cbn [match_k];
    repeat match goal with
           | |- context [is_digit ?x] => destruct (is_digit x); cbn [andb]
           end; reflexivity.
Qed.

Lemma search_from_year (s : str) : forall prev i a b,
  search_from RE_YEAR prev s i = Some (a, b) ->
  exists k, a = i + k /\ b = a + 4 /\ 4 <= length (drop k s)
            /\ forallb is_digit (take 4 (drop k s)) = true.
Proof.
  induction s as [|c s IH]; intros prev i a b H.
  - cbn [search_from] in H. rewrite match_at_year in H. discriminate.
  - cbn [search_from] in H. rewrite match_at_year in H.
    destruct s as [|c2 [|c3 [|c4 rest]]] eqn:Es;
      try (rewrite <- Es in *; destruct (IH _ _ _ _ H) as [k [-> [-> [Hl Hd]]]];
           exists (S k); cbn [drop]; repeat split; try lia; assumption).
    destruct (is_digit c && is_digit c2 && is_digit c3 && is_digit c4) eqn:Ed.
    + injection H as <- <-. exists 0. cbn [drop take length forallb].
      repeat split; try lia.
      apply andb_true_iff in Ed as [Ed H4]. apply andb_true_iff in Ed as [Ed H3].
      apply andb_true_iff in Ed as [H1 H2]. rewrite H1, H2, H3, H4. reflexivity.
    + rewrite <- Es in *. destruct (IH _ _ _ _ H) as [k [-> [-> [Hl Hd]]]].
      exists (S k). cbn [drop]. repeat split; try lia; assumption.
Qed.

(** X6: every citation group the parser derives from a part of a display
    text carries a year of exactly four digits, taken from the part; a
    part without four digits in a row gives no group. *)
Theorem parse_part_year (part : str) :
  (forall g, parse_part part = Some g ->
     length (g_year g) = 4 /\ forallb is_digit (g_year g) = true
     /\ str_in (g_year g) part = true)
  /\ (search RE_YEAR (strip part) = None -> parse_part part = None).
Proof.
  split.
  - intros g H. unfold parse_part in H.
    destruct (eqb_str (strip part) []); [discriminate|].
    destruct (search RE_YEAR (strip part)) as [[ys ye]|] eqn:E; [|discriminate].
    cbv zeta in H.
    repeat match type of H with
           | (if ?c then None else _) = Some _ => destruct c; [discriminate|]
           end.
    assert (Hy : g_year g = slice ys ye (strip part)).
    { pose proof (f_equal (fun o => match o with
                                    | Some g' => g_year g'
                                    | None => []
                                    end) H) as Hy.
      cbv beta iota delta [g_year] in Hy. symmetry. exact Hy. }
    rewrite Hy. clear H Hy.
    apply search_from_year in E as [k [-> [-> [Hl Hd]]]]. cbn [plus].
    unfold slice. replace (k + 4 - k) with 4 by lia.
    repeat split.
    + rewrite length_take. lia.
    + exact Hd.
    + apply str_in_infix.
      destruct (lstrip_by_suffix is_space part) as [pre Hpre].
      destruct (rstrip_by_prefix is_space (lstrip_by is_space part)) as [suf Hsuf].
      fold (strip_by is_space part) in Hsuf. fold (strip part) in Hsuf.
      exists (pre ++ take k (strip part)), (drop 4 (drop k (strip part)) ++ suf).
      rewrite Hpre at 1. rewrite Hsuf at 1.
      rewrite <- (take_drop k (strip part)) at 1.
      rewrite <- (take_drop 4 (drop k (strip part))) at 1.
      rewrite <- !app_assoc. reflexivity.
  - intros E. unfold parse_part. rewrite E.
    destruct (eqb_str (strip part) []); reflexivity.
Qed.

End DisplayProps.

(** ** Further properties of the redaction *)

Section RedactProps.

Lemma replace_from_without (old new : str) (s : str) :
  str_in old s = false -> replace_from old new 0 s = s.
Proof.
  induction s as [|c s IH]; intros H; [reflexivity|].
  cbn [str_in] in H. apply orb_false_elim in H as [Hhead Htail].
  rewrite replace_from_miss by exact Hhead. rewrite IH by exact Htail.
  reflexivity.
Qed.

(** X7: a failure text in which the credential does not occur is
    surfaced unchanged: the redaction alters nothing but occurrences of
    the credential. *)
Theorem redact_without_credential (api_key err : str) :
  str_in api_key err = false -> redact api_key err = err.
Proof.
  intros H. unfold redact. destruct api_key as [|k ks]; [reflexivity|].
  destruct (4 <? length (k :: ks)); [|reflexivity].
  unfold replace. apply replace_from_without. exact H.
Qed.

Lemma redact_without_credential_witness :
  redact (lit "P9NiFoyLeZu2bZNvvuQPDWsd") (lit "HTTP 503: try again later")
  = lit "HTTP 503: try again later".
Proof.
  apply (redact_without_credential (lit "P9NiFoyLeZu2bZNvvuQPDWsd")
           (lit "HTTP 503: try again later")).
  vm_compute. reflexivity.
Defined.

(** A text without blanks that occurs in a line made of a prefix ending
    in a blank and a message occurs in the prefix or in the message. *)
Lemma str_in_after_blank (key prefix msg : str) (b : ascii) :
  no_blank key = true -> is_space b = true ->
  str_in key ((prefix ++ [b]) ++ msg) = true ->
  str_in key (prefix ++ [b]) = true \/ str_in key msg = true.
Proof.
  intros Hkey Hb H. apply str_in_infix in H as [x [y H]].
  apply app_eq_app in H as [l [[H1 H2] | [H1 H2]]].
  - (* the occurrence starts inside the prefix *)
    apply app_eq_app in H2 as [l' [[H3 H4] | [H3 H4]]].
    + (* it runs into the message: then it holds the blank, or starts at
         the message *)
      destruct l as [|c l].
      * right. apply str_in_infix. exists [], y. cbn [app] in *. subst.
        reflexivity.
      * exfalso.
        assert (Hin : In b (c :: l)).
        { destruct (exists_last (l := c :: l) ltac:(discriminate)) as [l0 [z Hz]].
          rewrite Hz in H1. rewrite app_assoc in H1.
          apply app_inj_tail in H1 as [_ ->]. rewrite Hz.
          apply in_or_app. right. left. reflexivity. }
        assert (Hk : In b key) by (rewrite H3; apply in_or_app; left; exact Hin).
        unfold no_blank in Hkey. rewrite forallb_forall in Hkey.
        specialize (Hkey b Hk). rewrite Hb in Hkey. discriminate.
    + (* it ends inside the prefix *)
      left. apply str_in_infix. exists x, l'. rewrite H1, H3. reflexivity.
  - right. apply str_in_infix. exists l, y. exact H2.
Qed.

(** X8: the line [run_conversion] logs for a failed connection does not
    contain the credential, for a credential of more than four characters
    without ["*"] and without blanks that is not part of the fixed words of
    the line. *)
Theorem connect_error_log_hides_credential (api_key err : str) :
  4 < length api_key ->
  char_in "*"%char api_key = false ->
  no_blank api_key = true ->
  str_in api_key (lit "ERROR: Could not connect to Zotero: ") = false ->
  str_in api_key (connect_error_log api_key err) = false.
Proof.
  intros Hlen Hstar Hblank Hfixed. unfold connect_error_log.
  destruct (str_in api_key (lit "ERROR: Could not connect to Zotero: "
                            ++ redact api_key err)) eqn:E; [|reflexivity].
  change (lit "ERROR: Could not connect to Zotero: ")
    with (lit "ERROR: Could not connect to Zotero:" ++ [" "%char]) in E, Hfixed.
  apply (str_in_after_blank api_key _ _ " "%char Hblank eq_refl) in E as [E | E].
  - congruence.
  - rewrite redact_long in E by exact Hlen.
    rewrite (redacted_free api_key Hlen Hstar (length err) err (le_n _)) in E.
    discriminate.
Qed.

Lemma connect_error_log_hides_credential_witness :
  str_in (lit "P9NiFoyLeZu2bZNvvuQPDWsd")
    (connect_error_log (lit "P9NiFoyLeZu2bZNvvuQPDWsd")
       (lit "403 for url .../items?key=P9NiFoyLeZu2bZNvvuQPDWsd")) = false.
Proof.
  apply (connect_error_log_hides_credential (lit "P9NiFoyLeZu2bZNvvuQPDWsd")
           (lit "403 for url .../items?key=P9NiFoyLeZu2bZNvvuQPDWsd")).
  - vm_compute. lia.
  - vm_compute. reflexivity.
  - vm_compute. reflexivity.
  - vm_compute. reflexivity.
Defined.

End RedactProps.

(** ** Further properties of the verifier and of the display text *)

Section VerifyProps.

(** The loop is left with [break] only on a negative counter, and ends
    on a non-negative one otherwise. *)
Lemma walk_fld_chars_sign (l : list element) : forall k k' broke,
  (0 <= k)%Z -> walk_fld_chars k l = (k', broke) ->
  if broke then (k' < 0)%Z else (0 <= k')%Z.
Proof.
  induction l as [|e l IH]; intros k k' broke Hk H.
  - cbn [walk_fld_chars] in H. injection H as <- <-. exact Hk.
  - cbn [walk_fld_chars] in H.
    set (k1 := if eqb_str (get e FLD_CHAR_TYPE []) (lit "begin") then (k + 1)%Z
               else if eqb_str (get e FLD_CHAR_TYPE []) (lit "end") then (k - 1)%Z
               else k) in *.
    destruct (k1 <? 0)%Z eqn:E.
    + injection H as <- <-. apply Z.ltb_lt. exact E.
    + apply (IH k1); [apply Z.ltb_ge; exact E | exact H].
Qed.

Lemma unclosed_is_not_unmatched (k : Z) :
  is_unmatched_end_issue (issue_unclosed k) = false.
Proof.
  unfold is_unmatched_end_issue.
  destruct (eqb_str (issue_unclosed k) ISSUE_UNMATCHED_END) eqn:E; [|reflexivity].
  apply eqb_str_true in E. apply (f_equal (@last ascii)) in E.
  unfold issue_unclosed in E.
  change (lit " unclosed field(s) detected (begin without end)")
    with (lit " unclosed field(s) detected (begin without end" ++ [")"%char]) in E.
  rewrite app_assoc, last_snoc in E. vm_compute in E. discriminate.
Qed.

(** X9: the verifier reports at most one issue about the pairing of the
    field markers: an unmatched "end" or a number of unclosed fields,
    never both in one run. *)
Theorem verify_one_field_issue (root : element) :
  length (List.filter is_unmatched_end_issue (verify_document_integrity root))
  + length (List.filter is_unclosed_issue (verify_document_integrity root)) <= 1.
Proof.
  unfold verify_document_integrity.
  destruct (walk_fld_chars 0 (iter_tag (w "fldChar") root)) as [k broke] eqn:E.
  pose proof (walk_fld_chars_sign _ 0%Z k broke ltac:(lia) E) as Hsign.
  rewrite !List.filter_app, !filter_body_issue, !filter_sdt_issues
    by (vm_compute; reflexivity).
  rewrite !app_nil_r. destruct broke.
  - replace (0 <? k)%Z with false by (symmetry; apply Z.ltb_ge; lia).
    vm_compute. lia.
  - destruct (0 <? k)%Z; cbn [List.filter app length].
    + rewrite unclosed_is_not_unmatched.
      destruct (is_unclosed_issue (issue_unclosed k)); cbn [length]; lia.
    + lia.
Qed.

(** Without a "separate" marker the loop over the content region never
    enters the display part. *)
Lemma display_walk_no_separate (l : list element) :
  (forall e, In e l ->
     eqb_str (localname (e_tag e)) (lit "fldChar")
     && eqb_str (get e FLD_CHAR_TYPE []) (lit "separate") = false) ->
  display_walk false l = [].
Proof.
  induction l as [|e l IH]; intros H; [reflexivity|].
  cbn [display_walk]. pose proof (H e (or_introl eq_refl)) as He.
  destruct (eqb_str (localname (e_tag e)) (lit "fldChar")).
  - cbn [andb] in He. rewrite He.
    destruct (eqb_str (get e FLD_CHAR_TYPE []) (lit "end")); cbn [andb app];
      apply IH; intros x Hx; apply H; right; exact Hx.
  - cbn [andb app]. apply IH. intros x Hx. apply H. right. exact Hx.
Qed.

(** X10: a placeholder whose content region holds no "separate" field
    marker, or that has no content region, has the empty display text,
    whatever text runs it contains: only text between a "separate" and an
    "end" marker is read. *)
Theorem display_text_needs_separate (sdt : element) :
  (forall sdt_content e,
     find (w "sdtContent") sdt = Some sdt_content -> In e (iter sdt_content) ->
     eqb_str (localname (e_tag e)) (lit "fldChar")
     && eqb_str (get e FLD_CHAR_TYPE []) (lit "separate") = false) ->
  extract_citavi_display_text sdt = [].
Proof.
  intros H. unfold extract_citavi_display_text.
  destruct (find (w "sdtContent") sdt) as [sc|]; [|reflexivity].
  rewrite display_walk_no_separate; [reflexivity|].
  intros e He. apply (H sc e eq_refl He).
Qed.

Lemma display_text_needs_separate_witness :
  extract_citavi_display_text
    (Element 1 (w "sdt") [] None
       [Element 2 (w "sdtContent") [] None
          [Element 3 (w "r") [] None
             [Element 4 (w "t") [] (Some (lit "(Smith 2019)")) []]]])
  = [].
Proof.
  apply (display_text_needs_separate
           (Element 1 (w "sdt") [] None
              [Element 2 (w "sdtContent") [] None
                 [Element 3 (w "r") [] None
                    [Element 4 (w "t") [] (Some (lit "(Smith 2019)")) []]]])).
  intros sc e Hsc He. vm_compute in Hsc. injection Hsc as <-.
  cbn in He. destruct He as [<- | [<- | [<- | []]]]; vm_compute; reflexivity.
Defined.

End VerifyProps.

(** ** Further properties of the archive access *)

Section ArchiveProps.

Lemma join_comps_app (r more : list str) :
  r <> [] -> more <> [] ->
  join_comps (r ++ more) = join_comps r ++ SEP :: join_comps more.
Proof.
  intros Hr Hm. induction r as [|c r IH]; [congruence|].
  destruct r as [|c' r].
  - cbn [app join_comps]. destruct more; [congruence | reflexivity].
  - specialize (IH ltac:(discriminate)).
    change (join_comps ((c :: c' :: r) ++ more))
      with (c ++ SEP :: join_comps ((c' :: r) ++ more)).
    rewrite IH.
    change (join_comps (c :: c' :: r)) with (c ++ SEP :: join_comps (c' :: r)).
    rewrite <- app_assoc. reflexivity.
Qed.

Lemma comps_prefix_app (r p : list str) :
  comps_prefix r p = true -> exists more, p = r ++ more.
Proof.
  revert p. induction r as [|c r IH]; intros p H.
  - exists p. reflexivity.
  - destruct p as [|d p]; [discriminate|]. cbn [comps_prefix] in H.
    apply andb_true_iff in H as [Hc Hr]. apply eqb_str_true in Hc as ->.
    destruct (IH p Hr) as [more ->]. exists more. reflexivity.
Qed.

Lemma realpath_inside (r more : list str) :
  startswith (SEP :: join_comps r) (SEP :: join_comps (r ++ more)) = true.
Proof.
  apply startswith_prefix. destruct r as [|c r].
  - exists (join_comps more). reflexivity.
  - destruct more as [|m more].
    + exists []. rewrite !app_nil_r. reflexivity.
    + exists (SEP :: join_comps (m :: more)).
      rewrite join_comps_app by discriminate. reflexivity.
Qed.

(** X11: an archive whose members all resolve to the extraction root or
    below it passes the validation, and all its members are handed to the
    extraction: the check raises no false alarm, whatever ["."], [".."]
    or doubled separators the member names contain. *)
Theorem extract_step_accepts_inside (extract_dir : str) (members : list str) :
  (forall member, In member members -> resolves_inside extract_dir member = true) ->
  extract_step extract_dir members = Return members.
Proof.
  intros H. unfold extract_step.
  assert (Hv : validate_members extract_dir members = Return tt).
  { induction members as [|m ms IH]; [reflexivity|]. cbn [validate_members].
    pose proof (H m (or_introl eq_refl)) as Hm. unfold resolves_inside in Hm.
    apply comps_prefix_app in Hm as [more Hmore].
    unfold realpath. fold (resolved_comps (path_join extract_dir m)).
    fold (resolved_comps extract_dir). rewrite Hmore, realpath_inside.
    cbn [negb]. apply IH. intros x Hx. apply H. right. exact Hx. }
  rewrite Hv. reflexivity.
Qed.

Lemma extract_step_accepts_inside_witness :
  extract_step (lit "/tmp/tmpab12cd/docx_contents")
    [lit "[Content_Types].xml"; lit "word/document.xml";
     lit "word//media/../_rels/./document.xml.rels"]
  = Return [lit "[Content_Types].xml"; lit "word/document.xml";
            lit "word//media/../_rels/./document.xml.rels"].
Proof.
  apply (extract_step_accepts_inside (lit "/tmp/tmpab12cd/docx_contents")).
  intros m [<- | [<- | [<- | []]]]; vm_compute; reflexivity.
Defined.

Lemma walk_rel_nonempty (d : dir) : forall rel0 rel files,
  rel0 <> [] -> In (rel, files) (walk rel0 d) -> rel <> [].
Proof.
  induction d as [fs subdirs IH] using dir_induction. intros rel0 rel files Hne Hin.
  cbn [walk] in Hin. destruct Hin as [Heq | Hin].
  - injection Heq as <- _. exact Hne.
  - apply in_flat_map in Hin as [[name sub] [Hsub Hin]].
    rewrite List.Forall_forall in IH.
    apply (IH (name, sub) Hsub (rel0 ++ [name]) rel files); [|exact Hin].
    destruct rel0; discriminate.
Qed.

(** X12: repacking loses no file: every file that [os.walk] lists, in
    whatever directory of the extracted tree, is a member of the output
    archive under its path relative to the extraction root. *)
Theorem repack_keeps_every_file (d : dir) (rel : list str) (files : list str)
    (file : str) :
  In (rel, files) (walk [] d) -> In file files ->
  In (join_comps (rel ++ [file])) (map fst (repack d)).
Proof.
  intros Hwalk Hfile. unfold repack. rewrite map_app. apply in_or_app.
  destruct (eqb_str file CONTENT_TYPES
            && match rel with [] => true | _ => false end) eqn:Eskip.
  - (* the content-types part at the top: written first *)
    left. apply andb_true_iff in Eskip as [Ef Er].
    apply eqb_str_true in Ef. subst file. destruct rel; [|discriminate].
    assert (Hroot : files = d_files d).
    { destruct d as [fs subdirs]. cbn [walk] in Hwalk.
      destruct Hwalk as [Heq | Hin]; [injection Heq as <-; reflexivity|].
      exfalso. apply in_flat_map in Hin as [[name sub] [_ Hin]].
      apply (walk_rel_nonempty sub ([] ++ [name]) [] files);
        [discriminate | exact Hin | reflexivity]. }
    assert (Hct : content_types_is_file d = true).
    { unfold content_types_is_file. apply existsb_exists.
      exists CONTENT_TYPES. rewrite <- Hroot. split; [exact Hfile | apply eqb_str_refl]. }
    rewrite Hct. left. reflexivity.
  - right. apply in_map_iff. exists (join_comps (rel ++ [file]), ZIP_DEFLATED).
    split; [reflexivity|]. apply in_flat_map. exists (rel, files).
    split; [exact Hwalk|]. unfold walk_entries. apply in_flat_map.
    exists file. split; [exact Hfile|]. rewrite Eskip. left. reflexivity.
Qed.

Lemma repack_keeps_every_file_witness :
  In (join_comps ([lit "word"; lit "media"] ++ [lit "image1.png"]))
     (map fst (repack (Dir [CONTENT_TYPES]
                         [(lit "word",
                           Dir [lit "document.xml"]
                             [(lit "media", Dir [lit "image1.png"] [])])]))).
Proof.
  apply (repack_keeps_every_file _ [lit "word"; lit "media"] [lit "image1.png"]).
  - vm_compute. right. right. left. reflexivity.
  - left. reflexivity.
Defined.

Lemma split_on_no_sep (s : str) : Forall (fun c => ~ In SEP c) (split_on SEP s).
Proof.
  induction s as [|x s IH]; [repeat constructor; intros []|].
  cbn [split_on]. destruct (eqb_char x SEP) eqn:E.
  - constructor; [intros [] | exact IH].
  - destruct (split_on SEP s) as [|h r]; [repeat constructor|].
    + intros [Hx | []]. rewrite Hx, eqb_char_refl in E. discriminate.
    + inversion IH as [|? ? Hh Hr]; subst. constructor; [|exact Hr].
      intros [Hx | Hin]; [rewrite Hx, eqb_char_refl in E; discriminate | auto].
Qed.

Lemma resolve_step_proper (stack : list str) (name : str) :
  Forall proper_comp stack -> ~ In SEP name ->
  Forall proper_comp (resolve_step stack name).
Proof.
  intros Hs Hn. unfold resolve_step.
  destruct (eqb_str name []) eqn:E; cbn [orb]; [exact Hs|].
  destruct (eqb_str name (lit ".")); [exact Hs|].
  destruct (eqb_str name (lit "..")).
  - rewrite List.Forall_forall in *. intros x Hx. apply Hs.
    destruct stack as [|a st]; [destruct Hx|].
    destruct (exists_last (l := a :: st) ltac:(discriminate)) as [l0 [z Hz]].
    rewrite Hz in *. rewrite removelast_last in Hx. apply in_or_app. left. exact Hx.
  - apply Forall_app. split; [exact Hs|]. constructor; [|constructor].
    split; [|exact Hn]. intros ->. rewrite eqb_str_refl in E. discriminate.
Qed.

Lemma resolved_comps_proper (path : str) : Forall proper_comp (resolved_comps path).
Proof.
  unfold resolved_comps. pose proof (split_on_no_sep path) as H.
  assert (Hgen : forall names stack,
            Forall (fun c => ~ In SEP c) names -> Forall proper_comp stack ->
            Forall proper_comp (fold_left resolve_step names stack)).
  { induction names as [|n names IH]; intros stack Hn Hs; [exact Hs|].
    inversion Hn; subst. cbn [fold_left]. apply IH; [assumption|].
    apply resolve_step_proper; assumption. }
  apply Hgen; [exact H | constructor].
Qed.

(** Two texts up to their first separator that start the same string are
    equal. *)
Lemma startswith_upto_sep (a b x y : str) :
  ~ In SEP a -> ~ In SEP b ->
  startswith (a ++ SEP :: x) (b ++ SEP :: y) = true ->
  a = b /\ startswith x y = true.
Proof.
  revert b. induction a as [|c a IH]; intros b Ha Hb H.
  - destruct b as [|d b].
    + cbn [app startswith] in H. apply andb_true_iff in H as [_ H]. auto.
    + cbn [app startswith] in H. apply andb_true_iff in H as [H _].
      apply eqb_char_true in H. subst d. elim Hb. left. reflexivity.
  - destruct b as [|d b].
    + cbn [app startswith] in H. apply andb_true_iff in H as [H _].
      apply eqb_char_true in H. subst c. elim Ha. left. reflexivity.
    + cbn [app startswith] in H. apply andb_true_iff in H as [Hc H].
      apply eqb_char_true in Hc. subst d.
      destruct (IH b) as [-> Hxy]; [| | exact H | split; [reflexivity | exact Hxy]].
      * intros Hin. apply Ha. right. exact Hin.
      * intros Hin. apply Hb. right. exact Hin.
Qed.

Lemma startswith_sep_free (a x b : str) :
  ~ In SEP b -> startswith (a ++ SEP :: x) b = false.
Proof.
  intros Hb. destruct (startswith (a ++ SEP :: x) b) eqn:E; [|reflexivity].
  apply startswith_prefix in E as [t ->]. elim Hb.
  apply in_or_app. left. apply in_or_app. right. left. reflexivity.
Qed.

Lemma startswith_first_comp (a b y : str) :
  ~ In SEP a -> startswith a (b ++ SEP :: y) = true -> startswith a b = true.
Proof.
  revert b. induction a as [|c a IH]; intros b Ha H; [reflexivity|].
  destruct b as [|d b]; cbn [app startswith] in *.
  - apply andb_true_iff in H as [H _]. apply eqb_char_true in H. subst c.
    elim Ha. left. reflexivity.
  - apply andb_true_iff in H as [Hc H]. rewrite Hc. cbn [andb].
    apply IH; [|exact H]. intros Hin. apply Ha. right. exact Hin.
Qed.

(** What a string prefix between joined paths means for the components:
    all components of the shorter path but the last are components of the
    longer one, and its last component starts the next component of the
    longer one. *)
Lemma join_comps_prefix (r : list str) : forall p,
  r <> [] -> Forall proper_comp r -> Forall proper_comp p ->
  startswith (join_comps r) (join_comps p) = true ->
  exists r0 l x rest, r = r0 ++ [l] /\ p = r0 ++ (l ++ x) :: rest.
Proof.
  induction r as [|c r IH]; intros p Hne Hr Hp H; [congruence|].
  inversion Hr as [|? ? [Hc1 Hc2] Hr']; subst.
  destruct p as [|q p].
  - destruct r; cbn [join_comps] in H; destruct c; try congruence; discriminate.
  - inversion Hp as [|? ? [Hq1 Hq2] Hp']; subst.
    destruct r as [|c' r].
    + (* the last component of the root *)
      assert (Hcq : startswith c q = true).
      { destruct p as [|q' p]; [exact H|].
        change (join_comps (q :: q' :: p)) with (q ++ SEP :: join_comps (q' :: p)) in H.
        apply (startswith_first_comp c q _ Hc2 H). }
      apply startswith_prefix in Hcq as [x ->].
      exists [], c, x, p. split; reflexivity.
    + change (join_comps (c :: c' :: r)) with (c ++ SEP :: join_comps (c' :: r)) in H.
      destruct p as [|q' p].
      * cbn [join_comps] in H. rewrite startswith_sep_free in H by exact Hq2.
        discriminate.
      * change (join_comps (q :: q' :: p)) with (q ++ SEP :: join_comps (q' :: p)) in H.
        apply startswith_upto_sep in H as [-> H]; [|assumption|assumption].
        destruct (IH (q' :: p) ltac:(discriminate) Hr' Hp' H)
          as [r0 [l [x [rest [E1 E2]]]]].
        exists (q :: r0), l, x, rest. cbn [app]. rewrite E1, E2. split; reflexivity.
Qed.

Lemma validate_members_prefix (extract_dir : str) (members : list str) :
  validate_members extract_dir members = Return tt ->
  forall member, In member members ->
    startswith (realpath extract_dir)
               (realpath (path_join extract_dir member)) = true.
Proof.
  induction members as [|m ms IH]; intros H member Hin; [destruct Hin|].
  cbn [validate_members] in H.
  destruct (startswith (realpath extract_dir) (realpath (path_join extract_dir m)))
    eqn:E; cbn [negb] in H; [|discriminate].
  destruct Hin as [<- | Hin]; [exact E | apply IH; assumption].
Qed.

(** X13: what the validation does guarantee.  When it accepts an archive
    whose extraction root is not the file-system root, every member
    resolves to a location under the parent directory of the extraction
    root, and the component that follows the parent starts with the name of
    the extraction root: a member can leave the root only into a sibling
    whose name extends the root's. *)
Theorem validate_members_guarantee (extract_dir : str) (members : list str) :
  resolved_comps extract_dir <> [] ->
  validate_members extract_dir members = Return tt ->
  forall member, In member members ->
    exists parent name suffix rest,
      resolved_comps extract_dir = parent ++ [name]
      /\ resolved_comps (path_join extract_dir member)
         = parent ++ (name ++ suffix) :: rest.
Proof.
  intros Hroot Hv member Hin.
  pose proof (validate_members_prefix extract_dir members Hv member Hin) as H.
  unfold realpath in H. cbn [startswith] in H.
  apply andb_true_iff in H as [_ H].
  apply (join_comps_prefix _ _ Hroot (resolved_comps_proper _)
           (resolved_comps_proper _) H).
Qed.

Lemma validate_members_guarantee_witness :
  exists parent name suffix rest,
    resolved_comps (lit "/tmp/tmpab12cd/docx_contents") = parent ++ [name]
    /\ resolved_comps (path_join (lit "/tmp/tmpab12cd/docx_contents")
                         (lit "../docx_contents_evil/x"))
       = parent ++ (name ++ suffix) :: rest.
Proof.
  apply (validate_members_guarantee (lit "/tmp/tmpab12cd/docx_contents")
           [lit "word/document.xml"; lit "../docx_contents_evil/x"]).
  - vm_compute. discriminate.
  - vm_compute. reflexivity.
  - right. left. reflexivity.
Defined.

End ArchiveProps.

(** ** Trees: splicing runs and appending the bibliography *)

Section TreeProps.

Lemma element_induction (P : element -> Prop) :
  (forall u t a x cs, Forall P cs -> P (Element u t a x cs)) ->
  forall e, P e.
Proof.
  intros H. fix IH 1. intros [u t a x cs]. apply H.
  induction cs as [|c cs IHcs]; constructor; [apply IH | exact IHcs].
Qed.

Lemma iter_unfold (e : element) : iter e = e :: flat_map iter (e_children e).
Proof. destruct e. reflexivity. Qed.

Lemma iter_self (e : element) : In e (iter e).
Proof. rewrite iter_unfold. left. reflexivity. Qed.

Lemma iter_child (e c d : element) :
  In c (e_children e) -> In d (iter c) -> In d (iter e).
Proof.
  intros Hc Hd. rewrite iter_unfold. right. apply in_flat_map. eauto.
Qed.

Lemma insert_at_split {A} (i : nat) (x : A) (l : list A) :
  take (S i) (insert_at i x l) = take i l ++ [x]
  /\ drop (S i) (insert_at i x l) = drop i l.
Proof.
  unfold insert_at. revert l. induction i as [|i IH]; intros l.
  - rewrite take_0, drop_0. cbn [app take drop]. rewrite ?take_0, ?drop_0.
    split; reflexivity.
  - destruct l as [|y l].
    + rewrite take_nil, drop_nil. cbn [app take drop].
      rewrite ?take_nil, ?drop_nil. split; reflexivity.
    + destruct (IH l) as [H1 H2].
      change (take (S i) (y :: l)) with (y :: take i l).
      change (drop (S i) (y :: l)) with (drop i l).
      change (take (S (S i)) ((y :: take i l) ++ x :: drop i l))
        with (y :: take (S i) (take i l ++ x :: drop i l)).
      change (drop (S (S i)) ((y :: take i l) ++ x :: drop i l))
        with (drop (S i) (take i l ++ x :: drop i l)).
      rewrite H1, H2. split; reflexivity.
Qed.

(** The loop [for i, run in enumerate(runs): parent.insert(idx + i, run)]
    puts the runs, in order, between the first [idx] children and the
    rest. *)
Lemma insert_runs_contiguous (runs : list element) : forall idx cs,
  insert_runs idx runs cs = take idx cs ++ runs ++ drop idx cs.
Proof.
  induction runs as [|r runs IH]; intros idx cs.
  - cbn [insert_runs app]. symmetry. apply take_drop.
  - cbn [insert_runs]. rewrite IH. replace (idx + 1) with (S idx) by lia.
    destruct (insert_at_split idx r cs) as [H1 H2]. rewrite H1, H2.
    rewrite <- app_assoc. reflexivity.
Qed.

Lemma index_of_split (u : nat) (l1 l2 : list element) (c : element) :
  e_uid c = u -> (forall x, In x l1 -> e_uid x <> u) ->
  index_of u (l1 ++ c :: l2) = Some (length l1)
  /\ remove_uid u (l1 ++ c :: l2) = l1 ++ l2.
Proof.
  intros Hc Hl1. induction l1 as [|x l1 IH]; cbn [app index_of remove_uid length].
  - apply Nat.eqb_eq in Hc. rewrite Hc. split; reflexivity.
  - assert (Hx : (e_uid x =? u) = false)
      by (apply Nat.eqb_neq; apply Hl1; left; reflexivity).
    rewrite Hx. destruct IH as [H1 H2]; [intros y Hy; apply Hl1; right; exact Hy|].
    rewrite H1, H2. split; reflexivity.
Qed.

(** X14: replacing a placeholder among its siblings.  Under a paragraph
    the runs of the field take exactly its place, in order, between the
    siblings before it and those after it; under any other parent a new
    paragraph holding the runs takes its place.  Nothing else among the
    siblings changes. *)
Theorem spliced_children_in_place (pu : nat) (parent_tag : str) (u : nat)
    (runs l1 l2 : list element) (sdt : element) :
  e_uid sdt = u -> (forall x, In x l1 -> e_uid x <> u) ->
  spliced_children pu parent_tag u runs (l1 ++ sdt :: l2)
  = Some (if eqb_str (localname parent_tag) (lit "p")
          then l1 ++ runs ++ l2
          else l1 ++ (new_element pu (w "p") [] None runs :: l2)).
Proof.
  intros Hc Hl1. unfold spliced_children.
  destruct (index_of_split u l1 l2 sdt Hc Hl1) as [H1 H2]. rewrite H1, H2.
  destruct (eqb_str (localname parent_tag) (lit "p")).
  - rewrite insert_runs_contiguous.
    rewrite take_app_length, drop_app_length. reflexivity.
  - unfold insert_at. rewrite take_app_length, drop_app_length. reflexivity.
Qed.

Lemma spliced_children_in_place_witness :
  spliced_children 9 (w "p") 2
    [Element 7 (w "r") [] None []; Element 8 (w "r") [] None []]
    ([Element 1 (w "r") [] None []]
     ++ Element 2 (w "sdt") [] None [] :: [Element 3 (w "r") [] None []])
  = Some (if eqb_str (localname (w "p")) (lit "p")
          then [Element 1 (w "r") [] None []]
               ++ [Element 7 (w "r") [] None []; Element 8 (w "r") [] None []]
               ++ [Element 3 (w "r") [] None []]
          else [Element 1 (w "r") [] None []]
               ++ (new_element 9 (w "p") [] None
                     [Element 7 (w "r") [] None []; Element 8 (w "r") [] None []]
                   :: [Element 3 (w "r") [] None []])).
Proof.
  apply (spliced_children_in_place 9 (w "p") 2
           [Element 7 (w "r") [] None []; Element 8 (w "r") [] None []]
           [Element 1 (w "r") [] None []] [Element 3 (w "r") [] None []]
           (Element 2 (w "sdt") [] None [])).
  - reflexivity.
  - intros x [<- | []]. cbn. lia.
Defined.

Lemma update_children_reaches (root body p : element) (cs' : list element) :
  find (w "body") root = Some body -> In p cs' ->
  forall x, In x (iter p) ->
    In x (iter (update_children (e_uid body) (fun _ => cs') root)).
Proof.
  intros Hbody Hp x Hx. destruct root as [ru rt ra rx rcs].
  cbn [update_children]. destruct (ru =? e_uid body) eqn:E.
  - apply (iter_child _ p); [exact Hp | exact Hx].
  - unfold find in Hbody. cbn [e_children] in Hbody.
    apply find_some in Hbody as [Hin _].
    apply (iter_child _ (update_children (e_uid body) (fun _ => cs') body)).
    + cbn [e_children]. apply in_map. exact Hin.
    + destruct body as [bu bt ba bx bcs]. cbn [e_uid update_children].
      rewrite Nat.eqb_refl. apply (iter_child _ p); [exact Hp | exact Hx].
Qed.

Lemma bibl_paragraph_marks (n : nat) (style_uri : str) :
  existsb (fun instr => match text_nonempty instr with
                        | Some t => str_in (lit "ZOTERO_BIBL") t
                        | None => false
                        end)
          (List.filter (fun x => eqb_str (e_tag x) (w "instrText"))
             (iter (new_element n (w "p") [] None
                      (fst (create_zotero_bibl_field_xml (n + 1) style_uri)))))
  = true.
Proof. vm_compute. reflexivity. Qed.

Lemma has_zotero_bibl_from (root p : element) :
  (forall x, In x (iter p) -> In x (iter root)) ->
  existsb (fun instr => match text_nonempty instr with
                        | Some t => str_in (lit "ZOTERO_BIBL") t
                        | None => false
                        end)
          (List.filter (fun x => eqb_str (e_tag x) (w "instrText")) (iter p)) = true ->
  has_zotero_bibl root = true.
Proof.
  intros Hsub H. unfold has_zotero_bibl, iter_tag.
  apply existsb_exists in H as [x [Hx Ht]]. apply existsb_exists. exists x.
  split; [|exact Ht]. apply filter_In in Hx as [Hx Htag].
  apply filter_In. split; [apply Hsub; exact Hx | exact Htag].
Qed.

(** X15: appending the bibliography twice.  After a call of
    [add_zotero_bibl_at_end] that inserted the bibliography paragraph, a
    further call on the resulting tree returns [False] and leaves the tree
    as it is, whatever style it is given. *)
Theorem add_zotero_bibl_twice (n : nat) (root : element) (style_uri : str) :
  fst (fst (add_zotero_bibl_at_end n root style_uri)) = true ->
  forall n2 style2,
    add_zotero_bibl_at_end n2
      (snd (fst (add_zotero_bibl_at_end n root style_uri))) style2
    = (false, snd (fst (add_zotero_bibl_at_end n root style_uri)), n2).
Proof.
  intros Hadded n2 style2. unfold add_zotero_bibl_at_end in Hadded |- * at 2 3.
  destruct (find (w "body") root) as [body|] eqn:Hbody; [|discriminate].
  destruct (has_zotero_bibl root); [discriminate|].
  destruct (create_zotero_bibl_field_xml (n + 1) style_uri) as [bibl_runs n1] eqn:Eruns.
  cbn [fst snd] in *.
  set (p := new_element n (w "p") [] None bibl_runs).
  set (cs' := match find (w "sectPr") body with
              | Some sect_pr =>
                  match index_of (e_uid sect_pr) (e_children body) with
                  | Some i => insert_at i p (e_children body)
                  | None => e_children body ++ [p]
                  end
              | None => e_children body ++ [p]
              end).
  assert (Hp : In p cs').
  { unfold cs'. destruct (find (w "sectPr") body) as [sect_pr|];
      [destruct (index_of (e_uid sect_pr) (e_children body)) as [i|]|];
      unfold insert_at; apply in_or_app; right; left; reflexivity. }
  assert (Hbibl : has_zotero_bibl
                    (update_children (e_uid body) (fun _ => cs') root) = true).
  { apply (has_zotero_bibl_from _ p).
    - apply update_children_reaches; assumption.
    - unfold p. replace bibl_runs
        with (fst (create_zotero_bibl_field_xml (n + 1) style_uri))
        by (rewrite Eruns; reflexivity).
      apply bibl_paragraph_marks. }
  unfold add_zotero_bibl_at_end.
  destruct (find (w "body") (update_children (e_uid body) (fun _ => cs') root));
    [|reflexivity].
  rewrite Hbibl. reflexivity.
Qed.

Lemma add_zotero_bibl_twice_witness :
  add_zotero_bibl_at_end 200
    (snd (fst (add_zotero_bibl_at_end 100 Samples.doc_two
                 (lit "http://www.zotero.org/styles/apa"))))
    (lit "http://www.zotero.org/styles/ieee")
  = (false,
     snd (fst (add_zotero_bibl_at_end 100 Samples.doc_two
                 (lit "http://www.zotero.org/styles/apa"))),
     200).
Proof.
  apply (add_zotero_bibl_twice 100 Samples.doc_two
           (lit "http://www.zotero.org/styles/apa")).
  vm_compute. reflexivity.
Defined.

End TreeProps.

(** ** The library index and the verification counters *)

Section LibraryProps.

Lemma fetch_pages_slices (library : list item) (fuel : nat) : forall start,
  start <= length library ->
  length library < start + PAGE_LIMIT * fuel ->
  fetch_pages (pages_of library) fuel start (take start library) = Some library.
Proof.
  unfold PAGE_LIMIT. induction fuel as [|fuel IH]; intros start Hle Hlt; [lia|].
  cbn [fetch_pages]. unfold PAGE_LIMIT.
  change (pages_of library start 100) with (take 100 (drop start library)).
  destruct (take 100 (drop start library)) as [|it items] eqn:E.
  - assert (Hlen : length (take 100 (drop start library)) = 0) by (rewrite E; reflexivity).
    rewrite length_take, length_drop in Hlen.
    f_equal. apply take_ge. lia.
  - rewrite <- E. rewrite <- take_plus.
    destruct (length (take 100 (drop start library)) <? 100) eqn:Hshort.
    + apply Nat.ltb_lt in Hshort. rewrite length_take, length_drop in Hshort.
      f_equal. apply take_ge. lia.
    + apply Nat.ltb_ge in Hshort. rewrite length_take, length_drop in Hshort.
      apply IH; lia.
Qed.

(** X16: when the remote library serves consecutive slices of a fixed
    list of entries, the paginated fetch of [_get_all_items] returns
    exactly that list, in order and without repetition, as soon as it is
    allowed one request more than the number of full pages. *)
Theorem get_all_items_complete (library : list item) (fuel : nat) :
  length library < PAGE_LIMIT * fuel ->
  get_all_items (pages_of library) fuel None = Some (library, Some library).
Proof.
  intros Hfuel. unfold get_all_items.
  pose proof (fetch_pages_slices library fuel 0) as H.
  rewrite take_0 in H. rewrite H; [reflexivity | lia | unfold PAGE_LIMIT in *; lia].
Qed.

Lemma get_all_items_complete_witness :
  get_all_items (pages_of sample_items) 1 None
  = Some (sample_items, Some sample_items).
Proof.
  apply (get_all_items_complete sample_items 1). vm_compute. lia.
Defined.

Lemma chunks_first (size : nat) (s : str) :
  0 < size -> s <> [] ->
  exists rest, chunks size s = take size s :: rest.
Proof.
  intros Hsize Hs. unfold chunks, range_step.
  assert (Hn : 0 < (length s + size - 1) / size).
  { apply Nat.div_str_pos. destruct s; [congruence | cbn [length]; lia]. }
  destruct ((length s + size - 1) / size) as [|k]; [lia|].
  cbn [seq map]. eexists. f_equal. unfold slice. cbn [drop].
  rewrite drop_0. replace (0 * size + size - 0 * size) with size by lia.
  reflexivity.
Qed.

(** X17: every field built by [create_zotero_field_xml] is seen by the
    counter of [verify_conversion]: at least one of its instruction runs
    contains ["ZOTERO_ITEM"], whatever the citation text is. *)
Theorem synthesized_field_is_counted (n : nat) (citation_json_str display_text : str) :
  1 <= list_sum (map count_zotero_instr
                   (fst (create_zotero_field_xml n citation_json_str display_text))).
Proof.
  unfold create_zotero_field_xml. cbn [fld_char_run].
  destruct (chunks_first chunk_size (citation_instr_text citation_json_str))
    as [rest Hchunks]; [unfold chunk_size; lia | discriminate |].
  rewrite Hchunks. cbn [instr_runs instr_run].
  destruct (instr_runs (n + 2 + 2) rest) as [rs n2]. cbn [fst app map list_sum].
  assert (Hfirst : count_zotero_instr
            (new_element (n + 2) (w "r") [] None
               [new_element (n + 2 + 1) (w "instrText") [(XML_SPACE, lit "preserve")]
                  (Some (take chunk_size (citation_instr_text citation_json_str))) []])
          = 1).
  { unfold count_zotero_instr.
    change (iter_tag (w "instrText") _)
      with [new_element (n + 2 + 1) (w "instrText") [(XML_SPACE, lit "preserve")]
              (Some (take chunk_size (citation_instr_text citation_json_str))) []].
    cbn [List.filter].
    change (take chunk_size (citation_instr_text citation_json_str))
      with (lit " ADDIN ZOTERO_ITEM CSL_CITATION "
            ++ take 218 (citation_json_str ++ lit " ")).
    cbn [text_nonempty e_text new_element lit list_ascii_of_string app].
    replace (str_in (lit "ZOTERO_ITEM") _) with true; [reflexivity|].
    symmetry. apply str_in_infix.
    exists (lit " ADDIN "), (lit " CSL_CITATION " ++ take 218 (citation_json_str ++ lit " ")).
    reflexivity. }
  match goal with
  | |- 1 <= list_sum (?a :: ?b :: ?l) =>
      change (1 <= a + (b + list_sum l)); replace b with 1 by (symmetry; exact Hfirst)
  end.
  lia.
Qed.

End LibraryProps.

(** ** The loop of [process_xml_file] over the placeholders *)

Section ProcessProps.

Variable b64decode : str -> py_result bytes.
Variable decode_utf8_replace : bytes -> str.
Variable json_loads : str -> py_result json.
Variable extract_citation_info_from_citavi : json -> list citation_info.
Variable citation_json_str : nat -> list item -> str.

Let resolve_sdt :=
  resolve_sdt b64decode decode_utf8_replace json_loads
    extract_citation_info_from_citavi.
Let process_sdt :=
  process_sdt b64decode decode_utf8_replace json_loads
    extract_citation_info_from_citavi citation_json_str.
Let process_sdts :=
  process_sdts b64decode decode_utf8_replace json_loads
    extract_citation_info_from_citavi citation_json_str.

Lemma decode_citavi_payload_returns (sdt : element) :
  b64decode_contract b64decode -> json_loads_contract json_loads ->
  exists payload,
    decode_citavi_payload b64decode decode_utf8_replace json_loads sdt
    = Return payload.
Proof.
  intros Hb Hj. unfold decode_citavi_payload.
  destruct (find (w "sdtContent") sdt) as [sc|]; [|eauto].
  destruct (instr_parts sc) as [|part parts] eqn:E; [eauto|].
  rewrite <- E.
  destruct (decode_raw_total b64decode decode_utf8_replace json_loads
              (concat (instr_parts sc)) Hb Hj
              (instr_parts_head (iter_tag (w "instrText") sc))) as [Hr _].
  destruct (decode_raw _ _ _ _) as [v|]; [eauto | discriminate].
Qed.

Lemma resolve_sdt_returns (m : matcher) (sdt : element) :
  b64decode_contract b64decode -> json_loads_contract json_loads ->
  exists r, resolve_sdt m sdt = Return r.
Proof.
  intros Hb Hj. unfold resolve_sdt, Engine.resolve_sdt.
  destruct (decode_citavi_payload_returns sdt Hb Hj) as [payload ->].
  destruct (match_records m _) as [[zotero_items missing] m1].
  destruct zotero_items; [|eauto].
  destruct (extract_citavi_display_text sdt); [eauto|].
  destruct (find_match_by_display_text m1 _). eauto.
Qed.

Lemma process_sdt_step (st : pstate) (sdt : element) :
  b64decode_contract b64decode -> json_loads_contract json_loads ->
  exists st',
    process_sdt st sdt = Return st'
    /\ converted (st_stats st) <= converted (st_stats st')
    /\ skipped (st_stats st) <= skipped (st_stats st')
    /\ converted (st_stats st') + skipped (st_stats st')
       <= converted (st_stats st) + skipped (st_stats st) + 1
    /\ (exists more,
          unmatched (st_stats st') = unmatched (st_stats st) ++ more)
    /\ st_modified st'
       = st_modified st
         || (converted (st_stats st) <? converted (st_stats st'))
    /\ (converted (st_stats st') = converted (st_stats st) ->
        st_root st' = st_root st).
Proof.
  intros Hb Hj. unfold process_sdt, Engine.process_sdt.
  destruct (resolve_sdt_returns (st_matcher st) (deref st sdt) Hb Hj)
    as [[[zotero_items missing] m] Hr].
  unfold resolve_sdt in Hr. rewrite Hr.
  destruct zotero_items as [|it items].
  - eexists. split; [reflexivity|]. cbn [st_stats converted skipped unmatched
      st_modified st_root].
    rewrite Nat.ltb_irrefl, orb_false_r.
    repeat split; try lia; eauto.
  - destruct (create_zotero_field_xml _ _ _) as [runs n1].
    destruct (replace_sdt_in n1 (e_uid sdt) runs (st_root st)) as [root'|].
    + eexists. split; [reflexivity|]. cbn [st_stats converted skipped unmatched
        st_modified st_root].
      replace (converted (st_stats st) <? converted (st_stats st) + 1) with true
        by (symmetry; apply Nat.ltb_lt; lia).
      rewrite orb_true_r. repeat split; try lia; eauto.
    + destruct (replace_in_detached n1 (e_uid sdt) runs (st_detached st)) as [ds'|].
      * eexists. split; [reflexivity|]. cbn [st_stats converted skipped unmatched
          st_modified st_root].
        replace (converted (st_stats st) <? converted (st_stats st) + 1) with true
          by (symmetry; apply Nat.ltb_lt; lia).
        rewrite orb_true_r. repeat split; try lia; eauto.
      * eexists. split; [reflexivity|]. cbn [st_stats converted skipped unmatched
          st_modified st_root].
        rewrite Nat.ltb_irrefl, orb_false_r.
        repeat split; try lia; eauto.
Qed.


End ProcessProps.



(** ** Replacing a placeholder, seen on the whole tree *)

Section SpliceFacts.

(** *** Identities *)

Lemma nodup_app {A} (l k : list A) :
  List.NoDup (l ++ k)
  <-> List.NoDup l /\ List.NoDup k /\ forall x, In x l -> ~ In x k.
Proof.
  induction l as [|a l IH]; cbn [app].
  - split; [intros H; repeat split; [constructor | exact H | intros x []]
           | intros [_ [H _]]; exact H].
  - rewrite !List.NoDup_cons_iff, IH, in_app_iff. split.
    + intros [Ha [Hl [Hk Hd]]]. repeat split; try tauto.
      intros x [<- | Hx]; [tauto | apply Hd; exact Hx].
    + intros [[Ha Hl] [Hk Hd]]. repeat split; try tauto.
      * intros [H | H]; [tauto | apply (Hd a); [left; reflexivity | exact H]].
      * intros x Hx. apply Hd. right. exact Hx.
Qed.

Lemma uids_unfold (e : element) :
  uids e = e_uid e :: flat_map uids (e_children e).
Proof.
  destruct e as [u t a x cs]. unfold uids. cbn [iter map e_uid e_children].
  f_equal. induction cs as [|c cs IH]; [reflexivity|].
  cbn [flat_map]. rewrite map_app, IH. reflexivity.
Qed.

Lemma uids_flat_map (l : list element) :
  map e_uid (flat_map iter l) = flat_map uids l.
Proof.
  induction l as [|c l IH]; [reflexivity|].
  cbn [flat_map]. rewrite map_app, IH. reflexivity.
Qed.

Lemma in_uids (e x : element) : In x (iter e) -> In (e_uid x) (uids e).
Proof. intros H. unfold uids. apply in_map. exact H. Qed.

Lemma iter_trans (e c d : element) :
  In c (iter e) -> In d (iter c) -> In d (iter e).
Proof.
  revert c d. induction e as [u t a x cs IH] using element_induction.
  intros c d Hc Hd. cbn [iter] in Hc. destruct Hc as [<- | Hc]; [exact Hd|].
  cbn [iter]. right. apply in_flat_map in Hc as [k [Hk Hc]].
  apply in_flat_map. exists k. split; [exact Hk|].
  rewrite List.Forall_forall in IH. apply (IH k Hk c d Hc Hd).
Qed.

(** In a tree whose identities differ, an identity leads to its element. *)
Lemma find_by_uid (l : list element) (s : element) :
  List.NoDup (map e_uid l) -> In s l ->
  List.find (fun x => e_uid x =? e_uid s) l = Some s.
Proof.
  induction l as [|c l IH]; intros Hnd Hin; [destruct Hin|].
  cbn [map] in Hnd. apply List.NoDup_cons_iff in Hnd as [Hc Hnd].
  cbn [List.find]. destruct Hin as [-> | Hin].
  - rewrite Nat.eqb_refl. reflexivity.
  - destruct (e_uid c =? e_uid s) eqn:E; [|apply IH; assumption].
    apply Nat.eqb_eq in E. exfalso. apply Hc. rewrite E.
    apply in_map. exact Hin.
Qed.

Lemma lookup_uid_unique (t s : element) :
  List.NoDup (uids t) -> In s (iter t) -> lookup_uid (e_uid s) t = Some s.
Proof. intros Hnd Hin. apply find_by_uid; assumption. Qed.

Lemma same_uid_same_element (t a b : element) :
  List.NoDup (uids t) -> In a (iter t) -> In b (iter t) -> e_uid a = e_uid b ->
  a = b.
Proof.
  intros Hnd Ha Hb Heq.
  pose proof (lookup_uid_unique t a Hnd Ha) as H1.
  pose proof (lookup_uid_unique t b Hnd Hb) as H2.
  rewrite Heq in H1. congruence.
Qed.

(** *** Paths *)

Lemma below_iter (s t : element) : below s t -> In s (descendants t).
Proof.
  induction 1 as [u t a x l1 l2 | u t a x l1 c l2 Hb IH].
  - unfold descendants. cbn [e_children]. rewrite flat_map_app.
    apply in_or_app. right. cbn [flat_map]. apply in_or_app. left.
    apply iter_self.
  - unfold descendants. cbn [e_children]. rewrite flat_map_app.
    apply in_or_app. right. cbn [flat_map]. apply in_or_app. left.
    rewrite iter_unfold. right. exact IH.
Qed.

Lemma descendants_below (t : element) : forall s,
  In s (descendants t) -> below s t.
Proof.
  induction t as [u t a x cs IH] using element_induction.
  intros s Hs. unfold descendants in Hs. cbn [e_children] in Hs.
  apply in_flat_map in Hs as [c [Hc Hs]].
  apply in_split in Hc as [l1 [l2 ->]].
  rewrite iter_unfold in Hs. destruct Hs as [<- | Hs].
  - apply below_child.
  - apply below_deeper. rewrite List.Forall_forall in IH.
    apply IH; [|exact Hs]. apply in_or_app. right. left. reflexivity.
Qed.

Lemma iter_cases (t s : element) : In s (iter t) -> s = t \/ below s t.
Proof.
  rewrite iter_unfold. intros [<- | H]; [left; reflexivity|].
  right. apply descendants_below. exact H.
Qed.

Lemma below_in_iter (s t : element) : below s t -> In s (iter t).
Proof.
  intros H. rewrite iter_unfold. right. apply below_iter. exact H.
Qed.

(** What distinct identities say about one child and its siblings. *)
Lemma nodup_children (eu : nat) (t : str) (a : list (str * str))
    (x : option str) (l1 l2 : list element) (c : element) :
  List.NoDup (uids (Element eu t a x (l1 ++ c :: l2))) ->
  ~ In eu (uids c)
  /\ List.NoDup (uids c)
  /\ (forall v, In v (uids c) ->
        v <> eu /\ ~ In v (flat_map uids l1) /\ ~ In v (flat_map uids l2)).
Proof.
  rewrite uids_unfold. cbn [e_uid e_children].
  rewrite flat_map_app. cbn [flat_map].
  rewrite List.NoDup_cons_iff, !in_app_iff, !nodup_app.
  intros [Heu [H1 [[Hc [H2 Hc2]] H1c]]]. repeat split.
  - tauto.
  - exact Hc.
  - intros ->. tauto.
  - intros Hv. apply (H1c v Hv). apply in_or_app. left. exact H.
  - apply Hc2. exact H.
Qed.

(** *** The spliced tree *)

Section Splice.

Variable u : nat.
Variable rep : str -> list element.

Let g (t : str) (c : element) : list element :=
  if e_uid c =? u then rep t else [splice u rep c].

Lemma splice_unfold (e : element) :
  splice u rep e
  = Element (e_uid e) (e_tag e) (e_attrib e) (e_text e)
      (flat_map (g (e_tag e)) (e_children e)).
Proof. destruct e. reflexivity. Qed.

Lemma splice_uid (e : element) : e_uid (splice u rep e) = e_uid e.
Proof. destruct e. reflexivity. Qed.

Lemma splice_tag (e : element) : e_tag (splice u rep e) = e_tag e.
Proof. destruct e. reflexivity. Qed.

Lemma splice_attrib (e : element) : e_attrib (splice u rep e) = e_attrib e.
Proof. destruct e. reflexivity. Qed.

Lemma splice_text (e : element) : e_text (splice u rep e) = e_text e.
Proof. destruct e. reflexivity. Qed.

(** Where the identity does not occur, nothing changes. *)
Lemma splice_absent (e : element) :
  ~ In u (flat_map uids (e_children e)) -> splice u rep e = e.
Proof.
  induction e as [eu t a x cs IH] using element_induction.
  cbn [e_children]. intros Hno. rewrite splice_unfold.
  cbn [e_uid e_tag e_attrib e_text e_children]. f_equal.
  induction cs as [|c cs IHcs]; [reflexivity|].
  cbn [flat_map] in *. rewrite in_app_iff in Hno.
  inversion IH as [|? ? Hc Hcs]; subst.
  rewrite (IHcs Hcs) by tauto. unfold g at 1.
  rewrite uids_unfold in Hno. cbn [In] in Hno.
  destruct (e_uid c =? u) eqn:E; [apply Nat.eqb_eq in E; tauto|].
  rewrite Hc by tauto. reflexivity.
Qed.

Lemma splice_list_absent (t : str) (l : list element) :
  ~ In u (flat_map uids l) -> flat_map (g t) l = l.
Proof.
  induction l as [|c l IH]; [reflexivity|].
  cbn [flat_map]. rewrite in_app_iff, uids_unfold. cbn [In]. intros Hno.
  rewrite IH by tauto. unfold g.
  destruct (e_uid c =? u) eqn:E; [apply Nat.eqb_eq in E; tauto|].
  rewrite splice_absent by tauto. reflexivity.
Qed.

Lemma splice_at_child (eu : nat) (t : str) (a : list (str * str))
    (x : option str) (l1 l2 : list element) (s : element) :
  e_uid s = u ->
  List.NoDup (uids (Element eu t a x (l1 ++ s :: l2))) ->
  splice u rep (Element eu t a x (l1 ++ s :: l2))
  = Element eu t a x (l1 ++ rep t ++ l2).
Proof.
  intros Hu Hnd. destruct (nodup_children _ _ _ _ _ _ _ Hnd) as [_ [_ Hs]].
  assert (Hin : In u (uids s)) by (rewrite uids_unfold, Hu; left; reflexivity).
  destruct (Hs u Hin) as [_ [H1 H2]].
  rewrite splice_unfold. cbn [e_uid e_tag e_attrib e_text e_children].
  rewrite flat_map_app. cbn [flat_map].
  rewrite !splice_list_absent by assumption.
  unfold g. rewrite Hu, Nat.eqb_refl. reflexivity.
Qed.

Lemma splice_at_deeper (eu : nat) (t : str) (a : list (str * str))
    (x : option str) (l1 l2 : list element) (c s : element) :
  e_uid s = u -> below s c ->
  List.NoDup (uids (Element eu t a x (l1 ++ c :: l2))) ->
  splice u rep (Element eu t a x (l1 ++ c :: l2))
  = Element eu t a x (l1 ++ splice u rep c :: l2).
Proof.
  intros Hu Hb Hnd.
  destruct (nodup_children _ _ _ _ _ _ _ Hnd) as [_ [Hc Hs]].
  assert (Hin : In u (uids c)).
  { rewrite <- Hu. apply in_uids, below_in_iter. exact Hb. }
  destruct (Hs u Hin) as [_ [H1 H2]].
  rewrite splice_unfold. cbn [e_uid e_tag e_attrib e_text e_children].
  rewrite flat_map_app. cbn [flat_map].
  rewrite !splice_list_absent by assumption.
  unfold g. destruct (e_uid c =? u) eqn:E; [|reflexivity].
  exfalso. apply Nat.eqb_eq in E.
  rewrite uids_unfold in Hc. apply List.NoDup_cons_iff in Hc as [Hc _].
  apply Hc. rewrite E, <- Hu, <- uids_flat_map. apply in_map.
  apply below_iter. exact Hb.
Qed.

(** Every element of the spliced tree is the splice of an element of the
    tree, or lies in what was put in. *)
Lemma iter_splice_cases (t : element) : forall e,
  In e (iter (splice u rep t)) ->
  (exists e0, In e0 (iter t) /\ e = splice u rep e0)
  \/ (exists tg, In e (flat_map iter (rep tg))).
Proof.
  induction t as [eu tg a x cs IH] using element_induction.
  intros e. rewrite splice_unfold, iter_unfold.
  cbn [e_uid e_tag e_attrib e_text e_children]. intros [<- | He].
  - left. exists (Element eu tg a x cs). split; [apply iter_self|].
    rewrite splice_unfold. reflexivity.
  - apply in_flat_map in He as [k [Hk He]].
    apply in_flat_map in Hk as [c [Hc Hk]].
    unfold g in Hk. destruct (e_uid c =? u).
    + right. exists tg. apply in_flat_map. exists k. split; assumption.
    + destruct Hk as [<- | []]. rewrite List.Forall_forall in IH.
      destruct (IH c Hc e He) as [[e0 [H0 ->]] | H]; [left | right; exact H].
      exists e0. split; [|reflexivity].
      apply (iter_child (Element eu tg a x cs) c); assumption.
Qed.

End Splice.

(** *** [replace_sdt_with_zotero_field] is the splice *)

Lemma spliced_children_at (pu : nat) (parent_tag : str) (u : nat)
    (runs l1 l2 : list element) (sdt : element) :
  e_uid sdt = u -> (forall x, In x l1 -> e_uid x <> u) ->
  spliced_children pu parent_tag u runs (l1 ++ sdt :: l2)
  = Some (l1 ++ replacement pu runs parent_tag ++ l2).
Proof.
  intros Hc Hl1. unfold spliced_children, replacement.
  destruct (index_of_split u l1 l2 sdt Hc Hl1) as [H1 H2]. rewrite H1, H2.
  destruct (eqb_str (localname parent_tag) (lit "p")).
  - rewrite insert_runs_contiguous.
    rewrite take_app_length, drop_app_length. reflexivity.
  - unfold insert_at. rewrite take_app_length, drop_app_length. reflexivity.
Qed.

Lemma getparent_in_unfold (u : nat) (e : element) :
  getparent_in u e
  = if existsb (fun c => e_uid c =? u) (e_children e) then Some e
    else fold_right (fun c acc => match getparent_in u c with
                                  | Some p => Some p
                                  | None => acc
                                  end) None (e_children e).
Proof.
  destruct e as [eu t a x cs]. cbn [getparent_in e_children].
  destruct (existsb _ cs); [reflexivity|].
  induction cs as [|c cs IH]; [reflexivity|].
  cbn [fold_right]. rewrite <- IH. reflexivity.
Qed.

Lemma child_uid_in (l : list element) (c : element) :
  In c l -> In (e_uid c) (flat_map uids l).
Proof.
  intros H. apply in_flat_map. exists c. split; [exact H|].
  rewrite uids_unfold. left. reflexivity.
Qed.

Lemma existsb_uid_absent (u : nat) (l : list element) :
  ~ In u (flat_map uids l) -> existsb (fun c => e_uid c =? u) l = false.
Proof.
  intros Hno. destruct (existsb _ l) eqn:E; [|reflexivity].
  apply existsb_exists in E as [c [Hc E]]. apply Nat.eqb_eq in E.
  exfalso. apply Hno. rewrite <- E. apply child_uid_in. exact Hc.
Qed.

Lemma getparent_in_absent (u : nat) (e : element) :
  ~ In u (flat_map uids (e_children e)) -> getparent_in u e = None.
Proof.
  induction e as [eu t a x cs IH] using element_induction.
  cbn [e_children]. intros Hno. rewrite getparent_in_unfold.
  cbn [e_children]. rewrite existsb_uid_absent by exact Hno.
  induction cs as [|c cs IHcs]; [reflexivity|].
  cbn [fold_right flat_map] in *. rewrite in_app_iff, uids_unfold in Hno.
  cbn [In] in Hno. inversion IH as [|? ? Hc Hcs]; subst.
  rewrite Hc by tauto. apply IHcs; [exact Hcs | tauto].
Qed.

Lemma getparent_in_list_absent (u : nat) (l : list element) (acc : option element) :
  ~ In u (flat_map uids l) ->
  fold_right (fun c acc => match getparent_in u c with
                           | Some p => Some p
                           | None => acc
                           end) acc l = acc.
Proof.
  induction l as [|c l IH]; [reflexivity|].
  cbn [fold_right flat_map]. rewrite in_app_iff, uids_unfold. cbn [In].
  intros Hno. rewrite getparent_in_absent by tauto. apply IH. tauto.
Qed.

Lemma getparent_in_iter (u : nat) (e : element) : forall p,
  getparent_in u e = Some p -> In p (iter e).
Proof.
  induction e as [eu t a x cs IH] using element_induction.
  intros p. rewrite getparent_in_unfold. cbn [e_children].
  destruct (existsb _ cs).
  - intros H. injection H as <-. apply iter_self.
  - intros H. rewrite iter_unfold. right. cbn [e_children].
    induction cs as [|c cs IHcs]; [discriminate|].
    cbn [fold_right flat_map] in *. inversion IH as [|? ? Hc Hcs]; subst.
    apply in_or_app. destruct (getparent_in u c) as [q|] eqn:E.
    + injection H as <-. left. apply Hc. reflexivity.
    + right. apply IHcs; assumption.
Qed.

Lemma update_children_absent (v : nat) (f : list element -> list element)
    (e : element) :
  ~ In v (uids e) -> update_children v f e = e.
Proof.
  induction e as [eu t a x cs IH] using element_induction.
  rewrite uids_unfold. cbn [e_uid e_children In update_children].
  intros Hno. destruct (eu =? v) eqn:E; [apply Nat.eqb_eq in E; tauto|].
  f_equal. induction cs as [|c cs IHcs]; [reflexivity|].
  cbn [map flat_map] in *. rewrite in_app_iff in Hno.
  inversion IH as [|? ? Hc Hcs]; subst.
  rewrite Hc by tauto. rewrite IHcs; [reflexivity | exact Hcs | tauto].
Qed.

Lemma update_children_list_absent (v : nat) (f : list element -> list element)
    (l : list element) :
  ~ In v (flat_map uids l) -> map (update_children v f) l = l.
Proof.
  induction l as [|c l IH]; [reflexivity|].
  cbn [map flat_map]. rewrite in_app_iff. intros Hno.
  rewrite update_children_absent by tauto. rewrite IH by tauto. reflexivity.
Qed.

(** In a tree whose identities differ, replacing a placeholder that has a
    parent changes the tree into the spliced one. *)
Lemma replace_sdt_in_splice (pu : nat) (runs : list element) (s t : element) :
  below s t -> List.NoDup (uids t) ->
  replace_sdt_in pu (e_uid s) runs t
  = Some (splice (e_uid s) (replacement pu runs) t).
Proof.
  induction 1 as [eu tg a x l1 l2 | eu tg a x l1 c l2 Hb IH]; intros Hnd.
  - rewrite (splice_at_child _ _ eu tg a x l1 l2 s eq_refl Hnd).
    destruct (nodup_children _ _ _ _ _ _ _ Hnd) as [_ [_ Hs]].
    assert (Hin : In (e_uid s) (uids s)) by (rewrite uids_unfold; left; reflexivity).
    destruct (Hs _ Hin) as [_ [H1 _]].
    unfold replace_sdt_in. rewrite getparent_in_unfold. cbn [e_children].
    rewrite existsb_app. cbn [existsb]. rewrite Nat.eqb_refl, orb_true_r.
    cbn [e_tag e_children e_uid].
    rewrite spliced_children_at.
    + cbn [update_children]. rewrite Nat.eqb_refl. reflexivity.
    + reflexivity.
    + intros y Hy Heq. apply H1. rewrite <- Heq. apply child_uid_in. exact Hy.
  - rewrite (splice_at_deeper _ _ eu tg a x l1 l2 c s eq_refl Hb Hnd).
    destruct (nodup_children _ _ _ _ _ _ _ Hnd) as [Heu [Hc Hs]].
    specialize (IH Hc).
    assert (Hin : In (e_uid s) (uids c)) by (apply in_uids, below_in_iter; exact Hb).
    destruct (Hs _ Hin) as [_ [H1 H2]].
    unfold replace_sdt_in in IH |- *.
    destruct (getparent_in (e_uid s) c) as [parent|] eqn:Hparent; [|discriminate].
    destruct (spliced_children pu (e_tag parent) (e_uid s) runs (e_children parent))
      as [cs'|] eqn:Hcs; [|discriminate].
    injection IH as IH.
    assert (Hpin : In (e_uid parent) (uids c)).
    { apply in_uids. apply (getparent_in_iter _ _ _ Hparent). }
    destruct (Hs _ Hpin) as [Hp0 [Hp1 Hp2]].
    rewrite getparent_in_unfold. cbn [e_children].
    assert (Hex : existsb (fun k => e_uid k =? e_uid s) (l1 ++ c :: l2) = false).
    { rewrite existsb_app. cbn [existsb].
      rewrite (existsb_uid_absent _ l1 H1), (existsb_uid_absent _ l2 H2).
      destruct (e_uid c =? e_uid s) eqn:E; [|reflexivity].
      exfalso. apply Nat.eqb_eq in E.
      rewrite uids_unfold in Hc. apply List.NoDup_cons_iff in Hc as [Hc _].
      apply Hc. rewrite E, <- uids_flat_map. apply in_map.
      apply below_iter. exact Hb. }
    rewrite Hex. rewrite fold_right_app. cbn [fold_right]. rewrite Hparent.
    rewrite getparent_in_list_absent by exact H1.
    rewrite Hcs. cbn [update_children].
    replace (eu =? e_uid parent) with false
      by (symmetry; apply Nat.eqb_neq; intros E; apply Hp0; symmetry; exact E).
    rewrite map_app. cbn [map].
    rewrite !update_children_list_absent by assumption.
    rewrite IH. reflexivity.
Qed.

(** *** What the splice keeps *)

Lemma find_app_none {A} (q : A -> bool) (l1 l2 : list A) :
  List.find q l1 = None -> List.find q (l1 ++ l2) = List.find q l2.
Proof.
  induction l1 as [|a l1 IH]; [reflexivity|]. cbn [app List.find].
  destruct (q a); [discriminate | exact IH].
Qed.

Section SpliceKeeps.

Variable u : nat.
Variable rep : str -> list element.

(** What takes the place of the placeholder is made of runs and
    paragraphs. *)
Hypothesis rep_tags :
  forall tg r, In r (rep tg) -> e_tag r = w "r" \/ e_tag r = w "p".

Let g (t : str) (c : element) : list element :=
  if e_uid c =? u then rep t else [splice u rep c].

(** A test on the children that looks at the element alone, not at its
    children, and fails on placeholders, runs and paragraphs. *)
Section Shallow.

Variable q : element -> bool.
Hypothesis q_shallow : forall c, q (splice u rep c) = q c.
Hypothesis q_sdt : forall c, e_tag c = w "sdt" -> q c = false.
Hypothesis q_r : forall c, e_tag c = w "r" -> q c = false.
Hypothesis q_p : forall c, e_tag c = w "p" -> q c = false.

Lemma q_rep (tg : str) (l : list element) :
  (forall r, In r l -> In r (rep tg)) -> List.find q l = None /\ existsb q l = false.
Proof.
  induction l as [|r l IH]; intros Hl; [split; reflexivity|].
  cbn [List.find existsb].
  assert (Hr : q r = false).
  { destruct (rep_tags tg r (Hl r (or_introl eq_refl))) as [H | H];
      [apply q_r | apply q_p]; exact H. }
  rewrite Hr. cbn [orb]. apply IH. intros r' Hr'. apply Hl. right. exact Hr'.
Qed.

Lemma find_splice (tg : str) (cs : list element) :
  (forall c, In c cs -> e_uid c = u -> e_tag c = w "sdt") ->
  List.find q (flat_map (g tg) cs) = option_map (splice u rep) (List.find q cs).
Proof.
  induction cs as [|c cs IH]; intros Hu; [reflexivity|].
  cbn [flat_map List.find]. unfold g at 1.
  destruct (e_uid c =? u) eqn:E.
  - apply Nat.eqb_eq in E.
    rewrite (q_sdt c (Hu c (or_introl eq_refl) E)).
    destruct (q_rep tg (rep tg) (fun r H => H)) as [Hnone _].
    rewrite (find_app_none _ _ _ Hnone).
    apply IH. intros c' Hc'. apply Hu. right. exact Hc'.
  - cbn [app List.find]. rewrite q_shallow. destruct (q c); [reflexivity|].
    apply IH. intros c' Hc'. apply Hu. right. exact Hc'.
Qed.

Lemma existsb_splice (tg : str) (cs : list element) :
  (forall c, In c cs -> e_uid c = u -> e_tag c = w "sdt") ->
  existsb q (flat_map (g tg) cs) = existsb q cs.
Proof.
  induction cs as [|c cs IH]; intros Hu; [reflexivity|].
  cbn [flat_map existsb]. unfold g at 1. rewrite existsb_app.
  rewrite IH by (intros c' Hc'; apply Hu; right; exact Hc').
  destruct (e_uid c =? u) eqn:E.
  - apply Nat.eqb_eq in E.
    rewrite (q_sdt c (Hu c (or_introl eq_refl) E)).
    destruct (q_rep tg (rep tg) (fun r H => H)) as [_ ->]. reflexivity.
  - cbn [existsb]. rewrite q_shallow, orb_false_r. reflexivity.
Qed.

End Shallow.

Lemma tag_test_shallow (T : str) (c : element) :
  eqb_str (e_tag (splice u rep c)) T = eqb_str (e_tag c) T.
Proof. rewrite splice_tag. reflexivity. Qed.

Lemma find_tag_splice (T : str) (e : element) :
  eqb_str (w "sdt") T = false -> eqb_str (w "r") T = false ->
  eqb_str (w "p") T = false ->
  (forall c, In c (e_children e) -> e_uid c = u -> e_tag c = w "sdt") ->
  find T (splice u rep e) = option_map (splice u rep) (find T e).
Proof.
  intros H1 H2 H3 Hu. unfold find. rewrite splice_unfold. cbn [e_children].
  apply (find_splice (fun c => eqb_str (e_tag c) T)).
  - apply tag_test_shallow.
  - intros c ->. exact H1.
  - intros c ->. exact H2.
  - intros c ->. exact H3.
  - exact Hu.
Qed.

Lemma get_splice (e : element) (key default : str) :
  get (splice u rep e) key default = get e key default.
Proof. unfold get. rewrite splice_attrib. reflexivity. Qed.

Lemma sdt_tag_val_splice (e : element) :
  (forall c, In c (iter e) -> e_uid c = u -> e_tag c = w "sdt") ->
  sdt_tag_val (splice u rep e) = sdt_tag_val e.
Proof.
  intros Hu. unfold sdt_tag_val.
  rewrite (find_tag_splice (w "sdtPr")); try reflexivity.
  - destruct (find (w "sdtPr") e) as [sdt_pr|] eqn:Hpr; [|reflexivity].
    cbn [option_map].
    assert (Hin : In sdt_pr (e_children e)).
    { unfold find in Hpr. apply find_some in Hpr as [H _]. exact H. }
    rewrite (find_tag_splice (w "tag")); try reflexivity.
    + destruct (find (w "tag") sdt_pr); [|reflexivity].
      cbn [option_map]. rewrite get_splice. reflexivity.
    + intros c Hc. apply Hu. apply (iter_child e sdt_pr); [exact Hin|].
      apply (iter_child sdt_pr c); [exact Hc | apply iter_self].
  - intros c Hc. apply Hu. apply (iter_child e c); [exact Hc | apply iter_self].
Qed.

Lemma is_citavi_placeholder_splice (e : element) :
  (forall c, In c (iter e) -> e_uid c = u -> e_tag c = w "sdt") ->
  is_citavi_placeholder (splice u rep e) = is_citavi_placeholder e.
Proof.
  intros Hu. unfold is_citavi_placeholder.
  rewrite splice_tag, (sdt_tag_val_splice e Hu). reflexivity.
Qed.

Lemma is_citavi_bibliography_splice (e : element) :
  (forall c, In c (iter e) -> e_uid c = u -> e_tag c = w "sdt") ->
  is_citavi_bibliography (splice u rep e) = is_citavi_bibliography e.
Proof.
  intros Hu. unfold is_citavi_bibliography.
  rewrite splice_tag, (sdt_tag_val_splice e Hu). reflexivity.
Qed.

Lemma is_begin_run_splice (e : element) :
  (forall c, In c (e_children e) -> e_uid c = u -> e_tag c = w "sdt") ->
  is_begin_run (splice u rep e) = is_begin_run e.
Proof.
  intros Hu. unfold is_begin_run. rewrite splice_tag. f_equal.
  rewrite splice_unfold. cbn [e_children].
  apply (existsb_splice
           (fun c => eqb_str (e_tag c) (w "fldChar")
                     && eqb_str (get c FLD_CHAR_TYPE []) (lit "begin"))).
  - intros c. rewrite splice_tag, get_splice. reflexivity.
  - intros c ->. reflexivity.
  - intros c ->. reflexivity.
  - intros c ->. reflexivity.
  - exact Hu.
Qed.

Lemma is_zotero_instr_run_splice (e : element) :
  (forall c, In c (e_children e) -> e_uid c = u -> e_tag c = w "sdt") ->
  is_zotero_instr_run (splice u rep e) = is_zotero_instr_run e.
Proof.
  intros Hu. unfold is_zotero_instr_run. rewrite splice_tag. f_equal.
  rewrite splice_unfold. cbn [e_children].
  apply (existsb_splice
           (fun c => eqb_str (e_tag c) (w "instrText")
                     && match e_text c with
                        | Some t => startswith ZOTERO_ITEM_PREFIX t
                        | None => false
                        end)).
  - intros c. rewrite splice_tag, splice_text. reflexivity.
  - intros c ->. reflexivity.
  - intros c ->. reflexivity.
  - intros c ->. reflexivity.
  - exact Hu.
Qed.

End SpliceKeeps.

(** *** Counting fields among siblings *)

Lemma count_pairs_app_instr (l1 : list element) (a : element) (r : list element) :
  is_zotero_instr_run a = false ->
  count_pairs (l1 ++ a :: r) = count_pairs l1 + count_pairs (a :: r).
Proof.
  intros Ha. induction l1 as [|x l1 IH]; [reflexivity|].
  cbn [app]. change (count_pairs (x :: l1 ++ a :: r))
    with ((match l1 ++ a :: r with
           | b :: _ => if is_begin_run x && is_zotero_instr_run b then 1 else 0
           | [] => 0
           end) + count_pairs (l1 ++ a :: r)).
  change (count_pairs (x :: l1))
    with ((match l1 with
           | b :: _ => if is_begin_run x && is_zotero_instr_run b then 1 else 0
           | [] => 0
           end) + count_pairs l1).
  rewrite IH. destruct l1 as [|b l1]; cbn [app].
  - rewrite Ha, andb_false_r. lia.
  - lia.
Qed.

Lemma count_pairs_app_begin (f : list element) (z : element) (l2 : list element) :
  is_begin_run z = false ->
  count_pairs ((f ++ [z]) ++ l2) = count_pairs (f ++ [z]) + count_pairs l2.
Proof.
  intros Hz. induction f as [|x f IH].
  - cbn [app]. destruct l2 as [|b l2]; [reflexivity|].
    change (count_pairs (z :: b :: l2))
      with ((if is_begin_run z && is_zotero_instr_run b then 1 else 0)
            + count_pairs (b :: l2)).
    rewrite Hz. reflexivity.
  - cbn [app].
    change (count_pairs (x :: (f ++ [z]) ++ l2))
      with ((match (f ++ [z]) ++ l2 with
             | b :: _ => if is_begin_run x && is_zotero_instr_run b then 1 else 0
             | [] => 0
             end) + count_pairs ((f ++ [z]) ++ l2)).
    change (count_pairs (x :: f ++ [z]))
      with ((match f ++ [z] with
             | b :: _ => if is_begin_run x && is_zotero_instr_run b then 1 else 0
             | [] => 0
             end) + count_pairs (f ++ [z])).
    rewrite IH. destruct f as [|b f]; cbn [app]; lia.
Qed.

(** A stretch of siblings that neither ends a pair at its head nor opens
    one at its end counts on its own. *)
Lemma count_pairs_stretch (l1 m l2 : list element) :
  (exists a r, m = a :: r /\ is_zotero_instr_run a = false) ->
  (exists f z, m = f ++ [z] /\ is_begin_run z = false) ->
  count_pairs (l1 ++ m ++ l2) = count_pairs l1 + count_pairs m + count_pairs l2.
Proof.
  intros [a [r [Hm Ha]]] [f [z [Hm' Hz]]].
  rewrite Hm at 1. cbn [app]. rewrite count_pairs_app_instr by exact Ha.
  change (a :: r ++ l2) with ((a :: r) ++ l2). rewrite <- Hm, Hm'.
  rewrite count_pairs_app_begin by exact Hz. lia.
Qed.

Lemma count_pairs_same (l l' : list element) :
  map (fun e => (is_begin_run e, is_zotero_instr_run e)) l
  = map (fun e => (is_begin_run e, is_zotero_instr_run e)) l' ->
  count_pairs l = count_pairs l'.
Proof.
  revert l'. induction l as [|a l IH]; intros [|a' l'] H; try discriminate;
    [reflexivity|].
  cbn [map] in H. injection H as Hb Hi H.
  change (count_pairs (a :: l))
    with ((match l with
           | b :: _ => if is_begin_run a && is_zotero_instr_run b then 1 else 0
           | [] => 0
           end) + count_pairs l).
  change (count_pairs (a' :: l'))
    with ((match l' with
           | b :: _ => if is_begin_run a' && is_zotero_instr_run b then 1 else 0
           | [] => 0
           end) + count_pairs l').
  rewrite (IH l' H). f_equal.
  destruct l as [|b l], l' as [|b' l']; try discriminate; [reflexivity|].
  cbn [map] in H. injection H as _ Hbi _. rewrite Hb, Hbi. reflexivity.
Qed.

Lemma count_zotero_fields_unfold (e : element) :
  count_zotero_fields e
  = count_pairs (e_children e)
    + list_sum (map count_zotero_fields (e_children e)).
Proof. destruct e. reflexivity. Qed.

Lemma placeholders_unfold (e : element) :
  placeholders e
  = (if is_citavi_placeholder e then [e] else [])
    ++ List.filter is_citavi_placeholder (flat_map iter (e_children e)).
Proof.
  unfold placeholders. rewrite iter_unfold. cbn [List.filter].
  destruct (is_citavi_placeholder e); reflexivity.
Qed.

Lemma filter_all {A} (f : A -> bool) (l : list A) :
  (forall x, In x l -> f x = true) -> List.filter f l = l.
Proof.
  induction l as [|a l IH]; intros H; [reflexivity|].
  cbn [List.filter]. rewrite (H a (or_introl eq_refl)).
  rewrite IH; [reflexivity|]. intros x Hx. apply H. right. exact Hx.
Qed.

Lemma filter_none {A} (f : A -> bool) (l : list A) :
  (forall x, In x l -> f x = false) <-> List.filter f l = [].
Proof.
  induction l as [|a l IH]; cbn [List.filter].
  - split; [reflexivity | intros _ x []].
  - split.
    + intros H. rewrite (H a (or_introl eq_refl)). apply IH.
      intros x Hx. apply H. right. exact Hx.
    + destruct (f a) eqn:E; [discriminate|]. intros H x [<- | Hx]; [exact E|].
      apply IH; assumption.
Qed.

Lemma filter_uid_absent (u : nat) (q : element -> bool) (l : list element) :
  ~ In u (flat_map uids l) ->
  List.filter (fun p => negb (e_uid p =? u)) (List.filter q (flat_map iter l))
  = List.filter q (flat_map iter l).
Proof.
  intros Hno. apply filter_all. intros x Hx. apply filter_In in Hx as [Hx _].
  apply negb_true_iff. apply Nat.eqb_neq. intros E. apply Hno.
  rewrite <- E, <- uids_flat_map. apply in_map. exact Hx.
Qed.

(** *** The effect of the splice on the placeholders, the fields and the
    identities *)

Section SpliceEffect.

Variable s : element.
Variable rep : str -> list element.

Hypothesis s_alone : placeholders s = [s].
Hypothesis rep_tags :
  forall tg r, In r (rep tg) -> e_tag r = w "r" \/ e_tag r = w "p".
Hypothesis rep_no_placeholder :
  forall tg, List.filter is_citavi_placeholder (flat_map iter (rep tg)) = [].
Hypothesis rep_one_field :
  forall tg, count_pairs (rep tg)
             + list_sum (map count_zotero_fields (rep tg)) = 1.
Hypothesis rep_head :
  forall tg, exists a r, rep tg = a :: r /\ is_zotero_instr_run a = false.
Hypothesis rep_last :
  forall tg, exists f z, rep tg = f ++ [z] /\ is_begin_run z = false.

Lemma s_is_placeholder : is_citavi_placeholder s = true.
Proof.
  assert (H : In s (placeholders s)) by (rewrite s_alone; left; reflexivity).
  apply filter_In in H as [_ H]. exact H.
Qed.

Lemma s_tag : e_tag s = w "sdt".
Proof.
  pose proof s_is_placeholder as H. unfold is_citavi_placeholder in H.
  apply andb_true_iff in H as [H _]. apply eqb_str_true. exact H.
Qed.

Lemma only_s (t : element) :
  List.NoDup (uids t) -> In s (iter t) ->
  forall c, In c (iter t) -> e_uid c = e_uid s -> e_tag c = w "sdt".
Proof.
  intros Hnd Hs c Hc E.
  rewrite (same_uid_same_element t c s Hnd Hc Hs E). apply s_tag.
Qed.

Lemma only_s_children (t : element) :
  List.NoDup (uids t) -> In s (iter t) ->
  forall c, In c (e_children t) -> e_uid c = e_uid s -> e_tag c = w "sdt".
Proof.
  intros Hnd Hs c Hc. apply (only_s t Hnd Hs).
  apply (iter_child t c); [exact Hc | apply iter_self].
Qed.

(** No element on the way down to the placeholder is a placeholder. *)
Lemma above_no_placeholder (t : element) :
  below s t -> List.NoDup (uids t) ->
  (forall p, In p (placeholders t) -> placeholders p = [p]) ->
  is_citavi_placeholder t = false.
Proof.
  intros Hb Hnd Hnn. destruct (is_citavi_placeholder t) eqn:E; [|reflexivity].
  exfalso.
  assert (Ht : In t (placeholders t)).
  { apply filter_In. split; [apply iter_self | exact E]. }
  assert (Hs : In s (placeholders t)).
  { apply filter_In. split; [apply below_in_iter; exact Hb | apply s_is_placeholder]. }
  rewrite (Hnn t Ht) in Hs. destruct Hs as [Hs | []].
  rewrite uids_unfold in Hnd. apply List.NoDup_cons_iff in Hnd as [Hnd _].
  apply Hnd. rewrite Hs at 1. rewrite <- uids_flat_map. apply in_map.
  apply below_iter. exact Hb.
Qed.

Lemma placeholders_splice (t : element) :
  below s t -> List.NoDup (uids t) ->
  (forall p, In p (placeholders t) -> placeholders p = [p]) ->
  placeholders (splice (e_uid s) rep t)
  = List.filter (fun p => negb (e_uid p =? e_uid s)) (placeholders t).
Proof.
  intros Hb. induction Hb as [eu tg a x l1 l2 | eu tg a x l1 c l2 Hb IH];
    intros Hnd Hnn.
  - pose proof (above_no_placeholder _ (below_child s eu tg a x l1 l2) Hnd Hnn) as Hno.
    pose proof (is_citavi_placeholder_splice (e_uid s) rep rep_tags _
                  (only_s _ Hnd (below_in_iter _ _ (below_child s eu tg a x l1 l2))))
      as Hkeep.
    rewrite Hno in Hkeep.
    rewrite (splice_at_child _ _ eu tg a x l1 l2 s eq_refl Hnd) in Hkeep |- *.
    destruct (nodup_children _ _ _ _ _ _ _ Hnd) as [_ [_ Hs]].
    assert (Hin : In (e_uid s) (uids s)) by (rewrite uids_unfold; left; reflexivity).
    destruct (Hs _ Hin) as [_ [H1 H2]].
    rewrite !placeholders_unfold, Hkeep, Hno. cbn [app e_children].
    rewrite !flat_map_app. cbn [flat_map]. rewrite !List.filter_app.
    rewrite rep_no_placeholder.
    rewrite (filter_uid_absent _ _ l1 H1), (filter_uid_absent _ _ l2 H2).
    fold (placeholders s). rewrite s_alone. cbn [List.filter].
    rewrite Nat.eqb_refl. reflexivity.
  - pose proof (above_no_placeholder _ (below_deeper s eu tg a x l1 c l2 Hb) Hnd Hnn)
      as Hno.
    pose proof (is_citavi_placeholder_splice (e_uid s) rep rep_tags _
                  (only_s _ Hnd (below_in_iter _ _ (below_deeper s eu tg a x l1 c l2 Hb))))
      as Hkeep.
    rewrite Hno in Hkeep.
    rewrite (splice_at_deeper _ _ eu tg a x l1 l2 c s eq_refl Hb Hnd) in Hkeep |- *.
    destruct (nodup_children _ _ _ _ _ _ _ Hnd) as [_ [Hc Hs]].
    assert (Hin : In (e_uid s) (uids c)) by (apply in_uids, below_in_iter; exact Hb).
    destruct (Hs _ Hin) as [_ [H1 H2]].
    rewrite !placeholders_unfold, Hkeep, Hno. cbn [app e_children].
    rewrite !flat_map_app. cbn [flat_map]. rewrite !List.filter_app.
    rewrite (filter_uid_absent _ _ l1 H1), (filter_uid_absent _ _ l2 H2).
    fold (placeholders (splice (e_uid s) rep c)). fold (placeholders c).
    rewrite IH; [reflexivity | exact Hc |].
    intros p Hp. apply Hnn. rewrite placeholders_unfold. apply in_or_app. right.
    cbn [e_children]. rewrite flat_map_app. cbn [flat_map].
    rewrite !List.filter_app. apply in_or_app. right. apply in_or_app. left.
    exact Hp.
Qed.

Lemma count_zotero_fields_splice (t : element) :
  below s t -> List.NoDup (uids t) ->
  count_zotero_fields (splice (e_uid s) rep t) + count_zotero_fields s
  = count_zotero_fields t + 1.
Proof.
  intros Hb. induction Hb as [eu tg a x l1 l2 | eu tg a x l1 c l2 Hb IH];
    intros Hnd.
  - rewrite (splice_at_child _ _ eu tg a x l1 l2 s eq_refl Hnd).
    rewrite !count_zotero_fields_unfold with (e := Element _ _ _ _ _).
    cbn [e_children].
    rewrite (count_pairs_stretch l1 (rep tg) l2 (rep_head tg) (rep_last tg)).
    change (s :: l2) with ([s] ++ l2).
    rewrite (count_pairs_stretch l1 [s] l2).
    + rewrite !map_app, !list_sum_app. cbn [map list_sum fold_right count_pairs].
      pose proof (rep_one_field tg). lia.
    + exists s, []. split; [reflexivity|]. unfold is_zotero_instr_run.
      rewrite s_tag. reflexivity.
    + exists [], s. split; [reflexivity|]. unfold is_begin_run.
      rewrite s_tag. reflexivity.
  - rewrite (splice_at_deeper _ _ eu tg a x l1 l2 c s eq_refl Hb Hnd).
    destruct (nodup_children _ _ _ _ _ _ _ Hnd) as [_ [Hc _]].
    specialize (IH Hc).
    rewrite !count_zotero_fields_unfold with (e := Element _ _ _ _ _).
    cbn [e_children].
    rewrite (count_pairs_same (l1 ++ splice (e_uid s) rep c :: l2) (l1 ++ c :: l2)).
    + rewrite !map_app, !list_sum_app. cbn [map list_sum fold_right]. lia.
    + rewrite !map_app. cbn [map].
      rewrite (is_begin_run_splice _ _ rep_tags c
                 (only_s_children c Hc (below_in_iter _ _ Hb))).
      rewrite (is_zotero_instr_run_splice _ _ rep_tags c
                 (only_s_children c Hc (below_in_iter _ _ Hb))).
      reflexivity.
Qed.

(** The identities of the spliced tree: those of the placeholder give way
    to those of what takes its place. *)
Lemma uids_splice (t : element) :
  below s t -> List.NoDup (uids t) ->
  exists pre post tg,
    uids t = pre ++ uids s ++ post
    /\ uids (splice (e_uid s) rep t) = pre ++ flat_map uids (rep tg) ++ post.
Proof.
  intros Hb. induction Hb as [eu tg a x l1 l2 | eu tg a x l1 c l2 Hb IH];
    intros Hnd.
  - rewrite (splice_at_child _ _ eu tg a x l1 l2 s eq_refl Hnd).
    exists (eu :: flat_map uids l1), (flat_map uids l2), tg.
    rewrite !uids_unfold with (e := Element _ _ _ _ _).
    cbn [e_uid e_children]. rewrite !flat_map_app. cbn [flat_map].
    rewrite ?flat_map_app. split; reflexivity.
  - rewrite (splice_at_deeper _ _ eu tg a x l1 l2 c s eq_refl Hb Hnd).
    destruct (nodup_children _ _ _ _ _ _ _ Hnd) as [_ [Hc _]].
    destruct (IH Hc) as [pre [post [tg' [H1 H2]]]].
    exists (eu :: flat_map uids l1 ++ pre), (post ++ flat_map uids l2), tg'.
    rewrite !uids_unfold with (e := Element _ _ _ _ _).
    cbn [e_uid e_children]. rewrite !flat_map_app. cbn [flat_map].
    rewrite H1, H2. cbn [app]. rewrite <- !app_assoc. split; reflexivity.
Qed.

Lemma bibliographies_splice (t : element) :
  (forall tg, List.filter is_citavi_bibliography (flat_map iter (rep tg)) = []) ->
  In s (iter t) -> List.NoDup (uids t) ->
  bibliographies t = [] ->
  bibliographies (splice (e_uid s) rep t) = [].
Proof.
  intros Hrep Hs Hnd Hnone. apply filter_none. intros e He.
  destruct (iter_splice_cases _ _ _ _ He) as [[e0 [H0 ->]] | [tg H]].
  - rewrite (is_citavi_bibliography_splice _ _ rep_tags).
    + apply (proj2 (filter_none _ _) Hnone). exact H0.
    + intros c Hc. apply (only_s t Hnd Hs). apply (iter_trans t e0 c); assumption.
  - apply (proj2 (filter_none _ _) (Hrep tg)). exact H.
Qed.

End SpliceEffect.

(** *** The runs of a citation field *)

Lemma instr_runs_next (cs : list str) : forall n,
  snd (instr_runs n cs) = n + 2 * length cs.
Proof.
  induction cs as [|c cs IH]; intros n; [cbn; lia|].
  cbn [instr_runs instr_run]. specialize (IH (n + 2)).
  destruct (instr_runs (n + 2) cs) as [rs n2]. cbn [snd length] in *. lia.
Qed.

Lemma instr_runs_uids (cs : list str) : forall n,
  flat_map uids (fst (instr_runs n cs)) = seq n (2 * length cs).
Proof.
  induction cs as [|c cs IH]; intros n; [reflexivity|].
  cbn [instr_runs instr_run]. specialize (IH (n + 2)).
  destruct (instr_runs (n + 2) cs) as [rs n2]. cbn [fst flat_map] in *.
  rewrite IH. cbn [length].
  replace (2 * S (length cs)) with (S (S (2 * length cs))) by lia.
  cbn [seq]. replace (S (S n)) with (n + 2) by lia.
  replace (S n) with (n + 1) by lia. reflexivity.
Qed.

Lemma instr_runs_plain (cs : list str) : forall n,
  Forall (fun r => e_tag r = w "r" /\ is_begin_run r = false
                   /\ count_zotero_fields r = 0 /\ placeholders r = []
                   /\ bibliographies r = [])
         (fst (instr_runs n cs)).
Proof.
  induction cs as [|c cs IH]; intros n; [constructor|].
  cbn [instr_runs instr_run]. specialize (IH (n + 2)).
  destruct (instr_runs (n + 2) cs) as [rs n2]. cbn [fst] in *.
  constructor; [|exact IH]. repeat split; reflexivity.
Qed.

Lemma count_pairs_no_begin (l : list element) :
  Forall (fun r => is_begin_run r = false) l -> count_pairs l = 0.
Proof.
  induction 1 as [|a l Ha Hl IH]; [reflexivity|].
  change (count_pairs (a :: l))
    with ((match l with
           | b :: _ => if is_begin_run a && is_zotero_instr_run b then 1 else 0
           | [] => 0
           end) + count_pairs l).
  rewrite IH, Ha. destruct l; reflexivity.
Qed.

Lemma no_placeholders_in (l : list element) :
  Forall (fun r => placeholders r = []) l ->
  List.filter is_citavi_placeholder (flat_map iter l) = [].
Proof.
  induction 1 as [|a l Ha Hl IH]; [reflexivity|].
  cbn [flat_map]. rewrite List.filter_app, IH. fold (placeholders a).
  rewrite Ha. reflexivity.
Qed.

Lemma no_bibliographies_in (l : list element) :
  Forall (fun r => bibliographies r = []) l ->
  List.filter is_citavi_bibliography (flat_map iter l) = [].
Proof.
  induction 1 as [|a l Ha Hl IH]; [reflexivity|].
  cbn [flat_map]. rewrite List.filter_app, IH. fold (bibliographies a).
  rewrite Ha. reflexivity.
Qed.

Lemma no_fields_in (l : list element) :
  Forall (fun r => count_zotero_fields r = 0) l ->
  list_sum (map count_zotero_fields l) = 0.
Proof.
  induction 1 as [|a l Ha Hl IH]; [reflexivity|].
  cbn [map list_sum fold_right]. fold (list_sum (map count_zotero_fields l)).
  rewrite Ha, IH. reflexivity.
Qed.

(** The runs of a field: their identities are the next ones, in order;
    they are runs without placeholders; they hold one citation field,
    which starts at the first run and ends at the last. *)
Lemma field_runs_facts (n : nat) (citation_json_str display_text : str) :
  let runs := fst (create_zotero_field_xml n citation_json_str display_text) in
  let n1 := snd (create_zotero_field_xml n citation_json_str display_text) in
  n < n1
  /\ flat_map uids runs = seq n (n1 - n)
  /\ Forall (fun r => e_tag r = w "r" /\ count_zotero_fields r = 0
                      /\ placeholders r = [] /\ bibliographies r = []) runs
  /\ count_pairs runs = 1
  /\ (exists a r, runs = a :: r /\ is_zotero_instr_run a = false)
  /\ (exists f z, runs = f ++ [z] /\ is_begin_run z = false).
Proof.
  unfold create_zotero_field_xml. cbn [fld_char_run].
  destruct (chunks_first chunk_size (citation_instr_text citation_json_str))
    as [rest Hchunks]; [unfold chunk_size; lia | discriminate |].
  pose proof (instr_runs_next
                (chunks chunk_size (citation_instr_text citation_json_str)) (n + 2))
    as Hnext.
  pose proof (instr_runs_uids
                (chunks chunk_size (citation_instr_text citation_json_str)) (n + 2))
    as Huids.
  pose proof (instr_runs_plain
                (chunks chunk_size (citation_instr_text citation_json_str)) (n + 2))
    as Hplain.
  assert (Hhead : exists r1 rs',
             fst (instr_runs (n + 2)
                    (chunks chunk_size (citation_instr_text citation_json_str)))
             = r1 :: rs' /\ is_zotero_instr_run r1 = true).
  { rewrite Hchunks. cbn [instr_runs instr_run].
    destruct (instr_runs (n + 2 + 2) rest) as [rs' n']. cbn [fst].
    eexists _, rs'. split; [reflexivity|].
    unfold is_zotero_instr_run. cbn [e_tag e_children new_element existsb e_text].
    rewrite !eqb_str_refl. cbn [andb orb].
    change (take chunk_size (citation_instr_text citation_json_str))
      with (ZOTERO_ITEM_PREFIX ++ take 218 (citation_json_str ++ lit " ")).
    rewrite startswith_app. reflexivity. }
  destruct (instr_runs (n + 2) _) as [rs n2]. cbn [fst snd] in *.
  set (k := length (chunks chunk_size (citation_instr_text citation_json_str))) in *.
  destruct Hhead as [r1 [rs' [Hrs Hr1]]].
  split; [lia|]. split; [|split; [|split; [|split]]].
  - cbn [app flat_map]. rewrite flat_map_app, Huids.
    replace (n2 + 2 + 4 + 2 - n) with (2 + (2 * k + 8)) by lia.
    rewrite seq_app, seq_app. cbn [flat_map app seq].
    replace (n + 2 + 2 * k) with n2 by lia.
    change (uids (new_element n (w "r") [] None
                   [new_element (n + 1) (w "fldChar") [(FLD_CHAR_TYPE, lit "begin")] None []]))
      with [n; n + 1].
    cbn [app]. replace (S n) with (n + 1) by lia. do 2 f_equal.
    replace (n + 1 + 1) with (n + 2) by lia. f_equal.
    cbv [uids iter new_element flat_map map e_uid app].
    repeat (f_equal; try lia).
  - apply Forall_app. split; [repeat constructor|].
    apply Forall_app. split.
    + eapply Forall_impl; [exact Hplain|]. cbn beta. tauto.
    + repeat constructor.
  - rewrite Hrs. cbn [app].
    change (count_pairs (?a :: r1 :: ?l))
      with ((if is_begin_run a && is_zotero_instr_run r1 then 1 else 0)
            + count_pairs (r1 :: l)).
    rewrite Hr1.
    change (is_begin_run _) with true at 1. cbn [andb].
    change (r1 :: rs' ++ ?l) with ((r1 :: rs') ++ l). rewrite <- Hrs.
    rewrite count_pairs_no_begin; [reflexivity|].
    apply Forall_app. split.
    + eapply Forall_impl; [exact Hplain|]. cbn beta. tauto.
    + repeat constructor.
  - eexists _, _. split; [reflexivity | reflexivity].
  - eexists (_ :: rs ++ [_; _]), _. split.
    + cbn [app]. rewrite <- app_assoc. reflexivity.
    + reflexivity.
Qed.

(** *** One replacement in a plain part *)

Lemma nodup_replace {A} (pre mid new post : list A) :
  List.NoDup (pre ++ mid ++ post) -> List.NoDup new ->
  (forall x, In x new -> ~ In x pre /\ ~ In x post) ->
  List.NoDup (pre ++ new ++ post).
Proof.
  rewrite !nodup_app. intros [Hpre [[Hmid [Hpost Hmp]] Hd]] Hnew Hfresh.
  repeat split; try assumption.
  - intros x Hx. apply (Hfresh x Hx).
  - intros x Hx Hin. apply in_app_iff in Hin as [Hin | Hin].
    + apply (proj1 (Hfresh x Hin)). exact Hx.
    + apply (Hd x Hx). apply in_or_app. right. exact Hin.
Qed.

Lemma nodup_filter_map {A B} (f : A -> B) (q : A -> bool) (l : list A) :
  List.NoDup (map f l) -> List.NoDup (map f (List.filter q l)).
Proof.
  induction l as [|a l IH]; intros H; [constructor|].
  cbn [map] in H. apply List.NoDup_cons_iff in H as [Ha Hl].
  cbn [List.filter]. destruct (q a); [|apply IH; exact Hl].
  cbn [map]. constructor; [|apply IH; exact Hl].
  intros Hin. apply Ha. apply in_map_iff in Hin as [x [Hx Hin]].
  apply filter_In in Hin as [Hin _]. apply in_map_iff. exists x. tauto.
Qed.

(** Taking out the one element with a given identity. *)
Lemma filter_out_unique (kept rest : list element) (s : element) :
  List.NoDup (map e_uid (kept ++ s :: rest)) ->
  List.filter (fun p => negb (e_uid p =? e_uid s)) (kept ++ s :: rest)
  = kept ++ rest.
Proof.
  rewrite map_app. cbn [map]. intros Hnd.
  apply nodup_app in Hnd as [_ [Hnd Hd]].
  apply List.NoDup_cons_iff in Hnd as [Hs _].
  rewrite List.filter_app. cbn [List.filter]. rewrite Nat.eqb_refl. cbn [negb].
  rewrite !filter_all; [reflexivity | |].
  - intros x Hx. apply negb_true_iff, Nat.eqb_neq. intros E. apply Hs.
    rewrite <- E. apply in_map. exact Hx.
  - intros x Hx. apply negb_true_iff, Nat.eqb_neq. intros E.
    apply (Hd (e_uid x)); [apply in_map; exact Hx | left; symmetry; exact E].
Qed.

Section Replacement.

Variable n : nat.
Variables citation_json_str display_text : str.

Let runs := fst (create_zotero_field_xml n citation_json_str display_text).
Let n1 := snd (create_zotero_field_xml n citation_json_str display_text).
Let rep := replacement n1 runs.

Lemma rep_cases (tg : str) :
  rep tg = runs \/ rep tg = [new_element n1 (w "p") [] None runs].
Proof.
  unfold rep, replacement.
  destruct (eqb_str (localname tg) (lit "p")); [left | right]; reflexivity.
Qed.

Lemma rep_tags (tg : str) (r : element) :
  In r (rep tg) -> e_tag r = w "r" \/ e_tag r = w "p".
Proof.
  destruct (field_runs_facts n citation_json_str display_text)
    as [_ [_ [Hall _]]].
  destruct (rep_cases tg) as [-> | ->].
  - intros Hr. left. fold runs in Hall. rewrite List.Forall_forall in Hall.
    apply (Hall r Hr).
  - intros [<- | []]. right. reflexivity.
Qed.

Lemma rep_no_placeholder (tg : str) :
  List.filter is_citavi_placeholder (flat_map iter (rep tg)) = [].
Proof.
  destruct (field_runs_facts n citation_json_str display_text)
    as [_ [_ [Hall _]]].
  fold runs in Hall.
  assert (Hruns : List.filter is_citavi_placeholder (flat_map iter runs) = []).
  { apply no_placeholders_in. eapply Forall_impl; [exact Hall|]. cbn beta. tauto. }
  destruct (rep_cases tg) as [-> | ->]; [exact Hruns|].
  cbn [flat_map]. rewrite app_nil_r. fold (placeholders (new_element n1 (w "p") [] None runs)).
  rewrite placeholders_unfold. cbn [e_children new_element].
  rewrite Hruns. reflexivity.
Qed.

Lemma rep_no_bibliography (tg : str) :
  List.filter is_citavi_bibliography (flat_map iter (rep tg)) = [].
Proof.
  destruct (field_runs_facts n citation_json_str display_text)
    as [_ [_ [Hall _]]].
  fold runs in Hall.
  assert (Hruns : List.filter is_citavi_bibliography (flat_map iter runs) = []).
  { apply no_bibliographies_in. eapply Forall_impl; [exact Hall|]. cbn beta. tauto. }
  destruct (rep_cases tg) as [-> | ->]; [exact Hruns|].
  cbn [flat_map]. rewrite app_nil_r, iter_unfold. cbn [e_children new_element].
  cbn [List.filter]. change (is_citavi_bibliography (Element n1 (w "p") [] None runs))
    with false. exact Hruns.
Qed.

Lemma rep_one_field (tg : str) :
  count_pairs (rep tg) + list_sum (map count_zotero_fields (rep tg)) = 1.
Proof.
  destruct (field_runs_facts n citation_json_str display_text)
    as [_ [_ [Hall [Hone _]]]].
  fold runs in Hall, Hone.
  assert (Hsum : list_sum (map count_zotero_fields runs) = 0).
  { apply no_fields_in. eapply Forall_impl; [exact Hall|]. cbn beta. tauto. }
  destruct (rep_cases tg) as [-> | ->]; [lia|].
  cbn [count_pairs map list_sum fold_right].
  rewrite count_zotero_fields_unfold. cbn [e_children new_element]. lia.
Qed.

Lemma rep_head (tg : str) :
  exists a r, rep tg = a :: r /\ is_zotero_instr_run a = false.
Proof.
  destruct (field_runs_facts n citation_json_str display_text)
    as [_ [_ [_ [_ [Hhead _]]]]].
  destruct (rep_cases tg) as [-> | ->]; [exact Hhead|].
  eexists _, []. split; reflexivity.
Qed.

Lemma rep_last (tg : str) :
  exists f z, rep tg = f ++ [z] /\ is_begin_run z = false.
Proof.
  destruct (field_runs_facts n citation_json_str display_text)
    as [_ [_ [_ [_ [_ Hlast]]]]].
  destruct (rep_cases tg) as [-> | ->]; [exact Hlast|].
  eexists [], _. split; reflexivity.
Qed.

Lemma rep_uids (tg : str) :
  List.NoDup (flat_map uids (rep tg))
  /\ forall x, In x (flat_map uids (rep tg)) -> n <= x < n1 + 1.
Proof.
  destruct (field_runs_facts n citation_json_str display_text)
    as [Hlt [Huids _]].
  fold runs n1 in Hlt, Huids.
  destruct (rep_cases tg) as [-> | ->].
  - rewrite Huids. split; [apply seq_NoDup|].
    intros x Hx. apply in_seq in Hx. lia.
  - cbn [flat_map]. rewrite app_nil_r, uids_unfold.
    cbn [e_uid e_children new_element]. rewrite Huids. split.
    + constructor; [|apply seq_NoDup]. intros Hx. apply in_seq in Hx. lia.
    + intros x [<- | Hx]; [lia|]. apply in_seq in Hx. lia.
Qed.

(** Replacing one placeholder of a plain part: the function finds the
    parent and changes the tree into the spliced one, which is a plain
    part again, without that placeholder and with one field more. *)
Lemma replace_in_plain_part (t s : element) :
  plain_part n t -> In s (placeholders t) ->
  let t' := splice (e_uid s) rep t in
  replace_sdt_in n1 (e_uid s) runs t = Some t'
  /\ plain_part (n1 + 1) t'
  /\ placeholders t'
     = List.filter (fun p => negb (e_uid p =? e_uid s)) (placeholders t)
  /\ count_zotero_fields t' = count_zotero_fields t + 1
  /\ (bibliographies t = [] -> bibliographies t' = []).
Proof.
  intros [Hnd [Hbound [Hroot Hnn]]] Hs. cbn zeta.
  destruct (Hnn s Hs) as [Halone Hzero].
  assert (Hin : In s (iter t)) by (apply filter_In in Hs as [H _]; exact H).
  assert (Hph : is_citavi_placeholder s = true)
    by (apply filter_In in Hs as [_ H]; exact H).
  assert (Hb : below s t).
  { destruct (iter_cases t s Hin) as [-> | H]; [congruence | exact H]. }
  assert (Hplaces : placeholders (splice (e_uid s) rep t)
                    = List.filter (fun p => negb (e_uid p =? e_uid s)) (placeholders t)).
  { apply placeholders_splice; try assumption.
    - apply rep_tags.
    - apply rep_no_placeholder.
    - intros p Hp. apply (Hnn p Hp). }
  assert (Hu : forall c, In c (iter t) -> e_uid c = e_uid s -> e_tag c = w "sdt").
  { apply only_s; assumption. }
  destruct (uids_splice s rep t Hb Hnd) as [pre [post [tg [Hold Hnew]]]].
  destruct (rep_uids tg) as [Hrnd Hrange].
  split; [|split; [|split; [|split]]].
  - apply replace_sdt_in_splice; assumption.
  - split; [|split; [|split]].
    + rewrite Hnew. rewrite Hold in Hnd.
      apply (nodup_replace pre (uids s) _ post Hnd Hrnd).
      intros x Hx. specialize (Hrange x Hx).
      split; intros Hin'.
      * assert (x < n); [|lia].
        apply Hbound. rewrite Hold. apply in_or_app. left. exact Hin'.
      * assert (x < n); [|lia].
        apply Hbound. rewrite Hold. apply in_or_app. right.
        apply in_or_app. right. exact Hin'.
    + intros x. rewrite Hnew, !in_app_iff. intros [Hx | [Hx | Hx]].
      * assert (x < n); [|destruct (field_runs_facts n citation_json_str display_text)
                             as [Hlt _]; fold n1 in Hlt; lia].
        apply Hbound. rewrite Hold. apply in_or_app. left. exact Hx.
      * specialize (Hrange x Hx). lia.
      * assert (x < n); [|destruct (field_runs_facts n citation_json_str display_text)
                             as [Hlt _]; fold n1 in Hlt; lia].
        apply Hbound. rewrite Hold. apply in_or_app. right.
        apply in_or_app. right. exact Hx.
    + rewrite (is_citavi_placeholder_splice _ _ rep_tags t Hu). exact Hroot.
    + intros p Hp. rewrite Hplaces in Hp. apply filter_In in Hp as [Hp _].
      apply (Hnn p Hp).
  - exact Hplaces.
  - pose proof (count_zotero_fields_splice s rep Halone rep_tags rep_one_field
                  rep_head rep_last t Hb Hnd) as Hc.
    lia.
  - apply (bibliographies_splice s rep Halone rep_tags t rep_no_bibliography
             Hin Hnd).
Qed.

End Replacement.

End SpliceFacts.

(** ** The bibliography paragraph *)

Section BibliographyProps.

Lemma index_of_found (u : nat) (l : list element) : forall i,
  index_of u l = Some i ->
  exists z r, l = take i l ++ z :: r /\ drop i l = z :: r /\ e_uid z = u.
Proof.
  induction l as [|c l IH]; intros i; [discriminate|].
  cbn [index_of]. destruct (e_uid c =? u) eqn:E.
  - intros H. injection H as <-. exists c, l. apply Nat.eqb_eq in E.
    split; [reflexivity | split; [reflexivity | exact E]].
  - destruct (index_of u l) as [j|]; [|discriminate].
    cbn [option_map]. intros H. injection H as <-.
    destruct (IH j eq_refl) as [z [r [H1 [H2 H3]]]].
    exists z, r. cbn [take drop app]. rewrite <- H1.
    split; [reflexivity | split; assumption].
Qed.

Lemma find_split {A} (q : A -> bool) (l : list A) (x : A) :
  List.find q l = Some x ->
  exists l1 l2, l = l1 ++ x :: l2 /\ q x = true.
Proof.
  intros H. apply find_some in H as [Hin Hq].
  apply in_split in Hin as [l1 [l2 ->]]. eauto.
Qed.

Lemma find_skip {A} (q : A -> bool) (l1 l2 : list A) (b b' : A) :
  q b = false -> q b' = false ->
  List.find q (l1 ++ b' :: l2) = List.find q (l1 ++ b :: l2).
Proof.
  intros Hb Hb'. induction l1 as [|a l1 IH]; cbn [app List.find].
  - rewrite Hb, Hb'. reflexivity.
  - destruct (q a); [reflexivity | exact IH].
Qed.

(** The paragraph of the bibliography field holds no placeholder and no
    citation field. *)
Lemma bibl_paragraph_plain (n : nat) (style_uri : str) :
  let p := new_element n (w "p") [] None
             (fst (create_zotero_bibl_field_xml (n + 1) style_uri)) in
  placeholders p = [] /\ count_zotero_fields p = 0
  /\ is_zotero_instr_run p = false /\ is_begin_run p = false.
Proof. cbn zeta. repeat split; reflexivity. Qed.

(** Where the paragraph goes among the children of the body. *)
Lemma bibl_position (body p : element) :
  List.NoDup (uids body) ->
  let cs := e_children body in
  let cs' := match find (w "sectPr") body with
             | Some sect_pr =>
                 match index_of (e_uid sect_pr) cs with
                 | Some i => insert_at i p cs
                 | None => cs ++ [p]
                 end
             | None => cs ++ [p]
             end in
  exists k1 k2,
    cs = k1 ++ k2 /\ cs' = k1 ++ p :: k2
    /\ (k2 = [] \/ exists z r, k2 = z :: r /\ is_zotero_instr_run z = false).
Proof.
  intros Hnd. cbn zeta.
  assert (Hend : exists k1 k2,
             e_children body = k1 ++ k2 /\ e_children body ++ [p] = k1 ++ p :: k2
             /\ (k2 = [] \/ exists z r, k2 = z :: r /\ is_zotero_instr_run z = false)).
  { exists (e_children body), []. rewrite app_nil_r. repeat split. left. reflexivity. }
  destruct (find (w "sectPr") body) as [sect_pr|] eqn:Hsect; [|exact Hend].
  destruct (index_of (e_uid sect_pr) (e_children body)) as [i|] eqn:Hi; [|exact Hend].
  destruct (index_of_found _ _ _ Hi) as [z [r [H1 [H2 H3]]]].
  exists (take i (e_children body)), (z :: r). unfold insert_at. rewrite H2.
  split; [exact H1|]. split; [reflexivity|]. right. exists z, r.
  split; [reflexivity|].
  unfold find in Hsect. apply find_some in Hsect as [Hin Htag].
  assert (Hz : In z (e_children body)).
  { rewrite H1. apply in_or_app. right. left. reflexivity. }
  assert (Hsame : z = sect_pr).
  { apply (same_uid_same_element body); try assumption.
    - apply (iter_child body z); [exact Hz | apply iter_self].
    - apply (iter_child body sect_pr); [exact Hin | apply iter_self]. }
  unfold is_zotero_instr_run. rewrite Hsame.
  apply eqb_str_true in Htag. rewrite Htag. reflexivity.
Qed.

(** Appending the bibliography changes neither the placeholders nor the
    citation fields of the part. *)
Lemma add_zotero_bibl_keeps (n : nat) (root : element) (style_uri : str) :
  List.NoDup (uids root) -> is_citavi_placeholder root = false ->
  placeholders (snd (fst (add_zotero_bibl_at_end n root style_uri)))
  = placeholders root
  /\ count_zotero_fields (snd (fst (add_zotero_bibl_at_end n root style_uri)))
     = count_zotero_fields root.
Proof.
  intros Hnd Hroot. unfold add_zotero_bibl_at_end.
  destruct (find (w "body") root) as [body|] eqn:Hbody; [|split; reflexivity].
  destruct (has_zotero_bibl root); [split; reflexivity|].
  destruct (bibl_paragraph_plain n style_uri) as [Hp1 [Hp2 [Hp3 Hp4]]].
  destruct (create_zotero_bibl_field_xml (n + 1) style_uri) as [bibl_runs n1].
  cbn [fst snd] in *.
  set (p := new_element n (w "p") [] None bibl_runs) in *.
  destruct root as [ru rt ra rx rcs]. unfold find in Hbody. cbn [e_children] in Hbody.
  destruct (find_split _ _ _ Hbody) as [l1 [l2 [-> Htag]]].
  apply eqb_str_true in Htag.
  destruct (nodup_children _ _ _ _ _ _ _ Hnd) as [Hru [Hbnd Hb]].
  assert (Hbu : In (e_uid body) (uids body)) by (rewrite uids_unfold; left; reflexivity).
  destruct (Hb _ Hbu) as [Hne [Hl1 Hl2]].
  destruct (bibl_position body p Hbnd) as [k1 [k2 [Hcs [Hcs' Hk2]]]].
  cbn zeta in Hcs'. rewrite Hcs'. clear Hcs'.
  cbn [update_children].
  replace (ru =? e_uid body) with false
    by (symmetry; apply Nat.eqb_neq; intros E; apply Hne; symmetry; exact E).
  rewrite map_app. cbn [map].
  rewrite !update_children_list_absent by assumption.
  destruct body as [bu bt ba bx bcs]. cbn [e_uid e_tag e_children] in *.
  cbn [update_children]. rewrite Nat.eqb_refl. subst bt bcs.
  set (body := Element bu (w "body") ba bx (k1 ++ k2)) in *.
  set (body' := Element bu (w "body") ba bx (k1 ++ p :: k2)) in *.
  assert (Hroot' : is_citavi_placeholder (Element ru rt ra rx (l1 ++ body' :: l2)) = false).
  { rewrite <- Hroot. unfold is_citavi_placeholder, sdt_tag_val, find.
    cbn [e_tag e_children].
    rewrite (find_skip _ l1 l2 body body'); reflexivity. }
  split.
  - rewrite !placeholders_unfold, Hroot, Hroot'. cbn [app e_children].
    rewrite !flat_map_app. cbn [flat_map]. rewrite !List.filter_app.
    f_equal. f_equal.
    fold (placeholders body') (placeholders body).
    rewrite !placeholders_unfold. unfold body, body'. cbn [e_children].
    change (is_citavi_placeholder (Element bu (w "body") ba bx _)) with false.
    cbn [app]. rewrite !flat_map_app. cbn [flat_map].
    rewrite !List.filter_app. fold (placeholders p). rewrite Hp1. reflexivity.
  - rewrite !count_zotero_fields_unfold with (e := Element ru _ _ _ _).
    cbn [e_children].
    rewrite (count_pairs_same (l1 ++ body' :: l2) (l1 ++ body :: l2))
      by (rewrite !map_app; reflexivity).
    rewrite !map_app, !list_sum_app. cbn [map list_sum fold_right].
    rewrite !count_zotero_fields_unfold with (e := body').
    rewrite !count_zotero_fields_unfold with (e := body).
    unfold body, body'. cbn [e_children].
    change (p :: k2) with ([p] ++ k2).
    rewrite (count_pairs_stretch k1 [p] k2).
    + rewrite !map_app, !list_sum_app. cbn [map list_sum fold_right count_pairs].
      rewrite Hp2.
      assert (Hsplit : count_pairs (k1 ++ k2) = count_pairs k1 + count_pairs k2).
      { destruct Hk2 as [-> | [z [r [-> Hz]]]].
        - rewrite app_nil_r. cbn [count_pairs]. lia.
        - apply count_pairs_app_instr. exact Hz. }
      lia.
    + exists p, []. split; [reflexivity | exact Hp3].
    + exists [], p. split; [reflexivity | exact Hp4].
Qed.

End BibliographyProps.

(** ** The integrity check along the conversion *)

Section IntegrityFacts.

(** *** The walk over the markers *)

Lemma walk_fld_chars_types (l : list element) : forall k,
  walk_fld_chars k l
  = walk_types k (map (fun e => get e FLD_CHAR_TYPE []) l).
Proof.
  induction l as [|e l IH]; intros k; [reflexivity|].
  cbn [walk_fld_chars walk_types map]. cbv zeta.
  destruct (_ <? 0)%Z; [reflexivity | apply IH].
Qed.

Lemma walk_types_app (l1 l2 : list str) : forall k,
  walk_types k (l1 ++ l2)
  = (if snd (walk_types k l1) then (fst (walk_types k l1), true)
     else walk_types (fst (walk_types k l1)) l2).
Proof.
  induction l1 as [|t l1 IH]; intros k; [reflexivity|].
  cbn [app walk_types]. cbv zeta.
  destruct (_ <? 0)%Z; [reflexivity | apply IH].
Qed.

Lemma walk_types_shift (l : list str) : forall k k' d,
  (0 <= d)%Z -> walk_types k l = (k', false) ->
  walk_types (k + d) l = ((k' + d)%Z, false).
Proof.
  induction l as [|t l IH]; intros k k' d Hd H.
  - cbn [walk_types] in *. injection H as <-. reflexivity.
  - cbn [walk_types] in *. cbv zeta in *.
    destruct (eqb_str t (lit "begin")); [|destruct (eqb_str t (lit "end"))].
    + destruct (k + 1 <? 0)%Z eqn:E; [discriminate|].
      apply Z.ltb_ge in E.
      replace (k + d + 1 <? 0)%Z with false by (symmetry; apply Z.ltb_ge; lia).
      replace (k + d + 1)%Z with (k + 1 + d)%Z by lia. apply IH; assumption.
    + destruct (k - 1 <? 0)%Z eqn:E; [discriminate|].
      apply Z.ltb_ge in E.
      replace (k + d - 1 <? 0)%Z with false by (symmetry; apply Z.ltb_ge; lia).
      replace (k + d - 1)%Z with (k - 1 + d)%Z by lia. apply IH; assumption.
    + destruct (k <? 0)%Z eqn:E; [discriminate|].
      apply Z.ltb_ge in E.
      replace (k + d <? 0)%Z with false by (symmetry; apply Z.ltb_ge; lia).
      apply IH; assumption.
Qed.

Lemma walk_types_nonneg (l : list str) : forall k k',
  (0 <= k)%Z -> walk_types k l = (k', false) -> (0 <= k')%Z.
Proof.
  induction l as [|t l IH]; intros k k' Hk H.
  - cbn [walk_types] in H. injection H as <-. exact Hk.
  - cbn [walk_types] in H. cbv zeta in H.
    match type of H with
    | (if (?x <? 0)%Z then _ else _) = _ =>
        destruct (x <? 0)%Z eqn:E; [discriminate|];
        apply Z.ltb_ge in E; apply (IH _ _ E H)
    end.
Qed.

(** A stretch of paired markers can be put in, taken out or exchanged
    for another one without changing the outcome of the walk. *)
Lemma walk_types_stretch (pre mid post : list str) :
  walk_types 0 mid = (0%Z, false) ->
  walk_types 0 (pre ++ mid ++ post) = walk_types 0 (pre ++ post).
Proof.
  intros Hmid. rewrite !walk_types_app.
  destruct (walk_types 0 pre) as [k b] eqn:E. cbn [fst snd].
  destruct b; [reflexivity|].
  pose proof (walk_types_nonneg pre 0 k (Z.le_refl 0) E) as Hk.
  pose proof (walk_types_shift mid 0 0 k Hk Hmid) as Hs.
  rewrite !Z.add_0_l in Hs. rewrite Hs. reflexivity.
Qed.

(** *** Summaries in document order *)

Lemma flat_map_iter {A} (own : element -> list A) (e : element) :
  flat_map own (iter e)
  = own e ++ flat_map (fun c => flat_map own (iter c)) (e_children e).
Proof.
  rewrite iter_unfold. cbn [flat_map]. f_equal.
  induction (e_children e) as [|c cs IH]; [reflexivity|].
  cbn [flat_map]. rewrite flat_map_app, IH. reflexivity.
Qed.

Lemma map_filter_summary {A} (q : element -> bool) (f : element -> A)
    (l : list element) :
  map f (List.filter q l) = flat_map (fun e => if q e then [f e] else []) l.
Proof.
  induction l as [|e l IH]; [reflexivity|].
  cbn [List.filter flat_map]. destruct (q e); cbn [map app]; rewrite IH; reflexivity.
Qed.

Lemma flat_map_filter_summary {A} (q : element -> bool) (f : element -> list A)
    (l : list element) :
  flat_map f (List.filter q l) = flat_map (fun e => if q e then f e else []) l.
Proof.
  induction l as [|e l IH]; [reflexivity|].
  cbn [List.filter flat_map]. destruct (q e); cbn [flat_map app]; rewrite IH;
    reflexivity.
Qed.

Section Summary.

Variable s : element.
Variable rep : str -> list element.
Variable A : Type.
Variable own : element -> list A.

Let summary (t : element) : list A := flat_map own (iter t).

(** The summary of the spliced tree: the part of the placeholder gives
    way to the part of what takes its place. *)
Lemma summary_splice (t : element) :
  below s t -> List.NoDup (uids t) ->
  (forall e, In e (iter t) -> own (splice (e_uid s) rep e) = own e) ->
  exists pre post tg,
    summary t = pre ++ summary s ++ post
    /\ summary (splice (e_uid s) rep t)
       = pre ++ flat_map summary (rep tg) ++ post.
Proof.
  intros Hb. induction Hb as [eu tg a x l1 l2 | eu tg a x l1 c l2 Hb IH];
    intros Hnd Hown.
  - pose proof (Hown _ (iter_self _)) as Hroot.
    rewrite (splice_at_child _ _ eu tg a x l1 l2 s eq_refl Hnd) in Hroot |- *.
    exists (own (Element eu tg a x (l1 ++ s :: l2)) ++ flat_map summary l1),
           (flat_map summary l2), tg.
    unfold summary. rewrite !flat_map_iter with (e := Element _ _ _ _ _).
    cbn [e_children]. rewrite Hroot, !flat_map_app. cbn [flat_map].
    rewrite <- !app_assoc. split; reflexivity.
  - pose proof (Hown _ (iter_self _)) as Hroot.
    rewrite (splice_at_deeper _ _ eu tg a x l1 l2 c s eq_refl Hb Hnd) in Hroot |- *.
    destruct (nodup_children _ _ _ _ _ _ _ Hnd) as [_ [Hc _]].
    destruct (IH Hc) as [pre [post [tg' [H1 H2]]]].
    { intros e He. apply Hown.
      apply (iter_child (Element eu tg a x (l1 ++ c :: l2)) c);
        [cbn [e_children]; apply in_or_app; right; left; reflexivity | exact He]. }
    exists (own (Element eu tg a x (l1 ++ c :: l2)) ++ flat_map summary l1 ++ pre),
           (post ++ flat_map summary l2), tg'.
    unfold summary in *. rewrite !flat_map_iter with (e := Element _ _ _ _ _).
    cbn [e_children]. rewrite Hroot, !flat_map_app. cbn [flat_map].
    rewrite H1, H2. rewrite <- !app_assoc. split; reflexivity.
Qed.

End Summary.

(** *** The three checks *)

Let own_fld (e : element) : list str :=
  if eqb_str (e_tag e) (w "fldChar") then [get e FLD_CHAR_TYPE []] else [].

Let own_sdt (e : element) : list str :=
  if eqb_str (e_tag e) (w "sdt")
  then match find (w "sdtContent") e with
       | None => [ISSUE_SDT_NO_CONTENT]
       | Some _ => []
       end
  else [].

Lemma balanced_types (e : element) :
  balanced e <-> walk_types 0 (flat_map own_fld (iter e)) = (0%Z, false).
Proof.
  unfold balanced. rewrite walk_fld_chars_types. unfold iter_tag.
  rewrite map_filter_summary. reflexivity.
Qed.

(** The part passes the check when its markers are paired, it has a body
    and every structured-content node has a content region. *)
Lemma integrity_checks (root : element) :
  verify_document_integrity root = []
  <-> balanced root /\ find (w "body") root <> None
      /\ flat_map own_sdt (iter root) = [].
Proof.
  rewrite balanced_types. unfold verify_document_integrity.
  rewrite walk_fld_chars_types. unfold iter_tag.
  rewrite map_filter_summary, flat_map_filter_summary.
  fold own_fld.
  change (fun e : element =>
            if eqb_str (e_tag e) (w "sdt")
            then match find (w "sdtContent") e with
                 | Some _ => []
                 | None => [ISSUE_SDT_NO_CONTENT]
                 end
            else []) with own_sdt.
  destruct (walk_types 0 (flat_map own_fld (iter root))) as [fs broke] eqn:E.
  split.
  - intros H. destruct broke; [discriminate|]. cbn [app] in H.
    destruct (0 <? fs)%Z eqn:Hfs; [discriminate|]. cbn [app] in H.
    destruct (find (w "body") root); [|discriminate]. cbn [app] in H.
    apply Z.ltb_ge in Hfs.
    pose proof (walk_types_nonneg _ 0 fs (Z.le_refl 0) E) as Hge.
    replace fs with 0%Z by lia.
    split; [reflexivity|]. split; [discriminate | exact H].
  - intros [Hw [Hbody Hsdt]]. injection Hw as -> ->.
    rewrite Hsdt. cbn [app Z.ltb Z.compare].
    destruct (find (w "body") root); [reflexivity | congruence].
Qed.

Section SpliceIntegrity.

Variable s : element.
Variable rep : str -> list element.

Hypothesis s_alone : placeholders s = [s].
Hypothesis rep_tags :
  forall tg r, In r (rep tg) -> e_tag r = w "r" \/ e_tag r = w "p".
Hypothesis rep_markers :
  forall tg,
    walk_types 0 (flat_map (fun r => flat_map own_fld (iter r)) (rep tg))
    = (0%Z, false).
Hypothesis rep_no_sdt :
  forall tg, flat_map (fun r => flat_map own_sdt (iter r)) (rep tg) = [].

Lemma integrity_splice (t : element) :
  below s t -> List.NoDup (uids t) -> balanced s ->
  verify_document_integrity t = [] ->
  verify_document_integrity (splice (e_uid s) rep t) = [].
Proof.
  intros Hb Hnd Hbal Hok.
  pose proof (below_in_iter _ _ Hb) as Hin.
  apply integrity_checks in Hok as [Hw [Hbody Hsdt]].
  apply balanced_types in Hw. apply balanced_types in Hbal.
  apply integrity_checks. split; [|split].
  - apply balanced_types.
    destruct (summary_splice s rep str own_fld t Hb Hnd) as [pre [post [tg [H1 H2]]]].
    { intros e _. unfold own_fld. rewrite splice_tag, get_splice. reflexivity. }
    rewrite H2. rewrite (walk_types_stretch pre _ post (rep_markers tg)).
    rewrite <- (walk_types_stretch pre _ post Hbal). rewrite <- H1. exact Hw.
  - rewrite (find_tag_splice _ _ rep_tags (w "body")); try reflexivity.
    + destruct (find (w "body") t); [discriminate | congruence].
    + apply (only_s_children s s_alone t Hnd Hin).
  - destruct (summary_splice s rep str own_sdt t Hb Hnd) as [pre [post [tg [H1 H2]]]].
    { intros e He. unfold own_sdt. rewrite splice_tag.
      rewrite (find_tag_splice _ _ rep_tags (w "sdtContent")); try reflexivity.
      - destruct (find (w "sdtContent") e); reflexivity.
      - intros c Hc. apply (only_s s s_alone t Hnd Hin).
        apply (iter_trans t e c He).
        apply (iter_child e c); [exact Hc | apply iter_self]. }
    rewrite Hsdt in H1. symmetry in H1.
    apply app_eq_nil in H1 as [Hpre H1]. apply app_eq_nil in H1 as [_ Hpost].
    rewrite H2, Hpre, Hpost, rep_no_sdt. reflexivity.
Qed.

End SpliceIntegrity.

(** *** The runs of a field and the paragraph of the bibliography *)

Lemma instr_runs_markers (cs : list str) : forall n,
  flat_map (fun r => flat_map own_fld (iter r)) (fst (instr_runs n cs)) = []
  /\ flat_map (fun r => flat_map own_sdt (iter r)) (fst (instr_runs n cs)) = [].
Proof.
  induction cs as [|c cs IH]; intros n; [split; reflexivity|].
  cbn [instr_runs instr_run]. specialize (IH (n + 2)).
  destruct (instr_runs (n + 2) cs) as [rs n2]. cbn [fst flat_map] in *.
  destruct IH as [-> ->]. split; reflexivity.
Qed.

Lemma field_runs_markers (n : nat) (citation_json_str display_text : str) :
  let runs := fst (create_zotero_field_xml n citation_json_str display_text) in
  flat_map (fun r => flat_map own_fld (iter r)) runs
  = [lit "begin"; lit "separate"; lit "end"]
  /\ flat_map (fun r => flat_map own_sdt (iter r)) runs = [].
Proof.
  unfold create_zotero_field_xml. cbn [fld_char_run].
  destruct (instr_runs_markers
              (chunks chunk_size (citation_instr_text citation_json_str)) (n + 2))
    as [H1 H2].
  destruct (instr_runs (n + 2) _) as [rs n2]. cbn [fst] in *.
  rewrite !flat_map_app, H1, H2. split; reflexivity.
Qed.

Lemma replacement_markers (n pu : nat) (citation_json_str display_text tg : str) :
  let runs := fst (create_zotero_field_xml n citation_json_str display_text) in
  walk_types 0 (flat_map (fun r => flat_map own_fld (iter r))
                  (replacement pu runs tg)) = (0%Z, false)
  /\ flat_map (fun r => flat_map own_sdt (iter r)) (replacement pu runs tg) = [].
Proof.
  cbn zeta. destruct (field_runs_markers n citation_json_str display_text)
    as [H1 H2].
  unfold replacement. destruct (eqb_str (localname tg) (lit "p")).
  - rewrite H1, H2. split; reflexivity.
  - cbn [flat_map]. rewrite !app_nil_r.
    rewrite !flat_map_iter with (e := new_element _ _ _ _ _).
    cbn [e_children new_element]. rewrite H1, H2. split; reflexivity.
Qed.

(** Replacing a placeholder whose markers are paired keeps a part that
    passes the integrity check passing it. *)
Lemma replace_keeps_integrity (n : nat) (citation_json_str display_text : str)
    (t s : element) :
  plain_part n t -> In s (placeholders t) -> balanced s ->
  verify_document_integrity t = [] ->
  verify_document_integrity
    (splice (e_uid s)
       (replacement (snd (create_zotero_field_xml n citation_json_str display_text))
          (fst (create_zotero_field_xml n citation_json_str display_text)))
       t) = [].
Proof.
  intros [Hnd [_ [Hroot Hnn]]] Hs Hbal Hok.
  destruct (Hnn s Hs) as [Halone _].
  assert (Hin : In s (iter t)) by (apply filter_In in Hs as [H _]; exact H).
  assert (Hph : is_citavi_placeholder s = true)
    by (apply filter_In in Hs as [_ H]; exact H).
  assert (Hb : below s t).
  { destruct (iter_cases t s Hin) as [-> | H]; [congruence | exact H]. }
  apply integrity_splice; try assumption.
  - apply rep_tags.
  - intros tg. apply replacement_markers.
  - intros tg. apply replacement_markers.
Qed.

Lemma find_present {A} (q : A -> bool) (l : list A) (x : A) :
  In x l -> q x = true -> List.find q l <> None.
Proof.
  intros Hin Hq H. apply (find_none _ _ H) in Hin. congruence.
Qed.

(** Appending the bibliography keeps a part that passes the integrity
    check passing it. *)
Lemma add_zotero_bibl_integrity (n : nat) (root : element) (style_uri : str) :
  List.NoDup (uids root) ->
  verify_document_integrity root = [] ->
  verify_document_integrity
    (snd (fst (add_zotero_bibl_at_end n root style_uri))) = [].
Proof.
  intros Hnd Hok. unfold add_zotero_bibl_at_end.
  destruct (find (w "body") root) as [body|] eqn:Hbody; [|exact Hok].
  destruct (has_zotero_bibl root); [exact Hok|].
  assert (Hp : flat_map own_fld
                 (iter (new_element n (w "p") [] None
                          (fst (create_zotero_bibl_field_xml (n + 1) style_uri))))
               = [lit "begin"; lit "separate"; lit "end"]
               /\ flat_map own_sdt
                    (iter (new_element n (w "p") [] None
                             (fst (create_zotero_bibl_field_xml (n + 1) style_uri))))
                  = []) by (split; reflexivity).
  destruct Hp as [Hp1 Hp2].
  destruct (create_zotero_bibl_field_xml (n + 1) style_uri) as [bibl_runs n1].
  cbn [fst snd] in *.
  set (p := new_element n (w "p") [] None bibl_runs) in *.
  destruct root as [ru rt ra rx rcs]. unfold find in Hbody. cbn [e_children] in Hbody.
  destruct (find_split _ _ _ Hbody) as [l1 [l2 [-> Htag]]].
  apply eqb_str_true in Htag.
  destruct (nodup_children _ _ _ _ _ _ _ Hnd) as [Hru [Hbnd Hb]].
  assert (Hbu : In (e_uid body) (uids body)) by (rewrite uids_unfold; left; reflexivity).
  destruct (Hb _ Hbu) as [Hne [Hl1 Hl2]].
  destruct (bibl_position body p Hbnd) as [k1 [k2 [Hcs [Hcs' _]]]].
  cbn zeta in Hcs'. rewrite Hcs'. clear Hcs'.
  cbn [update_children].
  replace (ru =? e_uid body) with false
    by (symmetry; apply Nat.eqb_neq; intros E; apply Hne; symmetry; exact E).
  rewrite map_app. cbn [map].
  rewrite !update_children_list_absent by assumption.
  destruct body as [bu bt ba bx bcs]. cbn [e_uid e_tag e_children] in *.
  cbn [update_children]. rewrite Nat.eqb_refl. subst bt bcs.
  set (body := Element bu (w "body") ba bx (k1 ++ k2)) in *.
  set (body' := Element bu (w "body") ba bx (k1 ++ p :: k2)) in *.
  apply integrity_checks in Hok as [Hw [_ Hsdt]].
  apply balanced_types in Hw.
  apply integrity_checks. split; [|split].
  - apply balanced_types. revert Hw.
    rewrite !flat_map_iter with (e := Element ru _ _ _ _). cbn [e_children].
    rewrite !flat_map_app. cbn [flat_map].
    rewrite !flat_map_iter with (e := body').
    rewrite !flat_map_iter with (e := body).
    unfold body, body'. cbn [e_children].
    rewrite !flat_map_app. cbn [flat_map]. rewrite Hp1.
    change (own_fld (Element ru rt ra rx (l1 ++ Element bu (w "body") ba bx (k1 ++ p :: k2) :: l2)))
      with (own_fld (Element ru rt ra rx (l1 ++ Element bu (w "body") ba bx (k1 ++ k2) :: l2))).
    change (own_fld (Element bu (w "body") ba bx (k1 ++ p :: k2))) with (@nil str).
    change (own_fld (Element bu (w "body") ba bx (k1 ++ k2))) with (@nil str).
    cbn [app]. intros Hw. rewrite <- Hw.
    set (R := own_fld _). set (L1 := flat_map _ l1). set (K1 := flat_map _ k1).
    set (K2 := flat_map _ k2). set (L2 := flat_map _ l2).
    replace (R ++ L1 ++ (K1 ++ lit "begin" :: lit "separate" :: lit "end" :: K2) ++ L2)
      with ((R ++ L1 ++ K1) ++ [lit "begin"; lit "separate"; lit "end"] ++ (K2 ++ L2))
      by (rewrite <- !app_assoc; reflexivity).
    replace (R ++ L1 ++ (K1 ++ K2) ++ L2) with ((R ++ L1 ++ K1) ++ (K2 ++ L2))
      by (rewrite <- !app_assoc; reflexivity).
    apply walk_types_stretch. reflexivity.
  - unfold find. cbn [e_children].
    apply (find_present _ _ body'); [|reflexivity].
    apply in_or_app. right. left. reflexivity.
  - revert Hsdt.
    rewrite !flat_map_iter with (e := Element ru _ _ _ _). cbn [e_children].
    rewrite !flat_map_app. cbn [flat_map].
    rewrite !flat_map_iter with (e := body').
    rewrite !flat_map_iter with (e := body).
    unfold body, body'. cbn [e_children].
    rewrite !flat_map_app. cbn [flat_map]. rewrite Hp2.
    change (own_sdt (Element bu (w "body") ba bx (k1 ++ p :: k2))) with (@nil str).
    change (own_sdt (Element bu (w "body") ba bx (k1 ++ k2))) with (@nil str).
    assert (Hown : own_sdt (Element ru rt ra rx
                      (l1 ++ Element bu (w "body") ba bx (k1 ++ p :: k2) :: l2))
                   = own_sdt (Element ru rt ra rx
                      (l1 ++ Element bu (w "body") ba bx (k1 ++ k2) :: l2))).
    { unfold own_sdt, find. cbn [e_tag e_children].
      rewrite (find_skip _ l1 l2 (Element bu (w "body") ba bx (k1 ++ k2))
                 (Element bu (w "body") ba bx (k1 ++ p :: k2))); reflexivity. }
    rewrite Hown. cbn [app]. intros H. exact H.
Qed.

End IntegrityFacts.

(** ** The conversion of a plain part *)

Section ConvertProps.

Variable b64decode : str -> py_result bytes.
Variable decode_utf8_replace : bytes -> str.
Variable json_loads : str -> py_result json.
Variable extract_citation_info_from_citavi : json -> list citation_info.
Variable citation_json_str : nat -> list item -> str.

Let resolve_sdt :=
  resolve_sdt b64decode decode_utf8_replace json_loads
    extract_citation_info_from_citavi.
Let process_sdt :=
  process_sdt b64decode decode_utf8_replace json_loads
    extract_citation_info_from_citavi citation_json_str.
Let process_sdts :=
  process_sdts b64decode decode_utf8_replace json_loads
    extract_citation_info_from_citavi citation_json_str.
Let resolutions :=
  resolutions b64decode decode_utf8_replace json_loads
    extract_citation_info_from_citavi.

Lemma deref_present (st : pstate) (s : element) :
  List.NoDup (uids (st_root st)) -> In s (iter (st_root st)) ->
  deref st s = s.
Proof.
  intros Hnd Hin. unfold deref.
  rewrite (lookup_uid_unique _ _ Hnd Hin). reflexivity.
Qed.

Lemma find_citavi_sdts_placeholders (root : element) :
  map fst (find_citavi_sdts root) = placeholders root.
Proof.
  unfold find_citavi_sdts, placeholders, iter_tag, is_citavi_placeholder.
  induction (iter root) as [|e l IH]; [reflexivity|].
  cbn [List.filter]. destruct (eqb_str (e_tag e) (w "sdt")); cbn [andb].
  - cbn [flat_map]. rewrite map_app, IH.
    destruct (sdt_tag_val e) as [tag_val|]; [|reflexivity].
    destruct (startswith _ tag_val); reflexivity.
  - exact IH.
Qed.

(** One pass of the loop body on a plain part. *)
Lemma process_sdt_plain (st : pstate) (s : element)
    (zotero_items : list item) (missing : list str) (m1 : matcher) :
  plain_part (st_next st) (st_root st) ->
  In s (placeholders (st_root st)) ->
  resolve_sdt (st_matcher st) s = Return (zotero_items, missing, m1) ->
  exists st1,
    process_sdt st s = Return st1
    /\ st_matcher st1 = m1
    /\ plain_part (st_next st1) (st_root st1)
    /\ (bibliographies (st_root st) = [] -> bibliographies (st_root st1) = [])
    /\ (balanced s -> verify_document_integrity (st_root st) = [] ->
        verify_document_integrity (st_root st1) = [])
    /\ match zotero_items with
       | [] =>
           st_root st1 = st_root st
           /\ converted (st_stats st1) = converted (st_stats st)
           /\ skipped (st_stats st1) = skipped (st_stats st) + 1
           /\ st_modified st1 = st_modified st
       | _ =>
           placeholders (st_root st1)
           = List.filter (fun p => negb (e_uid p =? e_uid s))
               (placeholders (st_root st))
           /\ count_zotero_fields (st_root st1)
              = count_zotero_fields (st_root st) + 1
           /\ converted (st_stats st1) = converted (st_stats st) + 1
           /\ skipped (st_stats st1) = skipped (st_stats st)
           /\ st_modified st1 = true
       end.
Proof.
  intros Hplain Hs Hres.
  assert (Hin : In s (iter (st_root st))) by (apply filter_In in Hs as [H _]; exact H).
  unfold process_sdt, Engine.process_sdt.
  rewrite (deref_present st s (proj1 Hplain) Hin).
  unfold resolve_sdt in Hres. rewrite Hres.
  destruct zotero_items as [|it items].
  - eexists. split; [reflexivity|]. cbn [st_matcher st_root st_next st_stats
      converted skipped st_modified].
    split; [reflexivity|]. split; [exact Hplain|]. split; [tauto|].
    split; [tauto|].
    repeat split; reflexivity.
  - set (final_display := match extract_citavi_display_text s with
                          | [] => lit "(Citation)"
                          | _ => extract_citavi_display_text s
                          end).
    destruct (replace_in_plain_part (st_next st)
                (citation_json_str (st_built st) (it :: items)) final_display
                (st_root st) s Hplain Hs) as [Hrep [Hplain' [Hplaces [Hcount Hbib]]]].
    pose proof (replace_keeps_integrity (st_next st)
                  (citation_json_str (st_built st) (it :: items)) final_display
                  (st_root st) s Hplain Hs) as Hint.
    destruct (create_zotero_field_xml (st_next st)
                (citation_json_str (st_built st) (it :: items)) final_display)
      as [runs n1].
    cbn [fst snd] in *. rewrite Hrep.
    eexists. split; [reflexivity|]. cbn [st_matcher st_root st_next st_stats
      converted skipped st_modified].
    split; [reflexivity|]. split; [exact Hplain'|]. split; [exact Hbib|].
    split; [exact Hint|].
    repeat split; try reflexivity; assumption.
Qed.

Lemma placeholders_distinct (root : element) :
  List.NoDup (uids root) -> List.NoDup (map e_uid (placeholders root)).
Proof. intros H. apply nodup_filter_map. exact H. Qed.

(** The loop over the placeholders of a plain part. *)
Lemma process_sdts_plain (rest : list element) : forall (st : pstate) (kept : list element),
  b64decode_contract b64decode -> json_loads_contract json_loads ->
  plain_part (st_next st) (st_root st) ->
  placeholders (st_root st) = kept ++ rest ->
  exists st',
    process_sdts st rest = Return st'
    /\ length (resolutions (st_matcher st) rest) = length rest
    /\ plain_part (st_next st') (st_root st')
    /\ (bibliographies (st_root st) = [] -> bibliographies (st_root st') = [])
    /\ ((forall p, In p rest -> balanced p) ->
        verify_document_integrity (st_root st) = [] ->
        verify_document_integrity (st_root st') = [])
    /\ placeholders (st_root st')
       = kept ++ left_over (resolutions (st_matcher st) rest) rest
    /\ converted (st_stats st')
       = converted (st_stats st)
         + count_resolved (resolutions (st_matcher st) rest)
    /\ skipped (st_stats st')
       = skipped (st_stats st)
         + (length rest - count_resolved (resolutions (st_matcher st) rest))
    /\ count_zotero_fields (st_root st')
       = count_zotero_fields (st_root st)
         + count_resolved (resolutions (st_matcher st) rest)
    /\ st_modified st'
       = st_modified st
         || (0 <? count_resolved (resolutions (st_matcher st) rest)).
Proof.
  induction rest as [|s rest IH]; intros st kept Hb Hj Hplain Hplaces.
  - exists st. cbn. rewrite app_nil_r in Hplaces. rewrite app_nil_r.
    rewrite orb_false_r.
    split; [reflexivity|]. split; [reflexivity|]. split; [exact Hplain|].
    split; [tauto|]. split; [tauto|].
    repeat split; try lia; assumption.
  - assert (Hs : In s (placeholders (st_root st))).
    { rewrite Hplaces. apply in_or_app. right. left. reflexivity. }
    destruct (resolve_sdt_returns b64decode decode_utf8_replace json_loads
                extract_citation_info_from_citavi (st_matcher st) s Hb Hj)
      as [[[zotero_items missing] m1] Hres].
    destruct (process_sdt_plain st s zotero_items missing m1 Hplain Hs Hres)
      as [st1 [Hstep [Hm [Hplain1 [Hbib1 [Hint1 Hcase]]]]]].
    unfold process_sdts, resolutions.
    cbn [Engine.process_sdts Engine.resolutions].
    unfold process_sdt in Hstep. rewrite Hstep.
    unfold resolve_sdt in Hres. rewrite Hres.
    fold process_sdts resolutions. rewrite <- Hm.
    destruct zotero_items as [|it items].
    + destruct Hcase as [Hroot [Hc [Hsk Hmod]]].
      destruct (IH st1 (kept ++ [s]) Hb Hj Hplain1) as [st' H'].
      { rewrite Hroot, Hplaces, <- app_assoc. reflexivity. }
      destruct H' as [Hrun [Hlen [Hp' [Hbib' [Hint' [Hpl' [Hc' [Hsk' [Hz' Hmod']]]]]]]]].
      exists st'. split; [exact Hrun|].
      unfold left_over, count_resolved in *.
      cbn [length combine List.filter fst snd negb map].
      rewrite Hlen, Hpl', Hc', Hsk', Hz', Hmod', Hc, Hsk, Hmod, Hroot.
      rewrite <- app_assoc. cbn [app].
      assert (Hle : length (List.filter (fun b : bool => b)
                              (resolutions (st_matcher st1) rest)) <= length rest).
      { rewrite <- Hlen. apply List.filter_length_le. }
      split; [reflexivity|]. split; [exact Hp'|]. split; [tauto|].
      split.
      { intros Hbal Hok. apply Hint'.
        - intros p Hp. apply Hbal. right. exact Hp.
        - apply Hint1; [apply Hbal; left; reflexivity | exact Hok]. }
      repeat split; try reflexivity; lia.
    + destruct Hcase as [Hpl [Hz [Hc [Hsk Hmod]]]].
      destruct (IH st1 kept Hb Hj Hplain1) as [st' H'].
      { rewrite Hpl, Hplaces. apply filter_out_unique. rewrite <- Hplaces.
        apply placeholders_distinct. apply Hplain. }
      destruct H' as [Hrun [Hlen [Hp' [Hbib' [Hint' [Hpl' [Hc' [Hsk' [Hz' Hmod']]]]]]]]].
      exists st'. split; [exact Hrun|].
      unfold left_over, count_resolved in *.
      cbn [length combine List.filter fst snd negb map].
      rewrite Hlen, Hpl', Hc', Hsk', Hz', Hmod', Hc, Hsk, Hmod, Hz.
      assert (Hle : length (List.filter (fun b : bool => b)
                              (resolutions (st_matcher st1) rest)) <= length rest).
      { rewrite <- Hlen. apply List.filter_length_le. }
      split; [reflexivity|]. split; [exact Hp'|]. split; [tauto|].
      split.
      { intros Hbal Hok. apply Hint'.
        - intros p Hp. apply Hbal. right. exact Hp.
        - apply Hint1; [apply Hbal; left; reflexivity | exact Hok]. }
      split; [reflexivity|]. split; [lia|]. split; [lia|]. split; [lia|].
      cbn [orb Nat.ltb Nat.leb]. rewrite orb_true_r. reflexivity.
Qed.

Lemma remove_bibliography_loop_none (sdts : list element) :
  forall root ds removed,
    (forall e, In e sdts -> is_citavi_bibliography e = false) ->
    remove_bibliography_loop root ds removed sdts = (root, ds, removed).
Proof.
  induction sdts as [|sdt rest IH]; intros root ds removed Hnone; [reflexivity|].
  cbn [remove_bibliography_loop]. rewrite (Hnone sdt (or_introl eq_refl)).
  apply IH. intros e He. apply Hnone. right. exact He.
Qed.

Lemma remove_citavi_bibliography_none (root : element) (ds : list element) :
  bibliographies root = [] ->
  remove_citavi_bibliography root ds = (root, ds, 0).
Proof.
  intros Hnone. unfold remove_citavi_bibliography.
  apply remove_bibliography_loop_none. intros e He.
  apply (proj2 (filter_none _ _) Hnone). unfold iter_tag in He.
  apply filter_In in He as [He _]. exact He.
Qed.

(** The bibliography handling of a plain part without a Citavi
    bibliography. *)
Lemma handle_bibliography_plain (st : pstate) (style_uri : str) :
  plain_part (st_next st) (st_root st) ->
  bibliographies (st_root st) = [] ->
  st_stats (handle_bibliography st style_uri) = st_stats st
  /\ placeholders (st_root (handle_bibliography st style_uri))
     = placeholders (st_root st)
  /\ count_zotero_fields (st_root (handle_bibliography st style_uri))
     = count_zotero_fields (st_root st)
  /\ (st_modified st = true ->
      st_modified (handle_bibliography st style_uri) = true)
  /\ (verify_document_integrity (st_root st) = [] ->
      verify_document_integrity (st_root (handle_bibliography st style_uri)) = []).
Proof.
  intros [Hnd [_ [Hroot _]]] Hnone. unfold handle_bibliography.
  rewrite (remove_citavi_bibliography_none _ _ Hnone).
  change (0 <? 0) with false. rewrite orb_false_r.
  destruct ((0 <? converted (st_stats st)) || st_modified st).
  - destruct (add_zotero_bibl_keeps (st_next st) (st_root st) style_uri Hnd Hroot)
      as [H1 H2].
    pose proof (add_zotero_bibl_integrity (st_next st) (st_root st) style_uri Hnd)
      as H3.
    destruct (add_zotero_bibl_at_end (st_next st) (st_root st) style_uri)
      as [[added root2] n1].
    cbn [fst snd st_stats st_root st_modified] in *.
    split; [reflexivity|]. split; [exact H1|]. split; [exact H2|].
    split; [intros ->; reflexivity | exact H3].
  - cbn [st_stats st_root st_modified].
    split; [reflexivity|]. split; [reflexivity|]. split; [reflexivity|].
    split; tauto.
Qed.

Lemma process_xml_file_plain (is_document : bool) (root : element)
    (next : nat) (m : matcher) (s : stats) (built : nat) (style_uri : str) :
  b64decode_contract b64decode -> json_loads_contract json_loads ->
  plain_part next root ->
  (is_document = true -> bibliographies root = []) ->
  exists modified st,
    process_xml_file b64decode decode_utf8_replace json_loads
      extract_citation_info_from_citavi citation_json_str
      is_document root next m s built style_uri = Return (modified, st)
    /\ length (resolutions m (placeholders root)) = length (placeholders root)
    /\ converted (st_stats st)
       = converted s + count_resolved (resolutions m (placeholders root))
    /\ skipped (st_stats st)
       = skipped s + (length (placeholders root)
                      - count_resolved (resolutions m (placeholders root)))
    /\ placeholders (st_root st)
       = left_over (resolutions m (placeholders root)) (placeholders root)
    /\ count_zotero_fields (st_root st)
       = count_zotero_fields root
         + count_resolved (resolutions m (placeholders root))
    /\ (0 < count_resolved (resolutions m (placeholders root)) ->
        modified = true)
    /\ (is_document = false ->
        modified = (0 <? count_resolved (resolutions m (placeholders root))))
    /\ ((forall p, In p (placeholders root) -> balanced p) ->
        verify_document_integrity root = [] ->
        verify_document_integrity (st_root st) = []).
Proof.
  intros Hb Hj Hplain Hbib. unfold process_xml_file.
  pose proof (find_citavi_sdts_placeholders root) as Hsdts.
  destruct (find_citavi_sdts root) as [|sdt0 sdts0] eqn:Hfind.
  - cbn [map] in Hsdts. rewrite <- Hsdts.
    eexists _, _. split; [reflexivity|].
    cbn [st_stats st_root]. unfold resolutions, count_resolved, left_over.
    cbn. repeat split; intros; try reflexivity; try lia; try assumption.
    symmetry. exact Hsdts.
  - rewrite Hsdts.
    set (st0 := {| st_root := root; st_detached := []; st_next := next;
                   st_matcher := m; st_stats := s; st_modified := false;
                   st_built := built |}).
    destruct (process_sdts_plain (placeholders root) st0 [] Hb Hj Hplain eq_refl)
      as [st1 [Hrun [Hlen [Hp1 [Hbib1 [Hint1 [Hpl [Hc [Hsk [Hz Hmod]]]]]]]]]].
    unfold process_sdts in Hrun. rewrite Hrun.
    cbn [st_matcher st_root st_stats st_modified app orb] in *.
    destruct is_document.
    + destruct (handle_bibliography_plain st1 style_uri Hp1 (Hbib1 (Hbib eq_refl)))
        as [Hs2 [Hpl2 [Hz2 [Hm2 Hint2]]]].
      eexists _, _. split; [reflexivity|].
      rewrite Hs2, Hpl2, Hz2.
      split; [exact Hlen|]. split; [exact Hc|]. split; [exact Hsk|].
      split; [exact Hpl|]. split; [exact Hz|]. split; [|split; [discriminate|]].
      * intros HM. apply Hm2. rewrite Hmod. apply Nat.ltb_lt. exact HM.
      * intros Hbal Hok. apply Hint2. apply Hint1; assumption.
    + eexists _, _. split; [reflexivity|].
      split; [exact Hlen|]. split; [exact Hc|]. split; [exact Hsk|].
      split; [exact Hpl|]. split; [exact Hz|]. split; [|split].
      * intros HM. rewrite Hmod. apply Nat.ltb_lt. exact HM.
      * intros _. exact Hmod.
      * exact Hint1.
Qed.



End ConvertProps.



(** ** The workers *)

Section WorkerProps.

Variable path_exists : str -> bool.
Variable too_many : str.

Lemma naming_loop_spec (input_dir input_name : str) (fuel : nat) :
  forall counter,
    1 <= counter <= 1000 -> fuel + counter = 1001 ->
    (forall j, j + 1 < counter ->
       path_exists (candidate input_dir input_name j) = true) ->
    match naming_loop path_exists too_many fuel input_dir input_name
            (candidate input_dir input_name (counter - 1)) counter with
    | None => False
    | Some (Return p) =>
        path_exists p = false
        /\ exists k, k < 1000 /\ p = candidate input_dir input_name k
                     /\ forall j, j < k ->
                          path_exists (candidate input_dir input_name j) = true
    | Some (Raise cls msg) =>
        cls = OtherError /\ msg = too_many
        /\ forall j, j < 1000 ->
             path_exists (candidate input_dir input_name j) = true
    end.
Proof.
  induction fuel as [|fuel IH]; intros counter Hc Hfuel Hbefore.
  - cbn [naming_loop].
    destruct (path_exists (candidate input_dir input_name (counter - 1))) eqn:E.
    + lia.
    + lia.
  - cbn [naming_loop].
    destruct (path_exists (candidate input_dir input_name (counter - 1))) eqn:E.
    + assert (Hnow : forall j, j < counter ->
                path_exists (candidate input_dir input_name j) = true).
      { intros j Hj. destruct (Nat.eq_dec j (counter - 1)) as [-> | Hne];
          [exact E | apply Hbefore; lia]. }
      destruct (1000 <? counter + 1) eqn:Hlim.
      * apply Nat.ltb_lt in Hlim. repeat split. intros j Hj. apply Hnow. lia.
      * apply Nat.ltb_ge in Hlim.
        specialize (IH (counter + 1)).
        replace (counter + 1 - 1) with counter in IH by lia.
        replace (numbered_candidate input_dir input_name counter)
          with (candidate input_dir input_name counter)
          by (destruct counter; [lia | reflexivity]).
        apply IH; [lia | lia |]. intros j Hj. apply Hnow. lia.
    + split; [exact E|]. exists (counter - 1). split; [lia|].
      split; [reflexivity|]. intros j Hj. apply Hbefore. lia.
Qed.

(** X20: the choice of the output path.  The loop ends within its
    thousand passes.  A path it returns does not exist, is the plain
    candidate or one numbered 1 to 999, and every candidate before it
    exists: the first free name is taken and no existing file is chosen.
    It raises exactly when the plain candidate and those numbered 1 to 999
    all exist; the candidate numbered 1000 is built but never looked
    at. *)
Theorem choose_output_path_first_free (input_dir input_name : str) :
  match choose_output_path path_exists too_many input_dir input_name with
  | None => False
  | Some (Return p) =>
      path_exists p = false
      /\ exists k, k < 1000 /\ p = candidate input_dir input_name k
                   /\ forall j, j < k ->
                        path_exists (candidate input_dir input_name j) = true
  | Some (Raise cls msg) =>
      cls = OtherError /\ msg = too_many
      /\ forall j, j < 1000 ->
           path_exists (candidate input_dir input_name j) = true
  end.
Proof.
  unfold choose_output_path.
  apply (naming_loop_spec input_dir input_name 1000 1); [lia | lia |].
  intros j Hj. lia.
Qed.

End WorkerProps.

Section BatchProps.

Variable convert_file : str -> py_result (stats * str).
Variable verify_file : str -> str -> py_result unit.
Variable verify : bool.

Lemma converted_files_cons (f : str) (rest : list str) :
  converted_files convert_file (f :: rest)
  = match convert_file f with
    | Return (s, _) => s :: converted_files convert_file rest
    | Raise _ _ => converted_files convert_file rest
    end.
Proof.
  unfold converted_files.
  change (omap ?g (f :: rest))
    with (match g f with Some y => y :: omap g rest | None => omap g rest end).
  cbv beta. destruct (convert_file f) as [[s out]|cls msg]; reflexivity.
Qed.

Lemma batch_step_effect (a : batch_stats) (f : str) :
  let r := batch_step convert_file verify_file verify a f in
  let here := match convert_file f with
              | Return (s, _) => [s]
              | Raise _ _ => []
              end in
  total_files r = total_files a
  /\ successful r + failed r = successful a + failed a + 1
  /\ total_converted r = total_converted a + list_sum (map converted here)
  /\ total_skipped r = total_skipped a + list_sum (map skipped here)
  /\ length (output_paths r) = length (output_paths a) + length here
  /\ successful a <= successful r <= successful a + length here.
Proof.
  cbn zeta. unfold batch_step.
  destruct (convert_file f) as [[s out]|cls msg].
  - destruct (if verify then verify_file f out else Return ()) as [[]|cls msg];
      cbn [total_files successful failed total_converted total_skipped
           output_paths length map list_sum fold_right];
      rewrite ?length_app; cbn [length]; repeat split; lia.
  - cbn [total_files successful failed total_converted total_skipped
         output_paths length map list_sum fold_right].
    repeat split; lia.
Qed.

Lemma batch_fold (input_paths : list str) : forall a,
  let r := fold_left (batch_step convert_file verify_file verify) input_paths a in
  let done := converted_files convert_file input_paths in
  total_files r = total_files a
  /\ successful r + failed r = successful a + failed a + length input_paths
  /\ total_converted r = total_converted a + list_sum (map converted done)
  /\ total_skipped r = total_skipped a + list_sum (map skipped done)
  /\ length (output_paths r) = length (output_paths a) + length done
  /\ successful r <= successful a + length done.
Proof.
  induction input_paths as [|f rest IH]; intros a.
  - cbn. repeat split; lia.
  - cbn zeta. cbn [fold_left].
    destruct (IH (batch_step convert_file verify_file verify a f))
      as [H1 [H2 [H3 [H4 [H5 H6]]]]].
    destruct (batch_step_effect a f) as [G1 [G2 [G3 [G4 [G5 G6]]]]].
    cbn zeta in G3, G4, G5, G6. rewrite converted_files_cons.
    destruct (convert_file f) as [[s out]|cls msg];
      cbn [length map list_sum fold_right] in G3, G4, G5, G6;
      cbn [length map];
      repeat match goal with
             | |- context [list_sum (?x :: ?l)] =>
                 change (list_sum (x :: l)) with (x + list_sum l)
             end;
      repeat split; lia.
Qed.

(** X21: the accounting of a batch.  Every file is counted once, as
    successful or as failed, whatever it raises, and the batch goes on to
    the next file; the totals add up the counters of the files whose
    conversion returned, and one output path is recorded for each of
    them, also for a file that is then counted as failed because its
    verification raised. *)
Theorem batch_run_accounting (input_paths : list str) :
  let r := batch_run convert_file verify_file verify input_paths in
  total_files r = length input_paths
  /\ successful r + failed r = length input_paths
  /\ total_converted r
     = list_sum (map converted (converted_files convert_file input_paths))
  /\ total_skipped r
     = list_sum (map skipped (converted_files convert_file input_paths))
  /\ length (output_paths r) = length (converted_files convert_file input_paths)
  /\ successful r <= length (output_paths r).
Proof.
  cbn zeta. unfold batch_run.
  destruct (batch_fold input_paths
              {| total_files := length input_paths; successful := 0; failed := 0;
                 total_converted := 0; total_skipped := 0; total_unmatched := 0;
                 output_paths := [] |}) as [H1 [H2 [H3 [H4 [H5 H6]]]]].
  cbn [total_files successful failed total_converted total_skipped
       output_paths length] in *.
  repeat split; lia.
Qed.

End BatchProps.

(** ** The records of a payload *)

Section CitaviRecordsProps.

Lemma strip_stripped (t : str) : stripped (strip t).
Proof.
  split.
  - intros c r H. apply (strip_head t c r H).
  - intros r c H. unfold strip, strip_by, rstrip_by in H.
    apply (f_equal (@rev ascii)) in H.
    rewrite rev_involutive, rev_app_distr in H. cbn [rev app] in H.
    apply (lstrip_by_head is_space _ c (rev r) H).
Qed.

Lemma match_at_citavi_year (prev : option ascii) (s rest : str) :
  match_at RE_CITAVI_YEAR prev s = Some rest ->
  exists a b c d,
    s = a :: b :: c :: d :: rest
    /\ (a = "1"%char \/ a = "2"%char)
    /\ is_digit b = true /\ is_digit c = true /\ is_digit d = true.
Proof.
  unfold match_at, RE_CITAVI_YEAR. cbn [seq_re match_k digit].
  destruct (xorb (is_word_opt prev) (is_word_opt (head s))); [|discriminate].
  destruct s as [|a [|b [|c [|d s']]]]; cbn [match_k];
    repeat match goal with
           | |- context [if ?x then _ else _] => destruct x eqn:?
           end; try discriminate;
    intros H; injection H as <-;
    exists a, b, c, d;
    repeat match goal with
           | H : eqb_char _ _ = true |- _ => apply eqb_char_true in H
           end;
    subst; repeat split; try assumption; auto.
Qed.

Lemma search_from_citavi_year (s : str) : forall prev i a b,
  search_from RE_CITAVI_YEAR prev s i = Some (a, b) ->
  year_text (slice (a - i) (b - i) s).
Proof.
  induction s as [|c s IH]; intros prev i a b H.
  - cbn [search_from] in H.
    destruct (match_at RE_CITAVI_YEAR prev []) as [rest|] eqn:E; [|discriminate].
    apply match_at_citavi_year in E as [x [y [z [t [E _]]]]]. discriminate.
  - cbn [search_from] in H.
    destruct (match_at RE_CITAVI_YEAR prev (c :: s)) as [rest|] eqn:E.
    + injection H as <- <-.
      apply match_at_citavi_year in E as [x [y [z [t [E [Hx [Hy [Hz Ht]]]]]]]].
      injection E as -> ->. cbn [length]. replace (i - i) with 0 by lia.
      replace (i + (S (S (S (S (length rest)))) - length rest) - i) with 4 by lia.
      change (slice 0 4 (x :: y :: z :: t :: rest)) with [x; y; z; t].
      exists x, y, z, t. repeat split; (reflexivity || assumption).
    + pose proof H as H'. apply IH in H.
      assert (Hle : S i <= a).
      { clear -H'. revert H'. generalize (Some c). generalize (S i).
        induction s as [|c' s IHs]; intros n p H; cbn [search_from] in H.
        - destruct (match_at _ _ _); [injection H as <- _; lia | discriminate].
        - destruct (match_at _ _ _); [injection H as <- _; lia|].
          apply IHs in H. lia. }
      unfold slice in *.
      replace (a - i) with (S (a - S i)) by lia.
      replace (b - i - S (a - S i)) with (b - S i - (a - S i)) by lia.
      exact H.
Qed.

Section Builtins.

Variable float_is_zero : str -> bool.
Variable str_of_compound : json -> str.

Let extract_from_entry := extract_from_entry float_is_zero str_of_compound.
Let records_of := records_of float_is_zero str_of_compound.

Lemma stripped_field (keys : list str) (entry : list (str * json)) (t : str) :
  option_map (fun v => strip (py_str str_of_compound v))
    (first_truthy float_is_zero keys entry) = Some t ->
  stripped t.
Proof.
  destruct (first_truthy float_is_zero keys entry) as [v|]; [|discriminate].
  cbn [option_map]. intros H. injection H as <-. apply strip_stripped.
Qed.

Lemma year_field (keys : list str) (entry : list (str * json)) (y : str) :
  match first_truthy float_is_zero keys entry with
  | Some v =>
      match search RE_CITAVI_YEAR (py_str str_of_compound v) with
      | Some (i, j) => Some (slice i j (py_str str_of_compound v))
      | None => None
      end
  | None => None
  end = Some y ->
  year_text y.
Proof.
  destruct (first_truthy float_is_zero keys entry) as [v|]; [|discriminate].
  destruct (search RE_CITAVI_YEAR (py_str str_of_compound v)) as [[i j]|] eqn:E;
    [|discriminate].
  intros H. injection H as <-. unfold search in E.
  apply search_from_citavi_year in E. rewrite !Nat.sub_0_r in E. exact E.
Qed.

Lemma authors_field (authors : list raw_author) :
  match authors with [] => None | _ => Some authors end <> Some [].
Proof. destruct authors; discriminate. Qed.

Lemma extract_from_entry_ok (entry : list (str * json)) (r : raw_info) :
  extract_from_entry entry = Some r -> record_ok r.
Proof.
  unfold extract_from_entry, CitaviRecords.extract_from_entry. cbv zeta.
  pose proof (stripped_field [lit "Title"; lit "title"; lit "TitleString"] entry)
    as Htitle.
  pose proof (stripped_field [lit "Doi"; lit "doi"; lit "DOI"] entry) as Hdoi.
  pose proof (stripped_field [lit "Isbn"; lit "isbn"; lit "ISBN"] entry) as Hisbn.
  pose proof (year_field [lit "Year"; lit "year"; lit "YearResolved"; lit "Date"]
                entry) as Hyear.
  pose proof (authors_field
                (match first_truthy float_is_zero
                         [lit "Authors"; lit "authors";
                          lit "AuthorsOrEditorsOrOrganizations"] entry with
                 | Some (JList author_list) => flat_map authors_of author_list
                 | _ => []
                 end)) as Hauthors.
  revert Htitle Hdoi Hisbn Hyear Hauthors.
  generalize (option_map (fun v => strip (py_str str_of_compound v))
                (first_truthy float_is_zero
                   [lit "Title"; lit "title"; lit "TitleString"] entry)).
  generalize (option_map (fun v => strip (py_str str_of_compound v))
                (first_truthy float_is_zero [lit "Doi"; lit "doi"; lit "DOI"] entry)).
  generalize (option_map (fun v => strip (py_str str_of_compound v))
                (first_truthy float_is_zero [lit "Isbn"; lit "isbn"; lit "ISBN"]
                   entry)).
  generalize (match first_truthy float_is_zero
                      [lit "Year"; lit "year"; lit "YearResolved"; lit "Date"]
                      entry with
              | Some v =>
                  match search RE_CITAVI_YEAR (py_str str_of_compound v) with
                  | Some (i, j) => Some (slice i j (py_str str_of_compound v))
                  | None => None
                  end
              | None => None
              end).
  generalize (match first_truthy float_is_zero
                      [lit "Authors"; lit "authors";
                       lit "AuthorsOrEditorsOrOrganizations"] entry with
              | Some (JList author_list) => flat_map authors_of author_list
              | _ => []
              end).
  intros authors year isbn doi title Htitle Hdoi Hisbn Hyear Hauthors.
  destruct (info_empty _) eqn:Hempty; [discriminate|].
  intros H. injection H as <-.
  split; [exact Hempty|]. cbn [ri_title ri_authors ri_year ri_doi ri_isbn].
  split; [exact Hauthors|]. split; [exact Hyear|]. split; [exact Htitle|].
  split; [exact Hdoi | exact Hisbn].
Qed.

Lemma records_of_ok (entries : list json) :
  Forall record_ok (records_of entries)
  /\ length (records_of entries) <= length entries.
Proof.
  unfold records_of, CitaviRecords.records_of.
  induction entries as [|e entries [IH1 IH2]]; [split; [constructor | reflexivity]|].
  cbn [flat_map length]. rewrite length_app. split.
  - apply Forall_app. split; [|exact IH1].
    destruct e; try constructor.
    destruct (CitaviRecords.extract_from_entry _ _ members) as [r|] eqn:E; constructor;
      [|constructor].
    apply (extract_from_entry_ok members). exact E.
  - destruct e; cbn [length]; try lia.
    destruct (CitaviRecords.extract_from_entry _ _ members); cbn [length]; lia.
Qed.

Lemma first_yield_ok (vals : list json) : forall citations result,
  Forall record_ok citations ->
  first_yield float_is_zero str_of_compound citations vals = Some result ->
  Forall record_ok result /\ result <> [].
Proof.
  induction vals as [|v vals IH]; intros citations result Hc H; [discriminate|].
  cbn [first_yield] in H.
  destruct v; try (apply (IH _ _ Hc H)).
  destruct (citations ++ CitaviRecords.records_of float_is_zero str_of_compound l)
    as [|c cs] eqn:E.
  - apply (IH [] result); [constructor | exact H].
  - injection H as <-. split; [|discriminate]. rewrite <- E.
    apply Forall_app. split; [exact Hc | apply records_of_ok].
Qed.

(** X22: the records [extract_citation_info_from_citavi] returns are
    well formed, whatever the payload is: each carries at least one key;
    its authors, when present, are not an empty list; its year is four
    digits of which the first is 1 or 2; its title, DOI and ISBN have no
    blank at either end.  A payload that is a list gives at most one
    record for each of its elements; a payload that is neither a
    dictionary nor a list gives none. *)
Theorem extracted_records_well_formed (payload : json) :
  Forall record_ok
    (extract_citation_info_from_citavi float_is_zero str_of_compound payload)
  /\ (forall entries, payload = JList entries ->
        length (extract_citation_info_from_citavi float_is_zero
                  str_of_compound payload) <= length entries)
  /\ (match payload with
      | JDict _ | JList _ => True
      | _ => extract_citation_info_from_citavi float_is_zero
               str_of_compound payload = []
      end).
Proof.
  split; [|split].
  - destruct payload; try constructor.
    + apply records_of_ok.
    + unfold extract_citation_info_from_citavi.
      destruct (find_entries _ members) as [|e es] eqn:Hentries.
      * destruct (CitaviRecords.extract_from_entry _ _ members) as [r|] eqn:E.
        -- constructor; [|constructor].
           apply (extract_from_entry_ok members). exact E.
        -- destruct (first_yield _ _ [] (dict_values members)) as [cs|] eqn:Hy;
             [|constructor].
           apply (first_yield_ok _ [] cs (List.Forall_nil _) Hy).
      * apply records_of_ok.
  - intros entries ->. apply records_of_ok.
  - destruct payload; try exact I; reflexivity.
Qed.

End Builtins.

End CitaviRecordsProps.

(** ** Library entries as CSL data *)

Section CslProps.

Variable float_is_zero : str -> bool.

Lemma dict_get_app (key : str) (l1 l2 : list (str * json)) :
  dict_get key (l1 ++ l2)
  = match dict_get key l2 with
    | Some v => Some v
    | None => dict_get key l1
    end.
Proof.
  induction l1 as [|[k v] l1 IH]; cbn [app dict_get].
  - destruct (dict_get key l2); reflexivity.
  - rewrite IH. destruct (dict_get key l2); reflexivity.
Qed.

Lemma dict_get_absent (key : str) (l : list (str * json)) :
  ~ In key (map fst l) -> dict_get key l = None.
Proof.
  induction l as [|[k v] l IH]; [reflexivity|]. cbn [map fst In dict_get].
  intros Hno. rewrite IH by tauto.
  destruct (eqb_str k key) eqn:E; [|reflexivity].
  apply eqb_str_true in E. tauto.
Qed.

Lemma copy_if_set_keys (d : list (str * json)) (key out_key : str) :
  sublist (map fst (copy_if_set float_is_zero d key out_key)) [out_key].
Proof.
  unfold copy_if_set. destruct (dict_get key d) as [v|]; [|apply sublist_nil_l].
  destruct (value_truthy float_is_zero v); [reflexivity | apply sublist_nil_l].
Qed.

Lemma fields_keys (d : list (str * json)) (fields : list (str * str)) :
  sublist (map fst (flat_map (fun f => copy_if_set float_is_zero d (fst f) (snd f))
                      fields))
          (map snd fields).
Proof.
  induction fields as [|[zf cf] fields IH]; [constructor|].
  cbn [flat_map map fst snd]. rewrite map_app.
  change (cf :: map snd fields) with ([cf] ++ map snd fields).
  apply sublist_app; [apply copy_if_set_keys | exact IH].
Qed.

Lemma issued_keys (d : list (str * json)) (issued : list (str * json)) :
  issued_of float_is_zero d = Value issued ->
  sublist (map fst issued) [lit "issued"].
Proof.
  unfold issued_of. destruct (dict_get (lit "date") d) as [v|].
  - destruct (value_truthy float_is_zero v).
    + destruct v; try discriminate.
      destruct (search RE_YEAR s) as [[i j]|]; intros H; injection H as <-;
        [reflexivity | apply sublist_nil_l].
    + intros H; injection H as <-. apply sublist_nil_l.
  - intros H; injection H as <-. apply sublist_nil_l.
Qed.

Lemma container_keys (d : list (str * json)) :
  sublist (map fst (container_of float_is_zero d)) [lit "container-title"].
Proof.
  unfold container_of.
  destruct (first_truthy float_is_zero CONTAINER_FIELDS d);
    [reflexivity | apply sublist_nil_l].
Qed.

Lemma split_creators_lengths (creators : list json) : forall authors editors,
  Forall (fun c => exists m, c = JDict m) creators ->
  exists authors' editors',
    split_creators float_is_zero creators authors editors
    = Value (authors', editors')
    /\ length authors' + length editors'
       = length authors + length editors + length creators.
Proof.
  induction creators as [|c creators IH]; intros authors editors Hall.
  - exists authors, editors. cbn. split; [reflexivity | lia].
  - inversion Hall as [|? ? [m ->] Hrest]; subst.
    cbn [split_creators]. destruct (is_editor m).
    + destruct (IH authors (editors ++ [JDict (person_of float_is_zero m)]) Hrest)
        as [a' [e' [H1 H2]]].
      exists a', e'. split; [exact H1|]. rewrite length_app in H2.
      cbn [length] in *. lia.
    + destruct (IH (authors ++ [JDict (person_of float_is_zero m)]) editors Hrest)
        as [a' [e' [H1 H2]]].
      exists a', e'. split; [exact H1|]. rewrite length_app in H2.
      cbn [length] in *. lia.
Qed.

Lemma sublist_keys_absent (key : str) (l : list (str * json)) (keys : list str) :
  sublist (map fst l) keys -> ~ In key keys -> dict_get key l = None.
Proof.
  intros Hsub Hno. apply dict_get_absent. intros Hin. apply Hno.
  apply list_elem_of_In. apply (elem_of_sublist (map fst l) keys key); [|exact Hsub].
  apply list_elem_of_In. exact Hin.
Qed.

Lemma assoc_get_in (key : str) (l : list (str * str)) (v : str) :
  assoc_get key l = Some v -> In v (map snd l).
Proof.
  induction l as [|[k x] l IH]; [discriminate|]. cbn [assoc_get map snd].
  destruct (eqb_str k key); [intros H; injection H as <-; left; reflexivity|].
  intros H. right. apply IH. exact H.
Qed.

Lemma csl_type_known (item_type : json) :
  (forall l, item_type <> JList l) -> (forall m, item_type <> JDict m) ->
  exists ty, csl_type item_type = Value ty
             /\ In ty (lit "article" :: map snd TYPE_MAP).
Proof.
  intros H1 H2. destruct item_type; cbn [csl_type];
    try (eexists; split; [reflexivity | left; reflexivity]).
  - destruct (assoc_get s TYPE_MAP) as [t|] eqn:E.
    + exists t. split; [reflexivity|]. right. apply (assoc_get_in s). exact E.
    + eexists; split; [reflexivity | left; reflexivity].
  - exfalso. apply (H1 l). reflexivity.
  - exfalso. apply (H2 members). reflexivity.
Qed.

Ltac key_absent :=
  let H := fresh in
  cbn [map snd fst FIELD_MAP app In]; intros H;
  repeat (destruct H as [H | H]; [discriminate H|]); exact H.

(** X24: the CSL data of a convertible entry.  For an entry whose data
    are a dictionary, whose type can be looked up, whose creators are a
    list of dictionaries and whose date is a string or not set,
    [zotero_item_to_csl_json] returns; the keys of the result differ from
    each other; ["id"] is the key of the entry; ["type"] is one of the
    CSL types of the table or "article"; and every creator is among the
    authors or among the editors, once. *)
Theorem zotero_item_to_csl_json_convertible (item : list (str * json)) :
  convertible float_is_zero item ->
  exists csl,
    zotero_item_to_csl_json float_is_zero item = Value csl
    /\ List.NoDup (map fst csl)
    /\ dict_get (lit "id") csl = Some (get_or "key" item (JStr []))
    /\ (exists ty, dict_get (lit "type") csl = Some (JStr ty)
                   /\ In ty (lit "article" :: map snd TYPE_MAP))
    /\ (forall d creators,
          get_or "data" item (JDict []) = JDict d ->
          get_or "creators" d (JList []) = JList creators ->
          length (list_under "author" csl) + length (list_under "editor" csl)
          = length creators).
Proof.
  intros [d [Hd [Hty1 [Hty2 [[creators [Hcr Hall]] Hdate]]]]].
  unfold zotero_item_to_csl_json. rewrite Hd.
  destruct (csl_type_known _ Hty1 Hty2) as [ty [-> Hty]].
  assert (Hcreators : creators_of d = Value creators).
  { unfold creators_of. unfold get_or in Hcr.
    destruct (dict_get (lit "creators") d) as [v|]; [subst v; reflexivity|].
    injection Hcr as <-. reflexivity. }
  rewrite Hcreators.
  destruct (split_creators_lengths creators [] [] Hall) as [authors [editors [-> Hlen]]].
  cbn [length] in Hlen.
  assert (Hissued : exists issued, issued_of float_is_zero d = Value issued).
  { unfold issued_of. destruct (dict_get (lit "date") d) as [v|] eqn:E; [|eauto].
    destruct (value_truthy float_is_zero v) eqn:Et; [|eauto].
    destruct (Hdate v eq_refl Et) as [s ->].
    destruct (search RE_YEAR s) as [[i j]|]; eauto. }
  destruct Hissued as [issued Hissued]. rewrite Hissued.
  eexists. split; [reflexivity|].
  set (T := copy_if_set float_is_zero d (lit "title") (lit "title")).
  set (A := match authors with [] => [] | _ => [(lit "author", JList authors)] end).
  set (E := match editors with [] => [] | _ => [(lit "editor", JList editors)] end).
  set (C := container_of float_is_zero d).
  set (F := flat_map (fun f => copy_if_set float_is_zero d (fst f) (snd f)) FIELD_MAP).
  pose proof (copy_if_set_keys d (lit "title") (lit "title")) as HT. fold T in HT.
  assert (HA : sublist (map fst A) [lit "author"])
    by (unfold A; destruct authors; [apply sublist_nil_l | reflexivity]).
  assert (HE : sublist (map fst E) [lit "editor"])
    by (unfold E; destruct editors; [apply sublist_nil_l | reflexivity]).
  pose proof (issued_keys d issued Hissued) as HI.
  pose proof (container_keys d) as HC. fold C in HC.
  pose proof (fields_keys d FIELD_MAP) as HF. fold F in HF.
  split; [|split; [|split]].
  - apply NoDup_ListNoDup.
    apply (sublist_NoDup _
             ([lit "id"; lit "type"] ++ [lit "title"] ++ [lit "author"]
              ++ [lit "editor"] ++ [lit "issued"] ++ [lit "container-title"]
              ++ map snd FIELD_MAP)).
    + apply (bool_decide_unpack _). vm_compute. reflexivity.
    + rewrite !map_app.
      repeat (apply sublist_app; [first [reflexivity | assumption]|]).
      assumption.
  - rewrite !dict_get_app.
    rewrite (sublist_keys_absent (lit "id") F _ HF) by key_absent.
    rewrite (sublist_keys_absent (lit "id") C _ HC) by key_absent.
    rewrite (sublist_keys_absent (lit "id") issued _ HI) by key_absent.
    rewrite (sublist_keys_absent (lit "id") E _ HE) by key_absent.
    rewrite (sublist_keys_absent (lit "id") A _ HA) by key_absent.
    rewrite (sublist_keys_absent (lit "id") T _ HT) by key_absent.
    reflexivity.
  - exists ty. split; [|exact Hty].
    rewrite !dict_get_app.
    rewrite (sublist_keys_absent (lit "type") F _ HF) by key_absent.
    rewrite (sublist_keys_absent (lit "type") C _ HC) by key_absent.
    rewrite (sublist_keys_absent (lit "type") issued _ HI) by key_absent.
    rewrite (sublist_keys_absent (lit "type") E _ HE) by key_absent.
    rewrite (sublist_keys_absent (lit "type") A _ HA) by key_absent.
    rewrite (sublist_keys_absent (lit "type") T _ HT) by key_absent.
    reflexivity.
  - intros d' creators' Hd' Hcr'. injection Hd' as <-.
    rewrite Hcr in Hcr'. injection Hcr' as <-.
    unfold list_under. rewrite !dict_get_app.
    rewrite (sublist_keys_absent (lit "author") F _ HF) by key_absent.
    rewrite (sublist_keys_absent (lit "author") C _ HC) by key_absent.
    rewrite (sublist_keys_absent (lit "author") issued _ HI) by key_absent.
    rewrite (sublist_keys_absent (lit "author") E _ HE) by key_absent.
    rewrite (sublist_keys_absent (lit "editor") F _ HF) by key_absent.
    rewrite (sublist_keys_absent (lit "editor") C _ HC) by key_absent.
    rewrite (sublist_keys_absent (lit "editor") issued _ HI) by key_absent.
    rewrite (sublist_keys_absent (lit "author") T _ HT) by key_absent.
    rewrite (sublist_keys_absent (lit "editor") A _ HA) by key_absent.
    rewrite (sublist_keys_absent (lit "editor") T _ HT) by key_absent.
    change (dict_get (lit "author")
              [(lit "id", get_or "key" item (JStr [])); (lit "type", JStr ty)])
      with (@None json).
    change (dict_get (lit "editor")
              [(lit "id", get_or "key" item (JStr [])); (lit "type", JStr ty)])
      with (@None json).
    replace (dict_get (lit "author") A)
      with (match authors with [] => None | _ => Some (JList authors) end)
      by (unfold A; destruct authors; reflexivity).
    replace (dict_get (lit "editor") E)
      with (match editors with [] => None | _ => Some (JList editors) end)
      by (unfold E; destruct editors; reflexivity).
    destruct authors as [|a authors'], editors as [|e editors'];
      cbn [length] in *; lia.
Qed.

End CslProps.

Lemma zotero_item_to_csl_json_convertible_witness :
  exists csl,
    zotero_item_to_csl_json (fun _ => false) sample_entry = Value csl
    /\ dict_get (lit "id") csl = Some (JStr (lit "ABCD1234"))
    /\ length (list_under "author" csl) + length (list_under "editor" csl) = 2.
Proof.
  destruct (zotero_item_to_csl_json_convertible (fun _ => false) sample_entry)
    as [csl [H1 [_ [H2 [_ H3]]]]].
  - exists sample_entry_data. split; [reflexivity|].
    split; [intros l H; vm_compute in H; discriminate H|].
    split; [intros m H; vm_compute in H; discriminate H|].
    split.
    + eexists. split; [reflexivity|]. repeat constructor; eexists; reflexivity.
    + intros v Hv _. vm_compute in Hv. injection Hv as <-. eexists. reflexivity.
  - exists csl. split; [exact H1|]. split; [exact H2|].
    exact (H3 sample_entry_data _ eq_refl eq_refl).
Defined.
